(** * cubeworld: touch-gesture interpretation and camera motion

    A shallow embedding of the three touch controllers of the repository

      - [src/input/CameraTouchController.ts]  (rotate / pinch / pan / momentum),
      - [src/input/TouchManager.ts]           (tap / long-press / drag / pinch events),
      - [src/input/TouchBlockController.ts]   (tap-to-edit, quick-delete mode),

    and of the configuration classes [GameConfig] and [ConfigManager],
    followed by the properties of the specification that concern them and by
    further properties of the same code.

    JavaScript numbers are modelled by the real numbers [R]: coordinates,
    time stamps, sensitivities and velocities are all [number] in the source.
    Rounding, infinities and NaN are outside this model.  The comparisons of
    the source ([<], [>], [===], [!==]) become the boolean tests [Rltb],
    [Rgtb], [Reqb] and [Rneqb] below. *)

From Stdlib Require Import Reals Lra Lia List Bool ZArith Sorted.
Import ListNotations.

Open Scope R_scope.

(** ** Numbers *)

Module Num.

Definition Rltb (a b : R) : bool := if Rlt_dec a b then true else false.
Definition Rgtb (a b : R) : bool := Rltb b a.
Definition Rleb (a b : R) : bool := if Rle_dec a b then true else false.
Definition Reqb (a b : R) : bool := if Req_dec_T a b then true else false.
Definition Rneqb (a b : R) : bool := negb (Reqb a b).

Lemma Rltb_true (a b : R) : a < b -> Rltb a b = true.
Proof. intros H. unfold Rltb. destruct (Rlt_dec a b); [reflexivity | contradiction]. Qed.

Lemma Rltb_false (a b : R) : b <= a -> Rltb a b = false.
Proof. intros H. unfold Rltb. destruct (Rlt_dec a b); [lra | reflexivity]. Qed.

Lemma Rltb_iff (a b : R) : Rltb a b = true <-> a < b.
Proof. unfold Rltb. destruct (Rlt_dec a b); split; intros; try easy. Qed.

Lemma Rltb_iff_false (a b : R) : Rltb a b = false <-> b <= a.
Proof. unfold Rltb. destruct (Rlt_dec a b); split; intros; try easy; lra. Qed.

Lemma Rleb_true (a b : R) : a <= b -> Rleb a b = true.
Proof. intros H. unfold Rleb. destruct (Rle_dec a b); [reflexivity | contradiction]. Qed.

Lemma Rleb_false (a b : R) : b < a -> Rleb a b = false.
Proof. intros H. unfold Rleb. destruct (Rle_dec a b); [lra | reflexivity]. Qed.

Lemma Rleb_iff (a b : R) : Rleb a b = true <-> a <= b.
Proof. unfold Rleb. destruct (Rle_dec a b); split; intros; try easy. Qed.

Lemma Reqb_true (a b : R) : a = b -> Reqb a b = true.
Proof. intros H. unfold Reqb. destruct (Req_dec_T a b); [reflexivity | contradiction]. Qed.

Lemma Reqb_false (a b : R) : a <> b -> Reqb a b = false.
Proof. intros H. unfold Reqb. destruct (Req_dec_T a b); [contradiction | reflexivity]. Qed.

Lemma Reqb_iff (a b : R) : Reqb a b = true <-> a = b.
Proof. unfold Reqb. destruct (Req_dec_T a b); split; intros; try easy. Qed.

Lemma Rneqb_iff (a b : R) : Rneqb a b = true <-> a <> b.
Proof.
  unfold Rneqb, Reqb. destruct (Req_dec_T a b); simpl; split; intros; try easy.
Qed.

(** [Math.sqrt] at a perfect square. *)
Lemma sqrt_eval (a c : R) : 0 <= c -> c * c = a -> sqrt a = c.
Proof. intros Hc H. apply sqrt_lem_1; [rewrite <- H; nra | exact Hc | exact H]. Qed.

(** [Math.abs] at a number of known sign. *)
Lemma Rabs_eval_pos (a : R) : 0 <= a -> Rabs a = a.
Proof. intros H. apply Rabs_right. lra. Qed.

Lemma Rabs_eval_neg (a : R) : a <= 0 -> Rabs a = - a.
Proof.
  intros H. destruct (Req_dec_T a 0) as [-> | Hne].
  - rewrite Rabs_R0. lra.
  - apply Rabs_left. lra.
Qed.

(** Evaluation of the tests of the source on concrete numbers. *)
Ltac Rabs_case :=
  match goal with
  | |- context [Rabs ?a] =>
      first [ rewrite (Rabs_eval_pos a) by lra
            | rewrite (Rabs_eval_neg a) by lra ]
  end.

Ltac Rtest :=
  match goal with
  | |- context [Rltb ?a ?b] =>
      first [ rewrite (Rltb_true a b) by lra
            | rewrite (Rltb_false a b) by lra ]
  | |- context [Rleb ?a ?b] =>
      first [ rewrite (Rleb_true a b) by lra
            | rewrite (Rleb_false a b) by lra ]
  | |- context [Reqb ?a ?b] =>
      first [ rewrite (Reqb_true a b) by lra
            | rewrite (Reqb_false a b) by lra ]
  end.

End Num.
Import Num.

(** ** The DOM values the controllers receive *)

Module Dom.

(** A [Touch] of a [TouchEvent]: only the members the controllers read. *)
Record Touch : Type := mkTouch {
  identifier : Z;
  clientX : R;
  clientY : R
}.

(** A [TouchEvent]: the contacts currently on the surface ([touches]) and the
    contacts the event is about ([changedTouches]). *)
Record TouchEvent : Type := mkTouchEvent {
  touches : list Touch;
  changedTouches : list Touch
}.

(** [canvas.getBoundingClientRect()]: only [left] and [top] are read. *)
Record Rect : Type := mkRect {
  left : R;
  top : R
}.

End Dom.

(** ** JavaScript [Map<number, V>]

    A [Map] iterates in insertion order and [set] on a present key keeps the
    key's place; [Array.from(map.values())] depends on that order, so the map
    is an association list. *)

Module JsMap.

Section WithValue.
Context {V : Type}.

Definition t : Type := list (Z * V).

Definition empty : t := [].

Fixpoint set (k : Z) (v : V) (m : t) : t :=
  match m with
  | [] => [(k, v)]
  | (k', v') :: m' =>
      if Z.eqb k k' then (k, v) :: m' else (k', v') :: set k v m'
  end.

Fixpoint get (k : Z) (m : t) : option V :=
  match m with
  | [] => None
  | (k', v') :: m' => if Z.eqb k k' then Some v' else get k m'
  end.

Fixpoint delete (k : Z) (m : t) : t :=
  match m with
  | [] => []
  | (k', v') :: m' =>
      if Z.eqb k k' then m' else (k', v') :: delete k m'
  end.

Definition size (m : t) : nat := length m.

Definition values (m : t) : list V := map snd m.

Definition has (k : Z) (m : t) : bool :=
  match get k m with Some _ => true | None => false end.
End WithValue.

Arguments t : clear implicits.

End JsMap.

(** ** CameraTouchController.ts *)

Module CameraTouchController.

Inductive GestureType : Type := none | rotate | pinch | pan.

Definition GestureType_eqb (a b : GestureType) : bool :=
  match a, b with
  | none, none | rotate, rotate | pinch, pinch | pan, pan => true
  | _, _ => false
  end.

Record TouchPoint : Type := mkTouchPoint {
  id : Z;
  x : R;
  y : R;
  timestamp : R
}.

(** [interface Velocity { x; y; timestamp }]. *)
Record Velocity : Type := mkVelocity {
  v_x : R;
  v_y : R;
  v_timestamp : R
}.

(** The anonymous [{ x: number; y: number }] of [previousMidpoint]. *)
Record Point : Type := mkPoint {
  p_x : R;
  p_y : R
}.

(** The commands issued to the collaborating [CameraController]. *)
Inductive CameraCall : Type :=
| rotateCamera (deltaX deltaY : R)
| zoomCamera (delta : R)
| panCamera (deltaX deltaY : R).

Definition MOMENTUM_FRICTION : R := 0.92.
Definition MOMENTUM_MIN_VELOCITY : R := 0.1.

(** The private fields of the class. *)
Record Controller : Type := mkController {
  enabled : bool;
  touches : JsMap.t TouchPoint;
  gestureType : GestureType;
  previousDistance : R;
  previousMidpoint : Point;
  rotationSensitivity : R;
  zoomSensitivity : R;
  panSensitivity : R;
  momentumEnabled : bool;
  velocity : Velocity;
  momentumAnimationId : option nat
}.

(** The variables captured by the closure [animate] of [startMomentum]. *)
Record MomentumEnv : Type := mkMomentumEnv {
  lastX : R;
  lastY : R;
  velocityX : R;
  velocityY : R
}.

(** The controller together with its host: the animation-frame callbacks the
    browser holds ([frames], each with the closure variables of its
    [animate]), the next handle [requestAnimationFrame] returns, whether the
    canvas listeners are attached, and the camera commands issued so far
    (oldest first). *)
Record World : Type := mkWorld {
  ctl : Controller;
  frames : list (nat * MomentumEnv);
  nextFrame : nat;
  attached : bool;
  calls : list CameraCall
}.

(** *** Field updates *)

Definition set_enabled (b : bool) (c : Controller) : Controller :=
  mkController b (touches c) (gestureType c) (previousDistance c)
    (previousMidpoint c) (rotationSensitivity c) (zoomSensitivity c)
    (panSensitivity c) (momentumEnabled c) (velocity c) (momentumAnimationId c).

Definition set_touches (m : JsMap.t TouchPoint) (c : Controller) : Controller :=
  mkController (enabled c) m (gestureType c) (previousDistance c)
    (previousMidpoint c) (rotationSensitivity c) (zoomSensitivity c)
    (panSensitivity c) (momentumEnabled c) (velocity c) (momentumAnimationId c).

Definition set_gestureType (g : GestureType) (c : Controller) : Controller :=
  mkController (enabled c) (touches c) g (previousDistance c)
    (previousMidpoint c) (rotationSensitivity c) (zoomSensitivity c)
    (panSensitivity c) (momentumEnabled c) (velocity c) (momentumAnimationId c).

Definition set_previousDistance (d : R) (c : Controller) : Controller :=
  mkController (enabled c) (touches c) (gestureType c) d
    (previousMidpoint c) (rotationSensitivity c) (zoomSensitivity c)
    (panSensitivity c) (momentumEnabled c) (velocity c) (momentumAnimationId c).

Definition set_previousMidpoint (p : Point) (c : Controller) : Controller :=
  mkController (enabled c) (touches c) (gestureType c) (previousDistance c)
    p (rotationSensitivity c) (zoomSensitivity c)
    (panSensitivity c) (momentumEnabled c) (velocity c) (momentumAnimationId c).

Definition set_rotationSensitivity (s : R) (c : Controller) : Controller :=
  mkController (enabled c) (touches c) (gestureType c) (previousDistance c)
    (previousMidpoint c) s (zoomSensitivity c)
    (panSensitivity c) (momentumEnabled c) (velocity c) (momentumAnimationId c).

Definition set_zoomSensitivity (s : R) (c : Controller) : Controller :=
  mkController (enabled c) (touches c) (gestureType c) (previousDistance c)
    (previousMidpoint c) (rotationSensitivity c) s
    (panSensitivity c) (momentumEnabled c) (velocity c) (momentumAnimationId c).

Definition set_panSensitivity (s : R) (c : Controller) : Controller :=
  mkController (enabled c) (touches c) (gestureType c) (previousDistance c)
    (previousMidpoint c) (rotationSensitivity c) (zoomSensitivity c)
    s (momentumEnabled c) (velocity c) (momentumAnimationId c).

Definition set_momentumEnabled (b : bool) (c : Controller) : Controller :=
  mkController (enabled c) (touches c) (gestureType c) (previousDistance c)
    (previousMidpoint c) (rotationSensitivity c) (zoomSensitivity c)
    (panSensitivity c) b (velocity c) (momentumAnimationId c).

Definition set_velocity (v : Velocity) (c : Controller) : Controller :=
  mkController (enabled c) (touches c) (gestureType c) (previousDistance c)
    (previousMidpoint c) (rotationSensitivity c) (zoomSensitivity c)
    (panSensitivity c) (momentumEnabled c) v (momentumAnimationId c).

Definition set_momentumAnimationId (i : option nat) (c : Controller) : Controller :=
  mkController (enabled c) (touches c) (gestureType c) (previousDistance c)
    (previousMidpoint c) (rotationSensitivity c) (zoomSensitivity c)
    (panSensitivity c) (momentumEnabled c) (velocity c) i.

Definition with_ctl (f : Controller -> Controller) (w : World) : World :=
  mkWorld (f (ctl w)) (frames w) (nextFrame w) (attached w) (calls w).

Definition set_attached (b : bool) (w : World) : World :=
  mkWorld (ctl w) (frames w) (nextFrame w) b (calls w).

(** A call of a method of [this.cameraController]. *)
Definition issue (c : CameraCall) (w : World) : World :=
  mkWorld (ctl w) (frames w) (nextFrame w) (attached w) (calls w ++ [c]).

(** *** The host's animation frames *)

(** [requestAnimationFrame(animate)]: the callback is queued under a fresh
    handle, which is returned. *)
Definition requestAnimationFrame (env : MomentumEnv) (w : World) : nat * World :=
  (nextFrame w,
   mkWorld (ctl w) (frames w ++ [(nextFrame w, env)]) (S (nextFrame w))
     (attached w) (calls w)).

(** [cancelAnimationFrame(id)]. *)
Definition cancelAnimationFrame (i : nat) (w : World) : World :=
  mkWorld (ctl w) (filter (fun f => negb (Nat.eqb (fst f) i)) (frames w))
    (nextFrame w) (attached w) (calls w).

Definition frame_lookup (i : nat) (w : World) : option MomentumEnv :=
  match find (fun f => Nat.eqb (fst f) i) (frames w) with
  | Some f => Some (snd f)
  | None => None
  end.

(** *** The constructor *)

Definition initial_controller : Controller :=
  mkController true JsMap.empty none 0 (mkPoint 0 0) 1.0 1.0 1.0 true
    (mkVelocity 0 0 0) None.

Definition initial : World :=
  mkWorld initial_controller [] 1%nat true [].

(** *** Geometry *)

Definition calculateDistance (touch1 touch2 : TouchPoint) : R :=
  let dx := x touch2 - x touch1 in
  let dy := y touch2 - y touch1 in
  sqrt (dx * dx + dy * dy).

Definition calculateMidpoint (touch1 touch2 : TouchPoint) : Point :=
  mkPoint ((x touch1 + x touch2) / 2) ((y touch1 + y touch2) / 2).

(** *** Momentum *)

(** [stopMomentum]: the pending frame, if any, is cancelled and the stored
    velocity is reset. *)
Definition stopMomentum (w : World) : World :=
  let w1 :=
    match momentumAnimationId (ctl w) with
    | Some i => with_ctl (set_momentumAnimationId None) (cancelAnimationFrame i w)
    | None => w
    end in
  with_ctl (set_velocity (mkVelocity 0 0 0)) w1.

(** The body of the closure [animate], run by the host on the closure
    variables [env]. *)
Definition animate (env : MomentumEnv) (w : World) : World :=
  (* Apply friction *)
  let velocityX' := velocityX env * MOMENTUM_FRICTION in
  let velocityY' := velocityY env * MOMENTUM_FRICTION in
  (* Stop if velocity is too small *)
  if Rltb (Rabs velocityX') MOMENTUM_MIN_VELOCITY
     && Rltb (Rabs velocityY') MOMENTUM_MIN_VELOCITY
  then stopMomentum w
  else
    (* Apply rotation *)
    let deltaX := velocityX' - lastX env in
    let deltaY := velocityY' - lastY env in
    let w1 :=
      if Rgtb (Rabs deltaX) 0.01 || Rgtb (Rabs deltaY) 0.01
      then issue (rotateCamera (deltaX * rotationSensitivity (ctl w))
                               (deltaY * rotationSensitivity (ctl w))) w
      else w in
    (* Continue animation *)
    let env' := mkMomentumEnv velocityX' velocityY' velocityX' velocityY' in
    let (i, w2) := requestAnimationFrame env' w1 in
    with_ctl (set_momentumAnimationId (Some i)) w2.

(** The tail of [startMomentum]: the closure is created over the given
    velocity and its first frame requested. *)
Definition scheduleMomentum (velocityX0 velocityY0 : R) (w : World) : World :=
  let env := mkMomentumEnv 0 0 velocityX0 velocityY0 in
  let (i, w1) := requestAnimationFrame env w in
  with_ctl (set_momentumAnimationId (Some i)) w1.

Definition startMomentum (w : World) : World :=
  if negb (momentumEnabled (ctl w)) then w
  else
    let w1 := stopMomentum w in (* Stop any existing momentum *)
    scheduleMomentum (v_x (velocity (ctl w1))) (v_y (velocity (ctl w1))) w1.

(** [calculateVelocity], with [now] the value of [Date.now()]. *)
Definition calculateVelocity (now : R) (c : Controller) : Controller :=
  match JsMap.values (touches c) with
  | [] => c
  | currentTouch :: _ =>
      let dt := now - v_timestamp (velocity c) in
      if Rltb 0 dt && Rltb dt 100
      then
        (* Only calculate if time delta is reasonable *)
        set_velocity
          (mkVelocity (((x currentTouch - v_x (velocity c)) / dt) * 16.67)
                      (((y currentTouch - v_y (velocity c)) / dt) * 16.67)
                      now) c
      else
        set_velocity (mkVelocity (x currentTouch) (y currentTouch) now) c
  end.

(** *** Gesture classification *)

Definition updateGestureType (c : Controller) : Controller :=
  match JsMap.size (touches c) with
  | 0%nat => set_gestureType none c
  | 1%nat => set_gestureType rotate c
  | 2%nat =>
      match JsMap.values (touches c) with
      | touch0 :: touch1 :: _ =>
          let distance := calculateDistance touch0 touch1 in
          if Reqb (previousDistance c) 0
          then set_gestureType pinch c
          else
            let distanceChange := Rabs (distance - previousDistance c) in
            if Rgtb distanceChange 5
            then set_gestureType pinch c
            else set_gestureType pan c
      | _ => c
      end
  | _ => c
  end.

(** *** Gestures *)

Definition handleRotateGesture (previousTouches : JsMap.t TouchPoint)
  (w : World) : World :=
  match JsMap.values (touches (ctl w)) with
  | [] => w
  | currentTouch :: _ =>
      match JsMap.get (id currentTouch) previousTouches with
      | None => w
      | Some previousTouch =>
          let deltaX := (x currentTouch - x previousTouch)
                        * rotationSensitivity (ctl w) in
          let deltaY := (y currentTouch - y previousTouch)
                        * rotationSensitivity (ctl w) in
          issue (rotateCamera deltaX deltaY) w
      end
  end.

Definition handlePinchGesture (w : World) : World :=
  match JsMap.values (touches (ctl w)) with
  | touch0 :: touch1 :: _ =>
      let currentDistance := calculateDistance touch0 touch1 in
      let w1 :=
        if Rgtb (previousDistance (ctl w)) 0
        then
          let distanceChange := currentDistance - previousDistance (ctl w) in
          let zoomDelta := - distanceChange * 0.01 * zoomSensitivity (ctl w) in
          issue (zoomCamera zoomDelta) w
        else w in
      with_ctl (set_previousDistance currentDistance) w1
  | _ => w
  end.

Definition handlePanGesture (w : World) : World :=
  match JsMap.values (touches (ctl w)) with
  | touch0 :: touch1 :: _ =>
      let currentMidpoint := calculateMidpoint touch0 touch1 in
      let w1 :=
        if Rneqb (p_x (previousMidpoint (ctl w))) 0
           && Rneqb (p_y (previousMidpoint (ctl w))) 0
        then
          let deltaX := (p_x currentMidpoint - p_x (previousMidpoint (ctl w)))
                        * panSensitivity (ctl w) in
          let deltaY := (p_y currentMidpoint - p_y (previousMidpoint (ctl w)))
                        * panSensitivity (ctl w) in
          issue (panCamera deltaX deltaY) w
        else w in
      with_ctl (set_previousMidpoint currentMidpoint) w1
  | _ => w
  end.

(** *** Event handlers *)

(** The loop [for (...) this.touches.set(touch.identifier, {...})]. *)
Definition trackTouches (now : R) (ts : list Dom.Touch)
  (m : JsMap.t TouchPoint) : JsMap.t TouchPoint :=
  fold_left
    (fun m touch =>
       JsMap.set (Dom.identifier touch)
         (mkTouchPoint (Dom.identifier touch) (Dom.clientX touch)
            (Dom.clientY touch) now) m)
    ts m.

(** The loop [for (...) this.touches.delete(touch.identifier)]. *)
Definition untrackTouches (ts : list Dom.Touch)
  (m : JsMap.t TouchPoint) : JsMap.t TouchPoint :=
  fold_left (fun m touch => JsMap.delete (Dom.identifier touch) m) ts m.

(** Initialize state for gesture (the end of [handleTouchStart]). *)
Definition initGestureState (c : Controller) : Controller :=
  if GestureType_eqb (gestureType c) pinch || GestureType_eqb (gestureType c) pan
  then
    match JsMap.values (touches c) with
    | touch0 :: touch1 :: _ =>
        set_previousMidpoint (calculateMidpoint touch0 touch1)
          (set_previousDistance (calculateDistance touch0 touch1) c)
    | _ => c
    end
  else c.

Definition handleTouchStart (event : Dom.TouchEvent) (now : R) (w : World)
  : World :=
  if negb (enabled (ctl w)) then w
  else
    (* Stop momentum *)
    let w1 := stopMomentum w in
    (* Update touch tracking *)
    let w2 :=
      with_ctl (fun c => set_touches
                           (trackTouches now (Dom.touches event) (touches c)) c)
        w1 in
    (* Determine gesture type *)
    let w3 := with_ctl updateGestureType w2 in
    (* Initialize state for gesture *)
    with_ctl initGestureState w3.

Definition handleTouchMove (event : Dom.TouchEvent) (now : R) (w : World)
  : World :=
  if negb (enabled (ctl w)) then w
  else
    let previousTouches := touches (ctl w) in
    (* Update touch tracking *)
    let w1 :=
      with_ctl (set_touches (trackTouches now (Dom.touches event) JsMap.empty))
        w in
    (* Update gesture type (may change from pinch to pan) *)
    let w2 := with_ctl updateGestureType w1 in
    (* Process gesture *)
    if GestureType_eqb (gestureType (ctl w2)) rotate
       && Nat.eqb (JsMap.size (touches (ctl w2))) 1
    then handleRotateGesture previousTouches w2
    else if GestureType_eqb (gestureType (ctl w2)) pinch
            && Nat.eqb (JsMap.size (touches (ctl w2))) 2
    then handlePinchGesture w2
    else if GestureType_eqb (gestureType (ctl w2)) pan
            && Nat.eqb (JsMap.size (touches (ctl w2))) 2
    then handlePanGesture w2
    else w2.

Definition handleTouchEnd (event : Dom.TouchEvent) (now : R) (w : World)
  : World :=
  if negb (enabled (ctl w)) then w
  else
    (* Calculate velocity before removing touches (for momentum) *)
    let w1 :=
      if momentumEnabled (ctl w)
         && GestureType_eqb (gestureType (ctl w)) rotate
         && Nat.eqb (JsMap.size (touches (ctl w))) 1
      then startMomentum (with_ctl (calculateVelocity now) w)
      else w in
    (* Remove ended touches *)
    let w2 :=
      with_ctl (fun c => set_touches
                           (untrackTouches (Dom.changedTouches event) (touches c))
                           c) w1 in
    (* Update remaining touches *)
    let w3 :=
      with_ctl (set_touches (trackTouches now (Dom.touches event) JsMap.empty))
        w2 in
    (* Reset gesture type *)
    with_ctl updateGestureType w3.

Definition handleTouchCancel (event : Dom.TouchEvent) (now : R) (w : World)
  : World :=
  handleTouchEnd event now w.

(** *** Public methods *)

Definition setRotationSensitivity (sensitivity : R) (w : World) : World :=
  with_ctl (set_rotationSensitivity sensitivity) w.

Definition setZoomSensitivity (sensitivity : R) (w : World) : World :=
  with_ctl (set_zoomSensitivity sensitivity) w.

Definition setPanSensitivity (sensitivity : R) (w : World) : World :=
  with_ctl (set_panSensitivity sensitivity) w.

Definition setMomentumEnabled (b : bool) (w : World) : World :=
  let w1 := with_ctl (set_momentumEnabled b) w in
  if negb b then stopMomentum w1 else w1.

Definition enable (w : World) : World :=
  with_ctl (set_enabled true) w.

Definition disable (w : World) : World :=
  stopMomentum
    (with_ctl (fun c => set_gestureType none
                          (set_touches JsMap.empty (set_enabled false c))) w).

Definition destroy (w : World) : World :=
  with_ctl (set_touches JsMap.empty) (set_attached false (stopMomentum w)).

(** *** The controller in its host *)

(** What can happen to a controller: the canvas delivers a touch event (with
    the clock's reading), the browser runs a requested animation frame, or
    the application calls a public method. *)
Inductive Event : Type :=
| TouchStart (event : Dom.TouchEvent) (now : R)
| TouchMove (event : Dom.TouchEvent) (now : R)
| TouchEnd (event : Dom.TouchEvent) (now : R)
| TouchCancel (event : Dom.TouchEvent) (now : R)
| AnimationFrame (handle : nat)
| SetRotationSensitivity (sensitivity : R)
| SetZoomSensitivity (sensitivity : R)
| SetPanSensitivity (sensitivity : R)
| SetMomentumEnabled (b : bool)
| Enable
| Disable
| Destroy.

(** The browser runs the callback requested under [handle], if it is still
    queued, and forgets it. *)
Definition runAnimationFrame (handle : nat) (w : World) : World :=
  match frame_lookup handle w with
  | Some env => animate env (cancelAnimationFrame handle w)
  | None => w
  end.

Definition step (w : World) (e : Event) : World :=
  match e with
  | TouchStart event now => if attached w then handleTouchStart event now w else w
  | TouchMove event now => if attached w then handleTouchMove event now w else w
  | TouchEnd event now => if attached w then handleTouchEnd event now w else w
  | TouchCancel event now => if attached w then handleTouchCancel event now w else w
  | AnimationFrame handle => runAnimationFrame handle w
  | SetRotationSensitivity s => setRotationSensitivity s w
  | SetZoomSensitivity s => setZoomSensitivity s w
  | SetPanSensitivity s => setPanSensitivity s w
  | SetMomentumEnabled b => setMomentumEnabled b w
  | Enable => enable w
  | Disable => disable w
  | Destroy => destroy w
  end.

Fixpoint run (es : list Event) (w : World) : World :=
  match es with
  | [] => w
  | e :: es' => run es' (step w e)
  end.

(** The worlds a controller can be in. *)
Definition reachable (w : World) : Prop := exists es, w = run es initial.

(** The momentum session of a world: the frames the browser runs one after
    the other, each under the handle the controller holds. *)
Fixpoint runMomentum (n : nat) (w : World) : World :=
  match n with
  | O => w
  | S n' =>
      match momentumAnimationId (ctl w) with
      | Some handle => runMomentum n' (runAnimationFrame handle w)
      | None => w
      end
  end.

End CameraTouchController.

(** ** TouchManager.ts *)

Module TouchManager.

Record TouchPoint : Type := mkTouchPoint {
  id : Z;
  x : R;
  y : R;
  startX : R;
  startY : R;
  timestamp : R
}.

Record TapEvent : Type := mkTapEvent { tap_x : R; tap_y : R }.

Record LongPressEvent : Type := mkLongPressEvent { lp_x : R; lp_y : R }.

Record DragEvent : Type := mkDragEvent {
  deltaX : R;
  deltaY : R;
  fingerCount : nat;
  drag_x : R;
  drag_y : R
}.

Record PinchEvent : Type := mkPinchEvent {
  scale : R;
  deltaScale : R;
  centerX : R;
  centerY : R
}.

Definition TAP_THRESHOLD_MS : R := 300.
Definition TAP_MOVE_THRESHOLD_PX : R := 10.
Definition LONG_PRESS_DURATION_MS : R := 500.
Definition LONG_PRESS_MOVE_THRESHOLD_PX : R := 10.

(** How a call ends: it returns, or an exception leaves it. *)
Inductive Completion : Type := Normal | Thrown.

(** A registered callback: who it is, and whether its call on an event
    returns or throws. *)
Record Listener (E : Type) : Type := mkListener {
  listener_id : nat;
  listener_run : E -> Completion
}.

Arguments mkListener {E}.
Arguments listener_id {E}.
Arguments listener_run {E}.

(** The calls of registered callbacks, as the application sees them. *)
Inductive Notification : Type :=
| TapNotified (listener : nat) (event : TapEvent)
| LongPressNotified (listener : nat) (event : LongPressEvent)
| DragNotified (listener : nat) (event : DragEvent)
| PinchNotified (listener : nat) (event : PinchEvent).

Record Manager : Type := mkManager {
  activeTouches : JsMap.t TouchPoint;
  longPressTimers : JsMap.t nat;
  tapCallbacks : list (Listener TapEvent);
  longPressCallbacks : list (Listener LongPressEvent);
  dragCallbacks : list (Listener DragEvent);
  pinchCallbacks : list (Listener PinchEvent)
}.

(** The manager in its host: the timers [window.setTimeout] holds (each with
    the [touchPoint.id] its closure captured), the next timer handle, whether
    the canvas listeners are attached, and the callbacks called so far
    (oldest first). *)
Record World : Type := mkWorld {
  mgr : Manager;
  timers : list (nat * Z);
  nextTimer : nat;
  attached : bool;
  log : list Notification
}.

Definition set_activeTouches (m : JsMap.t TouchPoint) (g : Manager) : Manager :=
  mkManager m (longPressTimers g) (tapCallbacks g) (longPressCallbacks g)
    (dragCallbacks g) (pinchCallbacks g).

Definition set_longPressTimers (m : JsMap.t nat) (g : Manager) : Manager :=
  mkManager (activeTouches g) m (tapCallbacks g) (longPressCallbacks g)
    (dragCallbacks g) (pinchCallbacks g).

Definition with_mgr (f : Manager -> Manager) (w : World) : World :=
  mkWorld (f (mgr w)) (timers w) (nextTimer w) (attached w) (log w).

Definition notify (n : Notification) (w : World) : World :=
  mkWorld (mgr w) (timers w) (nextTimer w) (attached w) (log w ++ [n]).

(** *** Statements that may throw *)

(** A statement acts on the world and completes normally or abruptly; the
    effects made before an exception stay. *)
Definition Stmt : Type := World -> Completion * World.

Definition skip : Stmt := fun w => (Normal, w).

Definition lift (f : World -> World) : Stmt := fun w => (Normal, f w).

Definition seq (s1 s2 : Stmt) : Stmt :=
  fun w =>
    match s1 w with
    | (Normal, w1) => s2 w1
    | (Thrown, w1) => (Thrown, w1)
    end.

Notation "s1 ;; s2" := (seq s1 s2) (at level 61, right associativity).

(** [array.forEach(f)] and the [for] loops over an event's touches: the
    first exception ends the loop. *)
Fixpoint forEach {A : Type} (f : A -> Stmt) (l : list A) : Stmt :=
  match l with
  | [] => skip
  | a :: l' => f a ;; forEach f l'
  end.

(** [callback(event)]. *)
Definition call {E : Type} (mk : nat -> E -> Notification) (event : E)
  (callback : Listener E) : Stmt :=
  fun w => (listener_run callback event, notify (mk (listener_id callback) event) w).

Definition triggerTapCallbacks (event : TapEvent) : Stmt :=
  fun w => forEach (call TapNotified event) (tapCallbacks (mgr w)) w.

Definition triggerLongPressCallbacks (event : LongPressEvent) : Stmt :=
  fun w => forEach (call LongPressNotified event) (longPressCallbacks (mgr w)) w.

Definition triggerDragCallbacks (event : DragEvent) : Stmt :=
  fun w => forEach (call DragNotified event) (dragCallbacks (mgr w)) w.

Definition triggerPinchCallbacks (event : PinchEvent) : Stmt :=
  fun w => forEach (call PinchNotified event) (pinchCallbacks (mgr w)) w.

(** *** Timers *)

(** [Math.pow(a, 2)]. *)
Definition pow2 (a : R) : R := a * a.

Definition clearTimeout (timer : nat) (w : World) : World :=
  mkWorld (mgr w) (filter (fun t => negb (Nat.eqb (fst t) timer)) (timers w))
    (nextTimer w) (attached w) (log w).

Definition startLongPressTimer (touchPoint : TouchPoint) (w : World) : World :=
  let timer := nextTimer w in
  let w1 := mkWorld (mgr w) (timers w ++ [(timer, id touchPoint)])
              (S (nextTimer w)) (attached w) (log w) in
  with_mgr (fun g => set_longPressTimers
                       (JsMap.set (id touchPoint) timer (longPressTimers g)) g)
    w1.

Definition cancelLongPressTimer (touchId : Z) (w : World) : World :=
  match JsMap.get touchId (longPressTimers (mgr w)) with
  | Some timer =>
      if Nat.eqb timer 0 then w
      else
        with_mgr (fun g => set_longPressTimers
                             (JsMap.delete touchId (longPressTimers g)) g)
          (clearTimeout timer w)
  | None => w
  end.

(** The callback given to [window.setTimeout] by [startLongPressTimer], for
    the touch point of identifier [touchId]. *)
Definition longPressTimeout (touchId : Z) : Stmt :=
  fun w =>
    (* Check if touch is still active and hasn't moved *)
    match JsMap.get touchId (activeTouches (mgr w)) with
    | None => (Normal, w)
    | Some currentTouch =>
        let distance :=
          sqrt (pow2 (x currentTouch - startX currentTouch)
                + pow2 (y currentTouch - startY currentTouch)) in
        ((if Rleb distance LONG_PRESS_MOVE_THRESHOLD_PX
          then triggerLongPressCallbacks
                 (mkLongPressEvent (x currentTouch) (y currentTouch))
          else skip) ;;
         lift (with_mgr (fun g => set_longPressTimers
                                    (JsMap.delete touchId (longPressTimers g)) g)))
          w
    end.

(** *** Event handlers *)

Definition handleTouchStart (e : Dom.TouchEvent) (rect : Dom.Rect) (now : R)
  (w : World) : World :=
  fold_left
    (fun w touch =>
       let x := Dom.clientX touch - Dom.left rect in
       let y := Dom.clientY touch - Dom.top rect in
       let touchPoint := mkTouchPoint (Dom.identifier touch) x y x y now in
       let w1 := with_mgr (fun g => set_activeTouches
                                      (JsMap.set (Dom.identifier touch) touchPoint
                                         (activeTouches g)) g) w in
       (* Start long press timer *)
       startLongPressTimer touchPoint w1)
    (Dom.touches e) w.

(** Handle two finger gestures (pinch and pan). *)
Definition handleTwoFingerGestures (touch1 touch2 : Dom.Touch) (rect : Dom.Rect)
  : Stmt :=
  fun w =>
    let x1 := Dom.clientX touch1 - Dom.left rect in
    let y1 := Dom.clientY touch1 - Dom.top rect in
    let x2 := Dom.clientX touch2 - Dom.left rect in
    let y2 := Dom.clientY touch2 - Dom.top rect in
    (* Calculate distance between fingers *)
    let distance := sqrt (pow2 (x2 - x1) + pow2 (y2 - y1)) in
    (* Calculate center point *)
    let centerX := (x1 + x2) / 2 in
    let centerY := (y1 + y2) / 2 in
    match JsMap.get (Dom.identifier touch1) (activeTouches (mgr w)),
          JsMap.get (Dom.identifier touch2) (activeTouches (mgr w)) with
    | Some touchPoint1, Some touchPoint2 =>
        let previousDistance :=
          sqrt (pow2 (x touchPoint2 - x touchPoint1)
                + pow2 (y touchPoint2 - y touchPoint1)) in
        ((if Rgtb previousDistance 0
          then
            let scale := distance / previousDistance in
            let deltaScale := scale - 1 in
            triggerPinchCallbacks (mkPinchEvent scale deltaScale centerX centerY)
          else skip) ;;
         (* Two finger drag (pan) *)
         let deltaX := (x1 + x2) / 2 - (x touchPoint1 + x touchPoint2) / 2 in
         let deltaY := (y1 + y2) / 2 - (y touchPoint1 + y touchPoint2) / 2 in
         if Rgtb (Rabs deltaX) 0.1 || Rgtb (Rabs deltaY) 0.1
         then triggerDragCallbacks (mkDragEvent deltaX deltaY 2 centerX centerY)
         else skip) w
    | _, _ => (Normal, w)
    end.

(** The first pass of [handleTouchMove]: gestures are detected against the
    stored positions. *)
Definition detectGestures (e : Dom.TouchEvent) (rect : Dom.Rect) : Stmt :=
  fun w =>
    match Dom.touches e with
    | [touch] =>
        (* Single finger drag *)
        match JsMap.get (Dom.identifier touch) (activeTouches (mgr w)) with
        | Some touchPoint =>
            let x' := Dom.clientX touch - Dom.left rect in
            let y' := Dom.clientY touch - Dom.top rect in
            let deltaX := x' - x touchPoint in
            let deltaY := y' - y touchPoint in
            (* Only trigger if there's actual movement *)
            if Rgtb (Rabs deltaX) 0.1 || Rgtb (Rabs deltaY) 0.1
            then triggerDragCallbacks (mkDragEvent deltaX deltaY 1 x' y') w
            else (Normal, w)
        | None => (Normal, w)
        end
    | [touch1; touch2] =>
        (* Two finger gestures (pinch, pan) *)
        handleTwoFingerGestures touch1 touch2 rect w
    | _ => (Normal, w)
    end.

(** The second pass of [handleTouchMove]: the stored positions are updated
    (and missing touches added). *)
Definition updatePositions (e : Dom.TouchEvent) (rect : Dom.Rect) (now : R)
  (w : World) : World :=
  fold_left
    (fun w touch =>
       let x' := Dom.clientX touch - Dom.left rect in
       let y' := Dom.clientY touch - Dom.top rect in
       match JsMap.get (Dom.identifier touch) (activeTouches (mgr w)) with
       | None =>
           (* If touch doesn't exist yet (edge case), add it *)
           with_mgr (fun g => set_activeTouches
                                (JsMap.set (Dom.identifier touch)
                                   (mkTouchPoint (Dom.identifier touch) x' y' x' y' now)
                                   (activeTouches g)) g) w
       | Some touchPoint =>
           (* Check if moved beyond long press threshold *)
           let totalDistance :=
             sqrt (pow2 (x' - startX touchPoint) + pow2 (y' - startY touchPoint)) in
           let w1 :=
             if Rgtb totalDistance LONG_PRESS_MOVE_THRESHOLD_PX
             then cancelLongPressTimer (id touchPoint) w
             else w in
           (* Update position *)
           with_mgr (fun g => set_activeTouches
                                (JsMap.set (Dom.identifier touch)
                                   (mkTouchPoint (id touchPoint) x' y'
                                      (startX touchPoint) (startY touchPoint)
                                      (timestamp touchPoint))
                                   (activeTouches g)) g) w1
       end)
    (Dom.touches e) w.

Definition handleTouchMove (e : Dom.TouchEvent) (rect : Dom.Rect) (now : R)
  : Stmt :=
  match Dom.touches e with
  | [] => skip
  | _ => detectGestures e rect ;; lift (updatePositions e rect now)
  end.

Definition handleTouchEnd (e : Dom.TouchEvent) (rect : Dom.Rect) (now : R)
  : Stmt :=
  forEach
    (fun touch w =>
       match JsMap.get (Dom.identifier touch) (activeTouches (mgr w)) with
       | None => (Normal, w)
       | Some touchPoint =>
           (* Cancel long press timer *)
           let w1 := cancelLongPressTimer (Dom.identifier touch) w in
           (* Check if it's a tap *)
           let duration := now - timestamp touchPoint in
           let distance :=
             sqrt (pow2 (Dom.clientX touch - Dom.left rect - startX touchPoint)
                   + pow2 (Dom.clientY touch - Dom.top rect - startY touchPoint)) in
           ((if Rltb duration TAP_THRESHOLD_MS
                && Rltb distance TAP_MOVE_THRESHOLD_PX
             then triggerTapCallbacks
                    (mkTapEvent (startX touchPoint) (startY touchPoint))
             else skip) ;;
            (* Remove touch point *)
            lift (with_mgr (fun g => set_activeTouches
                                       (JsMap.delete (Dom.identifier touch)
                                          (activeTouches g)) g))) w1
       end)
    (Dom.changedTouches e).

Definition handleTouchCancel (e : Dom.TouchEvent) (w : World) : World :=
  fold_left
    (fun w touch =>
       with_mgr (fun g => set_activeTouches
                            (JsMap.delete (Dom.identifier touch) (activeTouches g)) g)
         (cancelLongPressTimer (Dom.identifier touch) w))
    (Dom.changedTouches e) w.

(** *** Public methods *)

Definition onTap (callback : Listener TapEvent) (w : World) : World :=
  with_mgr (fun g => mkManager (activeTouches g) (longPressTimers g)
                       (tapCallbacks g ++ [callback]) (longPressCallbacks g)
                       (dragCallbacks g) (pinchCallbacks g)) w.

Definition onLongPress (callback : Listener LongPressEvent) (w : World) : World :=
  with_mgr (fun g => mkManager (activeTouches g) (longPressTimers g)
                       (tapCallbacks g) (longPressCallbacks g ++ [callback])
                       (dragCallbacks g) (pinchCallbacks g)) w.

Definition onDrag (callback : Listener DragEvent) (w : World) : World :=
  with_mgr (fun g => mkManager (activeTouches g) (longPressTimers g)
                       (tapCallbacks g) (longPressCallbacks g)
                       (dragCallbacks g ++ [callback]) (pinchCallbacks g)) w.

Definition onPinch (callback : Listener PinchEvent) (w : World) : World :=
  with_mgr (fun g => mkManager (activeTouches g) (longPressTimers g)
                       (tapCallbacks g) (longPressCallbacks g)
                       (dragCallbacks g) (pinchCallbacks g ++ [callback])) w.

Definition destroy (w : World) : World :=
  let w1 := fold_left (fun w timer => clearTimeout timer w)
              (JsMap.values (longPressTimers (mgr w))) w in
  mkWorld (set_activeTouches JsMap.empty
             (set_longPressTimers JsMap.empty (mgr w1)))
    (timers w1) (nextTimer w1) false (log w1).

Definition getActiveTouchCount (w : World) : nat :=
  JsMap.size (activeTouches (mgr w)).

(** *** The manager in its host *)

Definition initial : World :=
  mkWorld (mkManager JsMap.empty JsMap.empty [] [] [] []) [] 1%nat true [].

Inductive Event : Type :=
| TouchStart (e : Dom.TouchEvent) (rect : Dom.Rect) (now : R)
| TouchMove (e : Dom.TouchEvent) (rect : Dom.Rect) (now : R)
| TouchEnd (e : Dom.TouchEvent) (rect : Dom.Rect) (now : R)
| TouchCancel (e : Dom.TouchEvent)
| Timeout (timer : nat)
| OnTap (callback : Listener TapEvent)
| OnLongPress (callback : Listener LongPressEvent)
| OnDrag (callback : Listener DragEvent)
| OnPinch (callback : Listener PinchEvent)
| Destroy.

(** The browser runs the timer [timer], if it is still pending, and forgets
    it. *)
Definition runTimeout (timer : nat) : Stmt :=
  fun w =>
    match find (fun t => Nat.eqb (fst t) timer) (timers w) with
    | Some t => longPressTimeout (snd t) (clearTimeout timer w)
    | None => (Normal, w)
    end.

(** One event; an exception that leaves a handler reaches the browser, which
    reports it and goes on, so the world after it is kept. *)
Definition step (w : World) (e : Event) : World :=
  match e with
  | TouchStart e rect now => if attached w then handleTouchStart e rect now w else w
  | TouchMove e rect now => if attached w then snd (handleTouchMove e rect now w) else w
  | TouchEnd e rect now => if attached w then snd (handleTouchEnd e rect now w) else w
  | TouchCancel e => if attached w then handleTouchCancel e w else w
  | Timeout timer => snd (runTimeout timer w)
  | OnTap callback => onTap callback w
  | OnLongPress callback => onLongPress callback w
  | OnDrag callback => onDrag callback w
  | OnPinch callback => onPinch callback w
  | Destroy => destroy w
  end.

Fixpoint run (es : list Event) (w : World) : World :=
  match es with
  | [] => w
  | e :: es' => run es' (step w e)
  end.

(** *** Unsubscribing *)

(** [callbacks.indexOf(callback)] followed by [splice(index, 1)] when the
    index is not -1: the first registration of the callback is removed.  A
    function value is the listener it is, so two are the same when their
    [listener_id] is. *)
Fixpoint removeFirst {E : Type} (callback : Listener E) (l : list (Listener E))
  : list (Listener E) :=
  match l with
  | [] => []
  | c :: l' =>
      if Nat.eqb (listener_id c) (listener_id callback) then l'
      else c :: removeFirst callback l'
  end.

(** The functions returned by [onTap], [onLongPress], [onDrag] and
    [onPinch]. *)
Definition unsubscribeTap (callback : Listener TapEvent) (w : World) : World :=
  with_mgr (fun g => mkManager (activeTouches g) (longPressTimers g)
                       (removeFirst callback (tapCallbacks g)) (longPressCallbacks g)
                       (dragCallbacks g) (pinchCallbacks g)) w.

Definition unsubscribeLongPress (callback : Listener LongPressEvent) (w : World)
  : World :=
  with_mgr (fun g => mkManager (activeTouches g) (longPressTimers g)
                       (tapCallbacks g) (removeFirst callback (longPressCallbacks g))
                       (dragCallbacks g) (pinchCallbacks g)) w.

Definition unsubscribeDrag (callback : Listener DragEvent) (w : World) : World :=
  with_mgr (fun g => mkManager (activeTouches g) (longPressTimers g)
                       (tapCallbacks g) (longPressCallbacks g)
                       (removeFirst callback (dragCallbacks g)) (pinchCallbacks g)) w.

Definition unsubscribePinch (callback : Listener PinchEvent) (w : World) : World :=
  with_mgr (fun g => mkManager (activeTouches g) (longPressTimers g)
                       (tapCallbacks g) (longPressCallbacks g)
                       (dragCallbacks g) (removeFirst callback (pinchCallbacks g))) w.

End TouchManager.

(** ** TouchBlockController.ts *)

Module TouchBlockController.

(** [BlockType] of [types/VoxelTypes] is a numeric enum; the controller only
    names [AIR] (0, the empty value) and [GRASS] (1, the initial selection). *)
Definition BlockType : Type := Z.
Definition AIR : BlockType := 0%Z.
Definition GRASS : BlockType := 1%Z.

Record TouchPoint : Type := mkTouchPoint {
  x : R;
  y : R;
  startX : R;
  startY : R;
  timestamp : R;
  moved : bool
}.

(** What the controller does to its collaborators: the three
    [TouchBlockCallbacks], the registered long-press callbacks, the haptic
    request and the feedback element put on the page. *)
Inductive Effect : Type :=
| onPlaceBlock (x y : R) (blockType : BlockType)
| onRemoveBlock (x y : R)
| longPressCallback (listener : nat) (x y : R)
| vibrate (ms : R)
| tapFeedback (x y : R).

Record Controller : Type := mkController {
  enabled : bool;
  currentTouch : option TouchPoint;
  touchCount : nat;
  currentBlock : BlockType;
  quickDeleteMode : bool;
  longPressTimer : option nat;
  tapMovementThreshold : R;
  tapDurationThreshold : R;
  longPressDuration : R;
  longPressCallbacks : list nat
}.

(** The controller in its host: the long-press timers [window.setTimeout]
    holds (each with the [x], [y] its closure captured), the next timer
    handle, whether the canvas listeners are attached, whether
    [navigator.vibrate] exists, the world's answer to [getBlockAtPosition],
    and the effects so far (oldest first). *)
Record World : Type := mkWorld {
  ctl : Controller;
  timers : list (nat * (R * R));
  nextTimer : nat;
  attached : bool;
  canVibrate : bool;
  getBlockAtPosition : R -> R -> BlockType;
  effects : list Effect
}.

Definition set_enabled (b : bool) (c : Controller) : Controller :=
  mkController b (currentTouch c) (touchCount c) (currentBlock c)
    (quickDeleteMode c) (longPressTimer c) (tapMovementThreshold c)
    (tapDurationThreshold c) (longPressDuration c) (longPressCallbacks c).

Definition set_currentTouch (t : option TouchPoint) (c : Controller) : Controller :=
  mkController (enabled c) t (touchCount c) (currentBlock c)
    (quickDeleteMode c) (longPressTimer c) (tapMovementThreshold c)
    (tapDurationThreshold c) (longPressDuration c) (longPressCallbacks c).

Definition set_touchCount (n : nat) (c : Controller) : Controller :=
  mkController (enabled c) (currentTouch c) n (currentBlock c)
    (quickDeleteMode c) (longPressTimer c) (tapMovementThreshold c)
    (tapDurationThreshold c) (longPressDuration c) (longPressCallbacks c).

Definition set_currentBlock (b : BlockType) (c : Controller) : Controller :=
  mkController (enabled c) (currentTouch c) (touchCount c) b
    (quickDeleteMode c) (longPressTimer c) (tapMovementThreshold c)
    (tapDurationThreshold c) (longPressDuration c) (longPressCallbacks c).

Definition set_quickDeleteMode (b : bool) (c : Controller) : Controller :=
  mkController (enabled c) (currentTouch c) (touchCount c) (currentBlock c)
    b (longPressTimer c) (tapMovementThreshold c)
    (tapDurationThreshold c) (longPressDuration c) (longPressCallbacks c).

Definition set_longPressTimer (t : option nat) (c : Controller) : Controller :=
  mkController (enabled c) (currentTouch c) (touchCount c) (currentBlock c)
    (quickDeleteMode c) t (tapMovementThreshold c)
    (tapDurationThreshold c) (longPressDuration c) (longPressCallbacks c).

Definition set_tapMovementThreshold (r : R) (c : Controller) : Controller :=
  mkController (enabled c) (currentTouch c) (touchCount c) (currentBlock c)
    (quickDeleteMode c) (longPressTimer c) r
    (tapDurationThreshold c) (longPressDuration c) (longPressCallbacks c).

Definition set_tapDurationThreshold (r : R) (c : Controller) : Controller :=
  mkController (enabled c) (currentTouch c) (touchCount c) (currentBlock c)
    (quickDeleteMode c) (longPressTimer c) (tapMovementThreshold c)
    r (longPressDuration c) (longPressCallbacks c).

Definition set_longPressCallbacks (l : list nat) (c : Controller) : Controller :=
  mkController (enabled c) (currentTouch c) (touchCount c) (currentBlock c)
    (quickDeleteMode c) (longPressTimer c) (tapMovementThreshold c)
    (tapDurationThreshold c) (longPressDuration c) l.

Definition with_ctl (f : Controller -> Controller) (w : World) : World :=
  mkWorld (f (ctl w)) (timers w) (nextTimer w) (attached w) (canVibrate w)
    (getBlockAtPosition w) (effects w).

Definition emit (e : Effect) (w : World) : World :=
  mkWorld (ctl w) (timers w) (nextTimer w) (attached w) (canVibrate w)
    (getBlockAtPosition w) (effects w ++ [e]).

Definition emit_all (es : list Effect) (w : World) : World :=
  fold_left (fun w e => emit e w) es w.

(** *** Timers *)

Definition clearTimeout (timer : nat) (w : World) : World :=
  mkWorld (ctl w) (filter (fun t => negb (Nat.eqb (fst t) timer)) (timers w))
    (nextTimer w) (attached w) (canVibrate w) (getBlockAtPosition w) (effects w).

Definition cancelLongPress (w : World) : World :=
  match longPressTimer (ctl w) with
  | Some timer => with_ctl (set_longPressTimer None) (clearTimeout timer w)
  | None => w
  end.

Definition startLongPressTimer (x y : R) (w : World) : World :=
  let w1 := cancelLongPress w in
  let timer := nextTimer w1 in
  with_ctl (set_longPressTimer (Some timer))
    (mkWorld (ctl w1) (timers w1 ++ [(timer, (x, y))]) (S (nextTimer w1))
       (attached w1) (canVibrate w1) (getBlockAtPosition w1) (effects w1)).

(** The callback given to [window.setTimeout] by [startLongPressTimer]. *)
Definition longPressTimeout (x y : R) (w : World) : World :=
  match currentTouch (ctl w) with
  | None => w
  | Some touch =>
      if moved touch then w
      else
        (* Trigger long press *)
        let w1 := with_ctl (set_quickDeleteMode true) w in
        let w2 := emit_all (map (fun l => longPressCallback l x y)
                              (longPressCallbacks (ctl w1))) w1 in
        (* Haptic feedback if supported *)
        if canVibrate w2 then emit (vibrate 50) w2 else w2
  end.

(** [showTapFeedback]: an element is put on the page (and taken off 400ms
    later by a timer of its own, which touches no gesture state). *)
Definition showTapFeedback (x y : R) (w : World) : World :=
  emit (tapFeedback x y) w.

(** *** Event handlers *)

Definition handleTap (x y : R) (w : World) : World :=
  (* Check if there's a block at this position *)
  let existingBlock := getBlockAtPosition w x y in
  if negb (Z.eqb existingBlock AIR)
  then emit (onRemoveBlock x y) w
  else emit (onPlaceBlock x y (currentBlock (ctl w))) w.

Definition handleTouchStart (event : Dom.TouchEvent) (rect : Dom.Rect) (now : R)
  (w : World) : World :=
  if negb (enabled (ctl w)) then w
  else
    (* Track touch count *)
    let w1 := with_ctl (set_touchCount (length (Dom.touches event))) w in
    (* Only handle single touch for block placement *)
    match Dom.touches event with
    | [touch] =>
        let x := Dom.clientX touch - Dom.left rect in
        let y := Dom.clientY touch - Dom.top rect in
        (* Store touch info *)
        let w2 := with_ctl (set_currentTouch
                              (Some (mkTouchPoint x y x y now false))) w1 in
        (* Show visual feedback *)
        let w3 := showTapFeedback (Dom.clientX touch) (Dom.clientY touch) w2 in
        (* Start long press timer *)
        startLongPressTimer x y w3
    | _ => cancelLongPress w1
    end.

Definition handleTouchMove (event : Dom.TouchEvent) (rect : Dom.Rect)
  (w : World) : World :=
  if negb (enabled (ctl w)) then w
  else
    match currentTouch (ctl w) with
    | None => w
    | Some current =>
        (* Track touch count *)
        let w1 := with_ctl (set_touchCount (length (Dom.touches event))) w in
        match Dom.touches event with
        | [touch] =>
            let x' := Dom.clientX touch - Dom.left rect in
            let y' := Dom.clientY touch - Dom.top rect in
            (* Calculate movement distance *)
            let deltaX := x' - startX current in
            let deltaY := y' - startY current in
            let distance := sqrt (deltaX * deltaX + deltaY * deltaY) in
            (* Mark as moved if beyond threshold *)
            if Rgtb distance (tapMovementThreshold (ctl w1))
            then
              with_ctl (set_currentTouch
                          (Some (mkTouchPoint x' y' (startX current)
                                   (startY current) (timestamp current) true)))
                (cancelLongPress w1)
            else
              (* Update current position *)
              with_ctl (set_currentTouch
                          (Some (mkTouchPoint x' y' (startX current)
                                   (startY current) (timestamp current)
                                   (moved current))))
                w1
        | _ => w1
        end
    end.

Definition handleTouchEnd (event : Dom.TouchEvent) (rect : Dom.Rect) (now : R)
  (w : World) : World :=
  if negb (enabled (ctl w)) then w
  else
    (* Cancel long press *)
    let w1 := cancelLongPress w in
    (* Update touch count *)
    let w2 := with_ctl (set_touchCount (length (Dom.touches event))) w1 in
    let reset :=
      with_ctl (fun c => set_quickDeleteMode false (set_currentTouch None c)) in
    (* Only process single touch *)
    match touchCount (ctl w2), currentTouch (ctl w2), Dom.changedTouches event with
    | O, Some current, touch :: _ =>
        let x' := Dom.clientX touch - Dom.left rect in
        let y' := Dom.clientY touch - Dom.top rect in
        (* Check if this was a tap *)
        let duration := now - timestamp current in
        let isTap := negb (moved current)
                     && Rltb duration (tapDurationThreshold (ctl w2)) in
        (* Reset state *)
        reset (if isTap then handleTap x' y' w2 else w2)
    | O, Some current, [] =>
        (* [event.changedTouches[0]] is undefined: reading it throws *)
        w2
    | _, _, _ => reset w2
    end.

Definition handleTouchCancel (event : Dom.TouchEvent) (rect : Dom.Rect) (now : R)
  (w : World) : World :=
  handleTouchEnd event rect now w.

(** *** Public methods *)

Definition setCurrentBlock (blockType : BlockType) (w : World) : World :=
  with_ctl (set_currentBlock blockType) w.

Definition onLongPress (callback : nat) (w : World) : World :=
  with_ctl (fun c => set_longPressCallbacks (longPressCallbacks c ++ [callback]) c) w.

Definition setTapMovementThreshold (threshold : R) (w : World) : World :=
  with_ctl (set_tapMovementThreshold threshold) w.

Definition setTapDurationThreshold (threshold : R) (w : World) : World :=
  with_ctl (set_tapDurationThreshold threshold) w.

Definition enable (w : World) : World := with_ctl (set_enabled true) w.

Definition disable (w : World) : World :=
  with_ctl (set_quickDeleteMode false)
    (cancelLongPress
       (with_ctl (fun c => set_currentTouch None (set_enabled false c)) w)).

Definition destroy (w : World) : World :=
  let w1 := cancelLongPress w in
  with_ctl (set_currentTouch None)
    (mkWorld (ctl w1) (timers w1) (nextTimer w1) false (canVibrate w1)
       (getBlockAtPosition w1) (effects w1)).

(** *** The controller in its host *)

Definition initial_controller : Controller :=
  mkController true None 0 GRASS false None 10 300 500 [].

Definition initial (canVibrate : bool) (blockAt : R -> R -> BlockType) : World :=
  mkWorld initial_controller [] 1%nat true canVibrate blockAt [].

Inductive Event : Type :=
| TouchStart (event : Dom.TouchEvent) (rect : Dom.Rect) (now : R)
| TouchMove (event : Dom.TouchEvent) (rect : Dom.Rect)
| TouchEnd (event : Dom.TouchEvent) (rect : Dom.Rect) (now : R)
| TouchCancel (event : Dom.TouchEvent) (rect : Dom.Rect) (now : R)
| Timeout (timer : nat)
| SetCurrentBlock (blockType : BlockType)
| OnLongPress (callback : nat)
| SetTapMovementThreshold (threshold : R)
| SetTapDurationThreshold (threshold : R)
| Enable
| Disable
| Destroy.

Definition runTimeout (timer : nat) (w : World) : World :=
  match find (fun t => Nat.eqb (fst t) timer) (timers w) with
  | Some t => longPressTimeout (fst (snd t)) (snd (snd t)) (clearTimeout timer w)
  | None => w
  end.

Definition step (w : World) (e : Event) : World :=
  match e with
  | TouchStart event rect now =>
      if attached w then handleTouchStart event rect now w else w
  | TouchMove event rect => if attached w then handleTouchMove event rect w else w
  | TouchEnd event rect now =>
      if attached w then handleTouchEnd event rect now w else w
  | TouchCancel event rect now =>
      if attached w then handleTouchCancel event rect now w else w
  | Timeout timer => runTimeout timer w
  | SetCurrentBlock b => setCurrentBlock b w
  | OnLongPress callback => onLongPress callback w
  | SetTapMovementThreshold r => setTapMovementThreshold r w
  | SetTapDurationThreshold r => setTapDurationThreshold r w
  | Enable => enable w
  | Disable => disable w
  | Destroy => destroy w
  end.

Fixpoint run (es : list Event) (w : World) : World :=
  match es with
  | [] => w
  | e :: es' => run es' (step w e)
  end.

End TouchBlockController.

(** ** GameConfig and ConfigManager

    The configuration classes, which this copy of the repository carries in
    [TouchBlockController.ts] after the controller, with the constants of
    [constants/] they read. *)

Module GameConfig.

Definition CHUNK_SIZE : R := 16.
Definition CHUNK_HEIGHT : R := 64.
Definition DEFAULT_RENDER_DISTANCE : R := 3.
Definition MIN_RENDER_DISTANCE : R := 1.
Definition MAX_RENDER_DISTANCE : R := 8.
Definition SEA_LEVEL : R := 32.
Definition DEFAULT_FOV : R := 75.
Definition TARGET_FPS : R := 60.
Definition DEFAULT_MASTER_VOLUME : R := 0.8.
Definition DEFAULT_MUSIC_VOLUME : R := 0.6.
Definition DEFAULT_SFX_VOLUME : R := 1.0.
Definition DEFAULT_AMBIENT_VOLUME : R := 0.4.
Definition MOUSE_SENSITIVITY : R := 0.002.
Definition DEBUG_MODE_ENABLED : bool := false.

Record WorldConfig : Type := mkWorldConfig {
  chunkSize : R;
  chunkHeight : R;
  renderDistance : R;
  seaLevel : R
}.

Record GraphicsConfig : Type := mkGraphicsConfig {
  fov : R;
  shadows : bool;
  antialias : bool;
  targetFPS : R
}.

Record AudioConfig : Type := mkAudioConfig {
  masterVolume : R;
  musicVolume : R;
  sfxVolume : R;
  ambientVolume : R
}.

Record ControlsConfig : Type := mkControlsConfig {
  mouseSensitivity : R;
  invertY : bool
}.

Record GameplayConfig : Type := mkGameplayConfig {
  autoSave : bool;
  showFPS : bool;
  debugMode : bool
}.

(** [Partial<T>]: each member is present with a value of its type, or
    absent.  (A member present with the value [undefined], a member of
    another type and members the interfaces do not name are outside this
    model.) *)
Record PartialWorld : Type := mkPartialWorld {
  chunkSize_opt : option R;
  chunkHeight_opt : option R;
  renderDistance_opt : option R;
  seaLevel_opt : option R
}.

Record PartialGraphics : Type := mkPartialGraphics {
  fov_opt : option R;
  shadows_opt : option bool;
  antialias_opt : option bool;
  targetFPS_opt : option R
}.

Record PartialAudio : Type := mkPartialAudio {
  masterVolume_opt : option R;
  musicVolume_opt : option R;
  sfxVolume_opt : option R;
  ambientVolume_opt : option R
}.

Record PartialControls : Type := mkPartialControls {
  mouseSensitivity_opt : option R;
  invertY_opt : option bool
}.

Record PartialGameplay : Type := mkPartialGameplay {
  autoSave_opt : option bool;
  showFPS_opt : option bool;
  debugMode_opt : option bool
}.

Record GameConfigData : Type := mkGameConfigData {
  world_opt : option PartialWorld;
  graphics_opt : option PartialGraphics;
  audio_opt : option PartialAudio;
  controls_opt : option PartialControls;
  gameplay_opt : option PartialGameplay
}.

(** The public fields of the class. *)
Record GameConfig : Type := mkGameConfig {
  world : WorldConfig;
  graphics : GraphicsConfig;
  audio : AudioConfig;
  controls : ControlsConfig;
  gameplay : GameplayConfig
}.

(** *** Object spread *)

(** One member of [{ ...base, ...overrides }]. *)
Definition member {A : Type} (base : A) (override : option A) : A :=
  match override with
  | Some v => v
  | None => base
  end.

Definition spreadWorld (base : WorldConfig) (overrides : option PartialWorld)
  : WorldConfig :=
  match overrides with
  | None => base
  | Some p =>
      mkWorldConfig (member (chunkSize base) (chunkSize_opt p))
        (member (chunkHeight base) (chunkHeight_opt p))
        (member (renderDistance base) (renderDistance_opt p))
        (member (seaLevel base) (seaLevel_opt p))
  end.

Definition spreadGraphics (base : GraphicsConfig) (overrides : option PartialGraphics)
  : GraphicsConfig :=
  match overrides with
  | None => base
  | Some p =>
      mkGraphicsConfig (member (fov base) (fov_opt p))
        (member (shadows base) (shadows_opt p))
        (member (antialias base) (antialias_opt p))
        (member (targetFPS base) (targetFPS_opt p))
  end.

Definition spreadAudio (base : AudioConfig) (overrides : option PartialAudio)
  : AudioConfig :=
  match overrides with
  | None => base
  | Some p =>
      mkAudioConfig (member (masterVolume base) (masterVolume_opt p))
        (member (musicVolume base) (musicVolume_opt p))
        (member (sfxVolume base) (sfxVolume_opt p))
        (member (ambientVolume base) (ambientVolume_opt p))
  end.

Definition spreadControls (base : ControlsConfig) (overrides : option PartialControls)
  : ControlsConfig :=
  match overrides with
  | None => base
  | Some p =>
      mkControlsConfig (member (mouseSensitivity base) (mouseSensitivity_opt p))
        (member (invertY base) (invertY_opt p))
  end.

Definition spreadGameplay (base : GameplayConfig) (overrides : option PartialGameplay)
  : GameplayConfig :=
  match overrides with
  | None => base
  | Some p =>
      mkGameplayConfig (member (autoSave base) (autoSave_opt p))
        (member (showFPS base) (showFPS_opt p))
        (member (debugMode base) (debugMode_opt p))
  end.

(** *** class GameConfig *)

(** [Math.max(lo, Math.min(hi, v))]. *)
Definition clamp (lo hi v : R) : R := Rmax lo (Rmin hi v).

(** Validate and clamp configuration values. *)
Definition validate (c : GameConfig) : GameConfig :=
  mkGameConfig
    (* Clamp render distance *)
    (mkWorldConfig (chunkSize (world c)) (chunkHeight (world c))
       (clamp MIN_RENDER_DISTANCE MAX_RENDER_DISTANCE (renderDistance (world c)))
       (seaLevel (world c)))
    (* Clamp FOV *)
    (mkGraphicsConfig (clamp 45 120 (fov (graphics c))) (shadows (graphics c))
       (antialias (graphics c)) (targetFPS (graphics c)))
    (* Clamp audio volumes *)
    (mkAudioConfig (clamp 0 1 (masterVolume (audio c)))
       (clamp 0 1 (musicVolume (audio c)))
       (clamp 0 1 (sfxVolume (audio c)))
       (clamp 0 1 (ambientVolume (audio c))))
    (* Clamp mouse sensitivity *)
    (mkControlsConfig (clamp 0.0001 0.01 (mouseSensitivity (controls c)))
       (invertY (controls c)))
    (gameplay c).

(** [new GameConfig(config)]. *)
Definition new_GameConfig (config : GameConfigData) : GameConfig :=
  validate
    (mkGameConfig
       (spreadWorld
          (mkWorldConfig CHUNK_SIZE CHUNK_HEIGHT DEFAULT_RENDER_DISTANCE SEA_LEVEL)
          (world_opt config))
       (spreadGraphics (mkGraphicsConfig DEFAULT_FOV true true TARGET_FPS)
          (graphics_opt config))
       (spreadAudio
          (mkAudioConfig DEFAULT_MASTER_VOLUME DEFAULT_MUSIC_VOLUME DEFAULT_SFX_VOLUME
             DEFAULT_AMBIENT_VOLUME)
          (audio_opt config))
       (spreadControls (mkControlsConfig MOUSE_SENSITIVITY false) (controls_opt config))
       (spreadGameplay (mkGameplayConfig true true DEBUG_MODE_ENABLED)
          (gameplay_opt config))).

(** The default argument [{}] of the constructor. *)
Definition emptyData : GameConfigData := mkGameConfigData None None None None None.

(** A JSON text, by what [JSON.parse] makes of it: an object with members of
    the configuration, or nothing the constructor can use (a text that does
    not parse, [null]). *)
Inductive Json : Type :=
| Document (data : GameConfigData)
| Unusable.

(** The object [toJSON] serializes: every member is present. *)
Definition toData (c : GameConfig) : GameConfigData :=
  mkGameConfigData
    (Some (mkPartialWorld (Some (chunkSize (world c))) (Some (chunkHeight (world c)))
             (Some (renderDistance (world c))) (Some (seaLevel (world c)))))
    (Some (mkPartialGraphics (Some (fov (graphics c))) (Some (shadows (graphics c)))
             (Some (antialias (graphics c))) (Some (targetFPS (graphics c)))))
    (Some (mkPartialAudio (Some (masterVolume (audio c))) (Some (musicVolume (audio c)))
             (Some (sfxVolume (audio c))) (Some (ambientVolume (audio c)))))
    (Some (mkPartialControls (Some (mouseSensitivity (controls c)))
             (Some (invertY (controls c)))))
    (Some (mkPartialGameplay (Some (autoSave (gameplay c))) (Some (showFPS (gameplay c)))
             (Some (debugMode (gameplay c))))).

Definition toJSON (c : GameConfig) : Json := Document (toData c).

(** [GameConfig.fromJSON]: a text that cannot be used gives the defaults. *)
Definition fromJSON (json : Json) : GameConfig :=
  match json with
  | Document data => new_GameConfig data
  | Unusable => new_GameConfig emptyData
  end.

(** *** class ConfigManager *)

(** How a call ends: it returns, or an exception leaves it. *)
Inductive Completion : Type := Normal | Thrown.

(** A change listener: who it is, and whether its call returns or throws. *)
Record ChangeListener : Type := mkChangeListener {
  listener_id : nat;
  listener_run : GameConfig -> Completion
}.

(** [localStorage] at the key ['cubeworld_config']: the stored text, whether
    every access throws (storage denied) and whether writing throws (quota
    exceeded). *)
Record Storage : Type := mkStorage {
  item : option Json;
  denied : bool;
  exhausted : bool
}.

(** [None]: the call throws. *)
Definition getItem (s : Storage) : option (option Json) :=
  if denied s then None else Some (item s).

Definition setItem (value : Json) (s : Storage) : option Storage :=
  if denied s || exhausted s then None
  else Some (mkStorage (Some value) (denied s) (exhausted s)).

Definition removeItem (s : Storage) : option Storage :=
  if denied s then None else Some (mkStorage None (denied s) (exhausted s)).

Record ConfigManager : Type := mkConfigManager {
  config : GameConfig;
  changeListeners : list ChangeListener
}.

(** The manager, the storage of the browser, and the calls of listeners so
    far (oldest first).  Console output is not modelled. *)
Record World : Type := mkWorld {
  mgr : ConfigManager;
  localStorage : Storage;
  notified : list (nat * GameConfig)
}.

(** Load configuration from localStorage.  ([if (stored)] also skips the
    empty string, which is unusable as a JSON text and gives the same
    defaults.) *)
Definition loadFromStorage (s : Storage) : GameConfig :=
  match getItem s with
  | Some (Some stored) => fromJSON stored
  | Some None => new_GameConfig emptyData
  | None => new_GameConfig emptyData
  end.

(** [new ConfigManager()]. *)
Definition new_ConfigManager (s : Storage) : World :=
  mkWorld (mkConfigManager (loadFromStorage s) []) s [].

Definition getConfig (w : World) : GameConfig := config (mgr w).

(** Save configuration to localStorage; an exception is caught. *)
Definition save (w : World) : World :=
  match setItem (toJSON (config (mgr w))) (localStorage w) with
  | Some s => mkWorld (mgr w) s (notified w)
  | None => w
  end.

(** Clear configuration from localStorage; an exception is caught. *)
Definition clearStorage (w : World) : World :=
  match removeItem (localStorage w) with
  | Some s => mkWorld (mgr w) s (notified w)
  | None => w
  end.

(** Notify all change listeners: each call is in a [try], so that an
    exception ends that call only. *)
Definition notifyListeners (w : World) : World :=
  fold_left
    (fun w listener =>
       let called :=
         mkWorld (mgr w) (localStorage w)
           (notified w ++ [(listener_id listener, config (mgr w))]) in
       match listener_run listener (config (mgr w)) with
       | Normal => called
       | Thrown => called (* caught *)
       end)
    (changeListeners (mgr w)) w.

(** [{ ...a, ...b }] on objects whose members may be absent, themselves
    present or [undefined]. *)
Definition later {A : Type} (a b : option A) : option A :=
  match b with
  | Some v => Some v
  | None => a
  end.

Definition mergeWorld (a b : option PartialWorld) : PartialWorld :=
  match a, b with
  | Some a, Some b =>
      mkPartialWorld (later (chunkSize_opt a) (chunkSize_opt b))
        (later (chunkHeight_opt a) (chunkHeight_opt b))
        (later (renderDistance_opt a) (renderDistance_opt b))
        (later (seaLevel_opt a) (seaLevel_opt b))
  | Some a, None => a
  | None, Some b => b
  | None, None => mkPartialWorld None None None None
  end.

Definition mergeGraphics (a b : option PartialGraphics) : PartialGraphics :=
  match a, b with
  | Some a, Some b =>
      mkPartialGraphics (later (fov_opt a) (fov_opt b))
        (later (shadows_opt a) (shadows_opt b))
        (later (antialias_opt a) (antialias_opt b))
        (later (targetFPS_opt a) (targetFPS_opt b))
  | Some a, None => a
  | None, Some b => b
  | None, None => mkPartialGraphics None None None None
  end.

Definition mergeAudio (a b : option PartialAudio) : PartialAudio :=
  match a, b with
  | Some a, Some b =>
      mkPartialAudio (later (masterVolume_opt a) (masterVolume_opt b))
        (later (musicVolume_opt a) (musicVolume_opt b))
        (later (sfxVolume_opt a) (sfxVolume_opt b))
        (later (ambientVolume_opt a) (ambientVolume_opt b))
  | Some a, None => a
  | None, Some b => b
  | None, None => mkPartialAudio None None None None
  end.

Definition mergeControls (a b : option PartialControls) : PartialControls :=
  match a, b with
  | Some a, Some b =>
      mkPartialControls (later (mouseSensitivity_opt a) (mouseSensitivity_opt b))
        (later (invertY_opt a) (invertY_opt b))
  | Some a, None => a
  | None, Some b => b
  | None, None => mkPartialControls None None
  end.

Definition mergeGameplay (a b : option PartialGameplay) : PartialGameplay :=
  match a, b with
  | Some a, Some b =>
      mkPartialGameplay (later (autoSave_opt a) (autoSave_opt b))
        (later (showFPS_opt a) (showFPS_opt b))
        (later (debugMode_opt a) (debugMode_opt b))
  | Some a, None => a
  | None, Some b => b
  | None, None => mkPartialGameplay None None None
  end.

(** The object [newData] of [updateConfig]. *)
Definition mergeData (currentData updates : GameConfigData) : GameConfigData :=
  mkGameConfigData
    (Some (mergeWorld (world_opt currentData) (world_opt updates)))
    (Some (mergeGraphics (graphics_opt currentData) (graphics_opt updates)))
    (Some (mergeAudio (audio_opt currentData) (audio_opt updates)))
    (Some (mergeControls (controls_opt currentData) (controls_opt updates)))
    (Some (mergeGameplay (gameplay_opt currentData) (gameplay_opt updates))).

(** Update configuration.  [JSON.parse(this.config.toJSON())] is the object
    [toJSON] serialized. *)
Definition updateConfig (updates : GameConfigData) (w : World) : World :=
  match toJSON (config (mgr w)) with
  | Document currentData =>
      let newData := mergeData currentData updates in
      let w1 := mkWorld (mkConfigManager (new_GameConfig newData)
                           (changeListeners (mgr w)))
                  (localStorage w) (notified w) in
      notifyListeners (save w1)
  | Unusable => w
  end.

(** Reset to default configuration. *)
Definition reset (w : World) : World :=
  let w1 := mkWorld (mkConfigManager (new_GameConfig emptyData)
                       (changeListeners (mgr w)))
              (localStorage w) (notified w) in
  notifyListeners (clearStorage w1).

Definition addChangeListener (listener : ChangeListener) (w : World) : World :=
  mkWorld (mkConfigManager (config (mgr w)) (changeListeners (mgr w) ++ [listener]))
    (localStorage w) (notified w).

(** [indexOf(listener)] and [splice(index, 1)] when the index is not -1. *)
Fixpoint removeFirst (listener : ChangeListener) (l : list ChangeListener)
  : list ChangeListener :=
  match l with
  | [] => []
  | c :: l' =>
      if Nat.eqb (listener_id c) (listener_id listener) then l'
      else c :: removeFirst listener l'
  end.

Definition removeChangeListener (listener : ChangeListener) (w : World) : World :=
  mkWorld (mkConfigManager (config (mgr w))
             (removeFirst listener (changeListeners (mgr w))))
    (localStorage w) (notified w).

End GameConfig.

(** * Properties of CameraTouchController *)

Section CameraTouchControllerProperties.

Import CameraTouchController.

(** ** Vocabulary of the properties *)

(** The world of a move sample once the contacts are tracked and the gesture
    is classified, before the gesture is processed. *)
Definition classified (event : Dom.TouchEvent) (now : R) (w : World) : World :=
  with_ctl updateGestureType
    (with_ctl (set_touches (trackTouches now (Dom.touches event) JsMap.empty)) w).

(** A touch event with the two contacts 0 and 1 on the surface. *)
Definition twoFingers (x0 y0 x1 y1 : R) : Dom.TouchEvent :=
  Dom.mkTouchEvent [Dom.mkTouch 0 x0 y0; Dom.mkTouch 1 x1 y1] [].

(** The distance between the two tracked contacts of a world. *)
Definition sampleDistance (w : World) : R :=
  match JsMap.values (touches (ctl w)) with
  | [touch0; touch1] => calculateDistance touch0 touch1
  | _ => 0
  end.

(** The test of [updateGestureType] on two contacts. *)
Definition pinchTest (previousDistance0 distance : R) : bool :=
  Reqb previousDistance0 0 || Rgtb (Rabs (distance - previousDistance0)) 5.

(** The closure [animate], as a machine on its captured variables: whether
    the step stops the session, the variables after a step that goes on, and
    the command the step issues. *)
Definition stops (env : MomentumEnv) : bool :=
  Rltb (Rabs (velocityX env * MOMENTUM_FRICTION)) MOMENTUM_MIN_VELOCITY
  && Rltb (Rabs (velocityY env * MOMENTUM_FRICTION)) MOMENTUM_MIN_VELOCITY.

Definition next (env : MomentumEnv) : MomentumEnv :=
  mkMomentumEnv (velocityX env * MOMENTUM_FRICTION) (velocityY env * MOMENTUM_FRICTION)
    (velocityX env * MOMENTUM_FRICTION) (velocityY env * MOMENTUM_FRICTION).

Definition emitted (sensitivity : R) (env : MomentumEnv) : list CameraCall :=
  let deltaX := velocityX env * MOMENTUM_FRICTION - lastX env in
  let deltaY := velocityY env * MOMENTUM_FRICTION - lastY env in
  if Rgtb (Rabs deltaX) 0.01 || Rgtb (Rabs deltaY) 0.01
  then [rotateCamera (deltaX * sensitivity) (deltaY * sensitivity)]
  else [].

(** The variables after [n] steps, if the session is still going on. *)
Fixpoint sessionEnv (n : nat) (env : MomentumEnv) : option MomentumEnv :=
  match n with
  | O => Some env
  | S n' => if stops env then None else sessionEnv n' (next env)
  end.

(** The commands of the first [n] steps. *)
Fixpoint sessionTrace (n : nat) (sensitivity : R) (env : MomentumEnv)
  : list CameraCall :=
  match n with
  | O => []
  | S n' =>
      if stops env then []
      else emitted sensitivity env ++ sessionTrace n' sensitivity (next env)
  end.

(** A session is pending: the controller holds the handle of the one frame
    the browser holds. *)
Definition pending (w : World) (handle : nat) (env : MomentumEnv) : Prop :=
  momentumAnimationId (ctl w) = Some handle /\ frames w = [(handle, env)].

(** No session: no handle and no frame. *)
Definition idle (w : World) : Prop :=
  momentumAnimationId (ctl w) = None /\ frames w = [].


(** Both axes are below the minimum velocity after [k] steps of friction. *)
Definition slow (velocityX0 velocityY0 : R) (k : nat) : Prop :=
  Rabs (velocityX0 * MOMENTUM_FRICTION ^ k) < MOMENTUM_MIN_VELOCITY /\
  Rabs (velocityY0 * MOMENTUM_FRICTION ^ k) < MOMENTUM_MIN_VELOCITY.


(** What a world's session consists of. *)
Definition momentumState (w : World) : option nat * list (nat * MomentumEnv) :=
  (momentumAnimationId (ctl w), frames w).

(** The closure variables of a session started with the velocity 0. *)
Definition zeroEnv : MomentumEnv := mkMomentumEnv 0 0 0 0.

(** In a controller in use, a session that is pending holds the velocity 0:
    [startMomentum] reads [this.velocity] after [stopMomentum] has reset it. *)
Definition session_inv (w : World) : Prop :=
  idle w \/ exists h, pending w h zeroEnv.

(** A touch event with the contact 0 on the surface, and one with the
    contact 0 leaving it. *)
Definition oneFinger (x0 y0 : R) : Dom.TouchEvent :=
  Dom.mkTouchEvent [Dom.mkTouch 0 x0 y0] [].

Definition lift (x0 y0 : R) : Dom.TouchEvent :=
  Dom.mkTouchEvent [] [Dom.mkTouch 0 x0 y0].

(** The touch point the tracking loops store for a contact of an event. *)
Definition pointOf (now : R) (touch : Dom.Touch) : TouchPoint :=
  mkTouchPoint (Dom.identifier touch) (Dom.clientX touch) (Dom.clientY touch) now.

(** The contacts of an event as a [Map], in the event's order. *)
Definition contactsOf (now : R) (ts : list Dom.Touch) : JsMap.t TouchPoint :=
  map (fun touch => (Dom.identifier touch, pointOf now touch)) ts.

(** The gesture type agrees with the number of tracked contacts. *)
Definition gesture_inv (w : World) : Prop :=
  (JsMap.size (touches (ctl w)) = 1%nat -> gestureType (ctl w) = rotate) /\
  (JsMap.size (touches (ctl w)) = 2%nat ->
   gestureType (ctl w) = pinch \/ gestureType (ctl w) = pan) /\
  (attached w = true -> JsMap.size (touches (ctl w)) = 0%nat ->
   gestureType (ctl w) = none).

Definition silent (w : World) : Prop :=
  attached w = false /\ frames w = [].

(** A move event for one contact, as the browser delivers it. *)
Definition moveOf (sample : Dom.Touch * R) : Event :=
  TouchMove (Dom.mkTouchEvent [fst sample] [fst sample]) (snd sample).

(** The sums of the arguments of the [rotateCamera] calls of a list. *)
Definition rotationTotal (cs : list CameraCall) : R * R :=
  fold_right
    (fun c total =>
       match c with
       | rotateCamera deltaX deltaY => (deltaX + fst total, deltaY + snd total)
       | _ => total
       end)
    (0, 0) cs.

Definition isRotate (c : CameraCall) : Prop :=
  match c with rotateCamera _ _ => True | _ => False end.

(** Where a drag ends: at its last sample, or where it started. *)
Definition endOf (start : TouchPoint) (samples : list (Dom.Touch * R)) : R * R :=
  last (map (fun s => (Dom.clientX (fst s), Dom.clientY (fst s))) samples)
    (x start, y start).

(** A move event for two contacts. *)
Definition pairMove (sample : Dom.Touch * Dom.Touch * R) : Event :=
  TouchMove (Dom.mkTouchEvent [fst (fst sample); snd (fst sample)] []) (snd sample).

(** The distance and the midpoint of two contacts of an event. *)
Definition spread (a b : Dom.Touch) : R :=
  calculateDistance (pointOf 0 a) (pointOf 0 b).

Definition middle (a b : Dom.Touch) : Point :=
  calculateMidpoint (pointOf 0 a) (pointOf 0 b).

(** Two different contacts at different places. *)
Definition apart (sample : Dom.Touch * Dom.Touch * R) : Prop :=
  Dom.identifier (fst (fst sample)) <> Dom.identifier (snd (fst sample)) /\
  0 < spread (fst (fst sample)) (snd (fst sample)).

(** Two different contacts whose midpoint is on neither axis. *)
Definition offAxes (sample : Dom.Touch * Dom.Touch * R) : Prop :=
  Dom.identifier (fst (fst sample)) <> Dom.identifier (snd (fst sample)) /\
  p_x (middle (fst (fst sample)) (snd (fst sample))) <> 0 /\
  p_y (middle (fst (fst sample)) (snd (fst sample))) <> 0.

(** The sum of the arguments of the [zoomCamera] calls of a list, and the
    sums of those of its [panCamera] calls. *)
Definition zoomTotal (cs : list CameraCall) : R :=
  fold_right
    (fun c total => match c with zoomCamera delta => delta + total | _ => total end)
    0 cs.

Definition panTotal (cs : list CameraCall) : R * R :=
  fold_right
    (fun c total =>
       match c with
       | panCamera deltaX deltaY => (deltaX + fst total, deltaY + snd total)
       | _ => total
       end)
    (0, 0) cs.

(** The spread of the last sample, or [distance0] when there is none. *)
Definition lastSpread (distance0 : R) (samples : list (Dom.Touch * Dom.Touch * R)) : R :=
  last (map (fun s => spread (fst (fst s)) (snd (fst s))) samples) distance0.

(** ** Classification and gesture handlers keep to their own fields *)

Lemma updateGestureType_frame (c : Controller) :
  touches (updateGestureType c) = touches c /\
  previousDistance (updateGestureType c) = previousDistance c /\
  previousMidpoint (updateGestureType c) = previousMidpoint c /\
  zoomSensitivity (updateGestureType c) = zoomSensitivity c /\
  panSensitivity (updateGestureType c) = panSensitivity c /\
  rotationSensitivity (updateGestureType c) = rotationSensitivity c.
Proof.
  unfold updateGestureType.
  destruct (JsMap.size (touches c)) as [|[|[|n]]]; try (repeat split; reflexivity).
  destruct (JsMap.values (touches c)) as [|t0 [|t1 l]]; try (repeat split; reflexivity).
  destruct (Reqb (previousDistance c) 0); [repeat split; reflexivity|].
  destruct (Rgtb _ 5); repeat split; reflexivity.
Qed.

Lemma size_values {V : Type} (m : JsMap.t V) :
  JsMap.size m = length (JsMap.values m).
Proof. unfold JsMap.size, JsMap.values. symmetry. apply length_map. Qed.

(** A [Map] of size two has two values. *)
Lemma values_of_size_two {V : Type} (m : JsMap.t V) :
  JsMap.size m = 2%nat -> exists v0 v1, JsMap.values m = [v0; v1].
Proof.
  destruct m as [|[k0 v0] [|[k1 v1] [|p m]]]; simpl; try discriminate.
  intros _. exists v0, v1. reflexivity.
Qed.

(** The classification writes [gestureType] only, [calculateVelocity] writes
    [velocity] only, and [initGestureState] the two anchors only. *)
Lemma updateGestureType_only (c : Controller) :
  updateGestureType c = set_gestureType (gestureType (updateGestureType c)) c.
Proof.
  unfold updateGestureType.
  destruct (JsMap.size (touches c)) as [|[|[|n]]]; try reflexivity;
    try (destruct c; reflexivity).
  destruct (JsMap.values (touches c)) as [|t0 [|t1 l]];
    try (destruct c; reflexivity).
  destruct (Reqb (previousDistance c) 0); [reflexivity|].
  destruct (Rgtb _ 5); reflexivity.
Qed.

Lemma calculateVelocity_only (now : R) (c : Controller) :
  calculateVelocity now c = set_velocity (velocity (calculateVelocity now c)) c.
Proof.
  unfold calculateVelocity.
  destruct (JsMap.values (touches c)) as [|t l]; [destruct c; reflexivity|].
  destruct (Rltb 0 (now - v_timestamp (velocity c))
            && Rltb (now - v_timestamp (velocity c)) 100); reflexivity.
Qed.

Lemma initGestureState_only (c : Controller) :
  initGestureState c
  = set_previousMidpoint (previousMidpoint (initGestureState c))
      (set_previousDistance (previousDistance (initGestureState c)) c).
Proof.
  unfold initGestureState.
  destruct (GestureType_eqb (gestureType c) pinch
            || GestureType_eqb (gestureType c) pan); [|destruct c; reflexivity].
  destruct (JsMap.values (touches c)) as [|t0 [|t1 l]];
    destruct c; reflexivity.
Qed.

Lemma handleRotateGesture_frame (previousTouches : JsMap.t TouchPoint) (w : World) :
  touches (ctl (handleRotateGesture previousTouches w)) = touches (ctl w) /\
  gestureType (ctl (handleRotateGesture previousTouches w)) = gestureType (ctl w).
Proof.
  unfold handleRotateGesture.
  destruct (JsMap.values (touches (ctl w))) as [|t l]; [split; reflexivity|].
  destruct (JsMap.get (id t) previousTouches); split; reflexivity.
Qed.

Lemma handlePinchGesture_frame (w : World) :
  touches (ctl (handlePinchGesture w)) = touches (ctl w) /\
  gestureType (ctl (handlePinchGesture w)) = gestureType (ctl w).
Proof.
  unfold handlePinchGesture.
  destruct (JsMap.values (touches (ctl w))) as [|t0 [|t1 l]]; try (split; reflexivity).
  destruct (Rgtb (previousDistance (ctl w)) 0); split; reflexivity.
Qed.

Lemma handlePanGesture_frame (w : World) :
  touches (ctl (handlePanGesture w)) = touches (ctl w) /\
  gestureType (ctl (handlePanGesture w)) = gestureType (ctl w).
Proof.
  unfold handlePanGesture.
  destruct (JsMap.values (touches (ctl w))) as [|t0 [|t1 l]]; try (split; reflexivity).
  destruct (Rneqb (p_x (previousMidpoint (ctl w))) 0
            && Rneqb (p_y (previousMidpoint (ctl w))) 0); split; reflexivity.
Qed.

(** Processing the gesture of a move sample changes neither the tracked
    contacts nor the classification. *)
Lemma handleTouchMove_frame (event : Dom.TouchEvent) (now : R) (w : World) :
  enabled (ctl w) = true ->
  touches (ctl (handleTouchMove event now w)) = touches (ctl (classified event now w)) /\
  gestureType (ctl (handleTouchMove event now w))
  = gestureType (ctl (classified event now w)).
Proof.
  intros Hen. unfold handleTouchMove. rewrite Hen. cbn [negb].
  fold (classified event now w).
  destruct (GestureType_eqb (gestureType (ctl (classified event now w))) rotate
            && Nat.eqb (JsMap.size (touches (ctl (classified event now w)))) 1).
  { apply handleRotateGesture_frame. }
  destruct (GestureType_eqb (gestureType (ctl (classified event now w))) pinch
            && Nat.eqb (JsMap.size (touches (ctl (classified event now w)))) 2).
  { apply handlePinchGesture_frame. }
  destruct (GestureType_eqb (gestureType (ctl (classified event now w))) pan
            && Nat.eqb (JsMap.size (touches (ctl (classified event now w)))) 2).
  { apply handlePanGesture_frame. }
  split; reflexivity.
Qed.

(** A move sample with two contacts classified Pinch is processed by
    [handlePinchGesture], one classified Pan by [handlePanGesture]. *)
Lemma handleTouchMove_pinch (event : Dom.TouchEvent) (now : R) (w : World) :
  enabled (ctl w) = true ->
  JsMap.size (touches (ctl (handleTouchMove event now w))) = 2%nat ->
  gestureType (ctl (handleTouchMove event now w)) = pinch ->
  handleTouchMove event now w = handlePinchGesture (classified event now w).
Proof.
  intros Hen Hsize Hg.
  destruct (handleTouchMove_frame event now w Hen) as [Ht Hgt].
  rewrite Ht in Hsize. rewrite Hgt in Hg.
  unfold handleTouchMove. rewrite Hen. cbn [negb].
  fold (classified event now w). rewrite Hg, Hsize. reflexivity.
Qed.

Lemma handleTouchMove_pan (event : Dom.TouchEvent) (now : R) (w : World) :
  enabled (ctl w) = true ->
  JsMap.size (touches (ctl (handleTouchMove event now w))) = 2%nat ->
  gestureType (ctl (handleTouchMove event now w)) = pan ->
  handleTouchMove event now w = handlePanGesture (classified event now w).
Proof.
  intros Hen Hsize Hg.
  destruct (handleTouchMove_frame event now w Hen) as [Ht Hgt].
  rewrite Ht in Hsize. rewrite Hgt in Hg.
  unfold handleTouchMove. rewrite Hen. cbn [negb].
  fold (classified event now w). rewrite Hg, Hsize. reflexivity.
Qed.

Lemma classified_frame (event : Dom.TouchEvent) (now : R) (w : World) :
  calls (classified event now w) = calls w /\
  previousDistance (ctl (classified event now w)) = previousDistance (ctl w) /\
  previousMidpoint (ctl (classified event now w)) = previousMidpoint (ctl w) /\
  zoomSensitivity (ctl (classified event now w)) = zoomSensitivity (ctl w) /\
  panSensitivity (ctl (classified event now w)) = panSensitivity (ctl w).
Proof.
  unfold classified.
  set (c := set_touches (trackTouches now (Dom.touches event) JsMap.empty) (ctl w)).
  destruct (updateGestureType_frame c) as (_ & Hd & Hm & Hz & Hp & _).
  cbn [calls ctl with_ctl]. fold c.
  rewrite Hd, Hm, Hz, Hp. repeat split; reflexivity.
Qed.

(** ** Pan samples *)

(** C10: on a move sample with two contacts classified Pan, the stored
    midpoint always becomes the current midpoint; [panCamera] is not called
    when the previous midpoint has x = 0 or y = 0, and is called with the
    midpoint delta scaled by the pan sensitivity when both are nonzero. *)
Theorem pan_sample_needs_nonzero_midpoint :
  forall (w : World) (event : Dom.TouchEvent) (now : R),
    enabled (ctl w) = true ->
    JsMap.size (touches (ctl (handleTouchMove event now w))) = 2%nat ->
    gestureType (ctl (handleTouchMove event now w)) = pan ->
    exists touch0 touch1,
      JsMap.values (touches (ctl (handleTouchMove event now w))) = [touch0; touch1] /\
      previousMidpoint (ctl (handleTouchMove event now w))
      = calculateMidpoint touch0 touch1 /\
      (p_x (previousMidpoint (ctl w)) = 0 \/ p_y (previousMidpoint (ctl w)) = 0 ->
       calls (handleTouchMove event now w) = calls w) /\
      (p_x (previousMidpoint (ctl w)) <> 0 /\ p_y (previousMidpoint (ctl w)) <> 0 ->
       calls (handleTouchMove event now w)
       = calls w ++
         [panCamera
            ((p_x (calculateMidpoint touch0 touch1) - p_x (previousMidpoint (ctl w)))
             * panSensitivity (ctl w))
            ((p_y (calculateMidpoint touch0 touch1) - p_y (previousMidpoint (ctl w)))
             * panSensitivity (ctl w))]).
Proof.
  intros w event now Hen Hsize Hg.
  rewrite (handleTouchMove_pan event now w Hen Hsize Hg).
  destruct (handleTouchMove_frame event now w Hen) as [Ht _].
  rewrite Ht in Hsize.
  destruct (values_of_size_two _ Hsize) as (touch0 & touch1 & Hv).
  destruct (classified_frame event now w) as (Hc & _ & Hm & _ & Hp).
  destruct (handlePanGesture_frame (classified event now w)) as [Htp _].
  exists touch0, touch1. rewrite Htp. split; [exact Hv|].
  unfold handlePanGesture. rewrite Hv, Hm, Hp.
  split; [|split].
  - destruct (Rneqb (p_x (previousMidpoint (ctl w))) 0
              && Rneqb (p_y (previousMidpoint (ctl w))) 0); reflexivity.
  - intros Hz.
    assert (Hb : Rneqb (p_x (previousMidpoint (ctl w))) 0
                 && Rneqb (p_y (previousMidpoint (ctl w))) 0 = false).
    { apply andb_false_iff. unfold Rneqb.
      destruct Hz as [Hz | Hz]; [left | right];
        rewrite (Reqb_true _ _ Hz); reflexivity. }
    rewrite Hb. cbn [calls with_ctl]. exact Hc.
  - intros [Hx Hy].
    assert (Hb : Rneqb (p_x (previousMidpoint (ctl w))) 0
                 && Rneqb (p_y (previousMidpoint (ctl w))) 0 = true).
    { apply andb_true_iff. split; apply Rneqb_iff; assumption. }
    rewrite Hb. cbn [calls with_ctl issue]. rewrite Hc. reflexivity.
Qed.

(** ** Evaluation on concrete inputs *)

Lemma run_cons (e : Event) (es : list Event) (w : World) :
  run (e :: es) w = run es (step w e).
Proof. reflexivity. Qed.

Lemma run_nil (w : World) : run [] w = w.
Proof. reflexivity. Qed.

Lemma run_app (es1 es2 : list Event) (w : World) :
  run (es1 ++ es2) w = run es2 (run es1 w).
Proof.
  revert w. induction es1 as [|e es1 IH]; intros w; [reflexivity|].
  cbn [app run]. apply IH.
Qed.

(** Unfolds the controller on a concrete input, except for the five
    functions that test real numbers; [run] is left folded, so that a
    sequence of events is evaluated one event at a time. *)
Ltac camera_unfold :=
  cbv beta iota zeta delta
    [step fold_left initial initial_controller
     handleTouchStart handleTouchMove handleTouchEnd handleTouchCancel
     runAnimationFrame scheduleMomentum startMomentum
     stopMomentum initGestureState handleRotateGesture
     trackTouches untrackTouches calculateDistance calculateMidpoint
     setRotationSensitivity setZoomSensitivity setPanSensitivity
     setMomentumEnabled enable disable destroy classified
     requestAnimationFrame cancelAnimationFrame frame_lookup
     with_ctl set_attached issue
     set_enabled set_touches set_gestureType set_previousDistance
     set_previousMidpoint set_rotationSensitivity set_zoomSensitivity
     set_panSensitivity set_momentumEnabled set_velocity
     set_momentumAnimationId
     enabled touches gestureType previousDistance previousMidpoint
     rotationSensitivity zoomSensitivity panSensitivity momentumEnabled
     velocity momentumAnimationId ctl frames nextFrame attached calls
     id x y timestamp v_x v_y v_timestamp p_x p_y
     lastX lastY velocityX velocityY
     MOMENTUM_FRICTION MOMENTUM_MIN_VELOCITY
     GestureType_eqb Rgtb Rneqb
     JsMap.set JsMap.get JsMap.delete JsMap.size JsMap.values JsMap.empty
     JsMap.has
     Dom.identifier Dom.clientX Dom.clientY Dom.touches Dom.changedTouches
     app map filter find length fst snd negb andb orb
     Nat.eqb Z.eqb Pos.eqb].

Ltac camera_unfold_tests :=
  cbv beta iota zeta delta
    [updateGestureType handlePinchGesture handlePanGesture calculateVelocity
     animate];
  camera_unfold.

(** [Math.sqrt] of a number whose root [c] is known. *)
Ltac sqrt_is c :=
  idtac;
  match goal with
  | |- context [sqrt ?a] => rewrite (sqrt_eval a c) by lra
  end.

(** Evaluates the call [t] of a function that tests real numbers, on
    arguments already evaluated; [roots] rewrites the square roots that
    occur. *)
Ltac camera_call_at t roots :=
  let H := fresh "Hcall" in
  eassert (H : t = _);
  [ camera_unfold_tests;
    repeat (first [roots | Rabs_case | Rtest]; camera_unfold);
    reflexivity
  | rewrite H; clear H; camera_unfold ].

Ltac camera_call roots :=
  match goal with
  | |- context [updateGestureType ?c] =>
      camera_call_at (updateGestureType c) roots
  | |- context [calculateVelocity ?n ?c] =>
      camera_call_at (calculateVelocity n c) roots
  | |- context [handlePinchGesture ?w] =>
      camera_call_at (handlePinchGesture w) roots
  | |- context [handlePanGesture ?w] =>
      camera_call_at (handlePanGesture w) roots
  | |- context [animate ?e ?w] =>
      camera_call_at (animate e w) roots
  end.

(** The next event of a [run]. *)
Ltac camera_event_with roots :=
  rewrite run_cons; camera_unfold;
  repeat (camera_call roots);
  repeat roots.

Ltac camera_event := camera_event_with fail.

(** Evaluates [t], a [run] of concrete events from an evaluated world. *)
Ltac camera_run_at t roots :=
  let H := fresh "Hrun" in
  eassert (H : t = _);
  [ repeat (camera_event_with roots); rewrite run_nil; reflexivity
  | rewrite H; clear H ].

Ltac camera_run roots :=
  match goal with
  | |- context [run ?es initial] => camera_run_at (run es initial) roots
  end.

(** ** Rotate samples *)

(** A move sample with one contact whose identifier was tracked is a Rotate,
    and [rotateCamera] receives the coordinate delta scaled by the rotation
    sensitivity. *)
Theorem rotate_sample_rotates :
  forall (w : World) (event : Dom.TouchEvent) (now : R) (touch : Dom.Touch)
         (previous : TouchPoint),
    enabled (ctl w) = true ->
    Dom.touches event = [touch] ->
    JsMap.get (Dom.identifier touch) (touches (ctl w)) = Some previous ->
    gestureType (ctl (handleTouchMove event now w)) = rotate /\
    calls (handleTouchMove event now w)
    = calls w ++
      [rotateCamera ((Dom.clientX touch - x previous) * rotationSensitivity (ctl w))
                    ((Dom.clientY touch - y previous) * rotationSensitivity (ctl w))].
Proof.
  intros w event now touch previous Hen Hev Hget.
  set (point := mkTouchPoint (Dom.identifier touch) (Dom.clientX touch)
                  (Dom.clientY touch) now).
  assert (Hmove : handleTouchMove event now w
                  = handleRotateGesture (touches (ctl w))
                      (with_ctl (fun c => set_gestureType rotate
                                            (set_touches [(Dom.identifier touch, point)] c))
                         w)).
  { unfold handleTouchMove. rewrite Hen, Hev. reflexivity. }
  rewrite Hmove. unfold handleRotateGesture.
  cbn [with_ctl ctl set_gestureType set_touches touches JsMap.values map snd].
  cbn [point id]. rewrite Hget. split; reflexivity.
Qed.

Lemma rotate_sample_scenario :
  let w := step initial (TouchStart (Dom.mkTouchEvent [Dom.mkTouch 0 100 100] []) 0) in
  calls (handleTouchMove (Dom.mkTouchEvent [Dom.mkTouch 0 150 120] []) 16 w)
  = [rotateCamera ((150 - 100) * 1.0) ((120 - 100) * 1.0)].
Proof.
  cbv zeta.
  set (w := step initial _).
  assert (Hget : JsMap.get (Dom.identifier (Dom.mkTouch 0 150 120)) (touches (ctl w))
                 = Some (mkTouchPoint 0 100 100 0)).
  { subst w. camera_unfold. repeat (camera_call fail). reflexivity. }
  assert (Hen : enabled (ctl w) = true).
  { subst w. camera_unfold. repeat (camera_call fail). reflexivity. }
  assert (Hc : calls w = []).
  { subst w. camera_unfold. repeat (camera_call fail). reflexivity. }
  assert (Hs : rotationSensitivity (ctl w) = 1.0).
  { subst w. camera_unfold. repeat (camera_call fail). reflexivity. }
  destruct (rotate_sample_rotates w (Dom.mkTouchEvent [Dom.mkTouch 0 150 120] []) 16
              (Dom.mkTouch 0 150 120) (mkTouchPoint 0 100 100 0) Hen eq_refl Hget)
    as [_ Hcalls].
  rewrite Hcalls, Hc, Hs. reflexivity.
Defined.

(** ** Pinch samples *)

(** C9, as the code has it: on a move sample with two contacts classified
    Pinch and a positive previous distance, [zoomCamera] is called with
    [-distanceChange * 0.01 * zoomSensitivity] and the current distance is
    stored; when the zoom sensitivity is positive, a decreasing distance
    gives a strictly positive zoom delta. *)
Theorem pinch_sample_zooms :
  forall (w : World) (event : Dom.TouchEvent) (now : R),
    enabled (ctl w) = true ->
    JsMap.size (touches (ctl (handleTouchMove event now w))) = 2%nat ->
    gestureType (ctl (handleTouchMove event now w)) = pinch ->
    0 < previousDistance (ctl w) ->
    exists touch0 touch1,
      JsMap.values (touches (ctl (handleTouchMove event now w))) = [touch0; touch1] /\
      calls (handleTouchMove event now w)
      = calls w ++
        [zoomCamera (- (calculateDistance touch0 touch1 - previousDistance (ctl w))
                     * 0.01 * zoomSensitivity (ctl w))] /\
      previousDistance (ctl (handleTouchMove event now w))
      = calculateDistance touch0 touch1 /\
      (0 < zoomSensitivity (ctl w) ->
       calculateDistance touch0 touch1 < previousDistance (ctl w) ->
       0 < - (calculateDistance touch0 touch1 - previousDistance (ctl w))
           * 0.01 * zoomSensitivity (ctl w)).
Proof.
  intros w event now Hen Hsize Hg Hpos.
  rewrite (handleTouchMove_pinch event now w Hen Hsize Hg).
  destruct (handleTouchMove_frame event now w Hen) as [Ht _].
  rewrite Ht in Hsize.
  destruct (values_of_size_two _ Hsize) as (touch0 & touch1 & Hv).
  destruct (classified_frame event now w) as (Hc & Hd & _ & Hz & _).
  destruct (handlePinchGesture_frame (classified event now w)) as [Htp _].
  exists touch0, touch1. rewrite Htp. split; [exact Hv|].
  unfold handlePinchGesture. rewrite Hv, Hd, Hz.
  unfold Rgtb. rewrite (Rltb_true _ _ Hpos).
  cbn [calls ctl with_ctl issue previousDistance set_previousDistance].
  rewrite Hc. repeat split.
  intros Hzs Hlt. nra.
Qed.

(** The scenario of the specification: the contacts (100,100), (200,100)
    move to (125,100), (175,100); the sample is a Pinch and [zoomCamera] is
    called with the positive delta 0.5. *)
Lemma pinch_sample_zooms_scenario :
  let w := step initial (TouchStart (twoFingers 100 100 200 100) 0) in
  let event := twoFingers 125 100 175 100 in
  enabled (ctl w) = true /\
  gestureType (ctl (handleTouchMove event 16 w)) = pinch /\
  previousDistance (ctl w) = 100 /\
  exists delta,
    calls (handleTouchMove event 16 w) = [zoomCamera delta] /\ 0 < delta.
Proof.
  cbv zeta.
  assert (Hw : step initial (TouchStart (twoFingers 100 100 200 100) 0)
               = mkWorld
                   (mkController true
                      [(0%Z, mkTouchPoint 0 100 100 0); (1%Z, mkTouchPoint 1 200 100 0)]
                      pinch 100 (mkPoint ((100 + 200) / 2) ((100 + 100) / 2))
                      1.0 1.0 1.0 true (mkVelocity 0 0 0) None)
                   [] 1%nat true []).
  { unfold twoFingers. camera_unfold.
    repeat (camera_call ltac:(sqrt_is 100)). sqrt_is 100. reflexivity. }
  rewrite Hw. clear Hw.
  set (w := mkWorld _ _ _ _ _).
  set (event := twoFingers 125 100 175 100).
  assert (Hm : handleTouchMove event 16 w
               = mkWorld
                   (mkController true
                      [(0%Z, mkTouchPoint 0 125 100 16); (1%Z, mkTouchPoint 1 175 100 16)]
                      pinch 50 (mkPoint ((100 + 200) / 2) ((100 + 100) / 2))
                      1.0 1.0 1.0 true (mkVelocity 0 0 0) None)
                   [] 1%nat true [zoomCamera (- (50 - 100) * 0.01 * 1.0)]).
  { subst w event. unfold twoFingers. camera_unfold.
    repeat (camera_call ltac:(sqrt_is 50)). reflexivity. }
  assert (Hen : enabled (ctl w) = true) by reflexivity.
  assert (Hsize : JsMap.size (touches (ctl (handleTouchMove event 16 w))) = 2%nat)
    by (rewrite Hm; reflexivity).
  assert (Hg : gestureType (ctl (handleTouchMove event 16 w)) = pinch)
    by (rewrite Hm; reflexivity).
  assert (Hpos : 0 < previousDistance (ctl w)) by (subst w; cbn; lra).
  destruct (pinch_sample_zooms w event 16 Hen Hsize Hg Hpos)
    as (touch0 & touch1 & Hv & Hcalls & Hprev & Hsign).
  rewrite Hm in Hv. cbn in Hv. injection Hv as <- <-.
  repeat split; try assumption; try reflexivity.
  eexists. split; [exact Hcalls|].
  apply Hsign.
  - subst w. cbn. lra.
  - rewrite <- Hprev, Hm. subst w. cbn. lra.
Defined.

(** C9, as stated, at a negative zoom sensitivity (it is unclamped): the
    same scenario after [setZoomSensitivity(-1)] is a Pinch with a positive
    previous distance and a decreasing distance, and the zoom delta is
    negative. *)
Lemma pinch_in_with_negative_sensitivity :
  previousDistance
    (ctl (run [SetZoomSensitivity (-1);
               TouchStart (twoFingers 100 100 200 100) 0] initial)) = 100 /\
  gestureType
    (ctl (run [SetZoomSensitivity (-1);
               TouchStart (twoFingers 100 100 200 100) 0;
               TouchMove (twoFingers 125 100 175 100) 16] initial)) = pinch /\
  previousDistance
    (ctl (run [SetZoomSensitivity (-1);
               TouchStart (twoFingers 100 100 200 100) 0;
               TouchMove (twoFingers 125 100 175 100) 16] initial)) = 50 /\
  calls (run [SetZoomSensitivity (-1);
              TouchStart (twoFingers 100 100 200 100) 0;
              TouchMove (twoFingers 125 100 175 100) 16] initial)
  = [zoomCamera (- (50 - 100) * 0.01 * -1)] /\
  ~ 0 < - (50 - 100) * 0.01 * -1.
Proof.
  unfold twoFingers.
  split; [|split; [|split; [|split]]].
  - camera_run ltac:(sqrt_is 100). reflexivity.
  - camera_run ltac:(idtac; first [sqrt_is 100 | sqrt_is 50]). reflexivity.
  - camera_run ltac:(idtac; first [sqrt_is 100 | sqrt_is 50]). reflexivity.
  - camera_run ltac:(idtac; first [sqrt_is 100 | sqrt_is 50]). reflexivity.
  - lra.
Qed.

(** The scenario behind C10 at the top edge of the viewport: the contacts
    (100,0), (200,0) have the midpoint (150,0); when both move by (+20,+20)
    the sample is a Pan, [panCamera] is not called, and the stored midpoint
    becomes (170,20). *)
Lemma pan_sample_at_zero_midpoint :
  let w := step initial (TouchStart (twoFingers 100 0 200 0) 0) in
  let event := twoFingers 120 20 220 20 in
  gestureType (ctl (handleTouchMove event 16 w)) = pan /\
  p_y (previousMidpoint (ctl w)) = 0 /\
  calls (handleTouchMove event 16 w) = [] /\
  previousMidpoint (ctl (handleTouchMove event 16 w))
  = calculateMidpoint (mkTouchPoint 0 120 20 16) (mkTouchPoint 1 220 20 16).
Proof.
  cbv zeta.
  assert (Hw : step initial (TouchStart (twoFingers 100 0 200 0) 0)
               = mkWorld
                   (mkController true
                      [(0%Z, mkTouchPoint 0 100 0 0); (1%Z, mkTouchPoint 1 200 0 0)]
                      pinch 100 (mkPoint ((100 + 200) / 2) ((0 + 0) / 2))
                      1.0 1.0 1.0 true (mkVelocity 0 0 0) None)
                   [] 1%nat true []).
  { unfold twoFingers. camera_unfold.
    repeat (camera_call ltac:(sqrt_is 100)). sqrt_is 100. reflexivity. }
  rewrite Hw. clear Hw.
  set (w := mkWorld _ _ _ _ _).
  set (event := twoFingers 120 20 220 20).
  assert (Hm : handleTouchMove event 16 w
               = mkWorld
                   (mkController true
                      [(0%Z, mkTouchPoint 0 120 20 16); (1%Z, mkTouchPoint 1 220 20 16)]
                      pan 100 (mkPoint ((120 + 220) / 2) ((20 + 20) / 2))
                      1.0 1.0 1.0 true (mkVelocity 0 0 0) None)
                   [] 1%nat true []).
  { subst w event. unfold twoFingers. camera_unfold.
    repeat (camera_call ltac:(sqrt_is 100)). reflexivity. }
  assert (Hen : enabled (ctl w) = true) by reflexivity.
  assert (Hsize : JsMap.size (touches (ctl (handleTouchMove event 16 w))) = 2%nat)
    by (rewrite Hm; reflexivity).
  assert (Hg : gestureType (ctl (handleTouchMove event 16 w)) = pan)
    by (rewrite Hm; reflexivity).
  assert (Hy : p_y (previousMidpoint (ctl w)) = 0) by (subst w; cbn; lra).
  destruct (pan_sample_needs_nonzero_midpoint w event 16 Hen Hsize Hg)
    as (touch0 & touch1 & Hv & Hmid & Hzero & _).
  rewrite Hm in Hv. cbn in Hv. injection Hv as <- <-.
  repeat split; try assumption.
  apply Hzero. right. exact Hy.
Defined.

(** ** The baseline of the Pinch/Pan test *)

(** C2 as stated fails on the code: two contacts start 100 apart and drift
    to 103, then to 106.  The first move sample is a Pan and leaves [previousDistance] at 100
    ([handlePanGesture] does not store the distance), so the second one,
    3 units from the sample before it, is compared with 100 and is a
    Pinch. *)
Lemma pan_samples_keep_stale_baseline :
  let start := TouchStart (twoFingers 100 100 200 100) 0 in
  let move1 := TouchMove (twoFingers 100 100 203 100) 16 in
  let move2 := TouchMove (twoFingers 100 100 206 100) 32 in
  sampleDistance (run [start; move1] initial) = 103 /\
  gestureType (ctl (run [start; move1] initial)) = pan /\
  previousDistance (ctl (run [start; move1] initial)) = 100 /\
  sampleDistance (run [start; move1; move2] initial) = 106 /\
  Rabs (106 - 103) <= 5 /\
  gestureType (ctl (run [start; move1; move2] initial)) = pinch.
Proof.
  cbv zeta. unfold twoFingers.
  assert (H3 : sqrt ((203 - 100) * (203 - 100) + (100 - 100) * (100 - 100)) = 103)
    by (apply sqrt_eval; lra).
  assert (H6 : sqrt ((206 - 100) * (206 - 100) + (100 - 100) * (100 - 100)) = 106)
    by (apply sqrt_eval; lra).
  split; [|split; [|split; [|split; [|split]]]].
  - camera_run ltac:(idtac; first [sqrt_is 100 | sqrt_is 103]).
    unfold sampleDistance. camera_unfold. exact H3.
  - camera_run ltac:(idtac; first [sqrt_is 100 | sqrt_is 103]). reflexivity.
  - camera_run ltac:(idtac; first [sqrt_is 100 | sqrt_is 103]). reflexivity.
  - camera_run ltac:(idtac; first [sqrt_is 100 | sqrt_is 103 | sqrt_is 106]).
    unfold sampleDistance. camera_unfold. exact H6.
  - rewrite Rabs_eval_pos; lra.
  - camera_run ltac:(idtac; first [sqrt_is 100 | sqrt_is 103 | sqrt_is 106]).
    reflexivity.
Qed.

(** C3 as stated fails on the code: a second direct 0-to-2 transition.  After a first
    two-contact gesture has ended, [previousDistance] still holds 100; two
    contacts that start 100 apart again are compared with it and the
    gesture is Pan. *)
Lemma second_two_contact_start_is_pan :
  let start1 := TouchStart (twoFingers 100 100 200 100) 0 in
  let release :=
    TouchEnd (Dom.mkTouchEvent [] [Dom.mkTouch 0 100 100; Dom.mkTouch 1 200 100])
      100 in
  let start2 := TouchStart (twoFingers 100 100 200 100) 1000 in
  gestureType (ctl (run [start1] initial)) = pinch /\
  JsMap.size (touches (ctl (run [start1; release] initial))) = 0%nat /\
  gestureType (ctl (run [start1; release] initial)) = none /\
  previousDistance (ctl (run [start1; release] initial)) = 100 /\
  JsMap.size (touches (ctl (run [start1; release; start2] initial))) = 2%nat /\
  gestureType (ctl (run [start1; release; start2] initial)) = pan.
Proof.
  cbv zeta. unfold twoFingers.
  split; [|split; [|split; [|split; [|split]]]];
    camera_run ltac:(sqrt_is 100); reflexivity.
Qed.

Lemma pinchTest_iff (previousDistance0 distance : R) :
  pinchTest previousDistance0 distance = true <->
  previousDistance0 = 0 \/ 5 < Rabs (distance - previousDistance0).
Proof.
  unfold pinchTest, Rgtb. rewrite orb_true_iff, Reqb_iff, Rltb_iff. reflexivity.
Qed.

Lemma updateGestureType_two (c : Controller) (touch0 touch1 : TouchPoint) :
  JsMap.size (touches c) = 2%nat ->
  JsMap.values (touches c) = [touch0; touch1] ->
  gestureType (updateGestureType c)
  = if pinchTest (previousDistance c) (calculateDistance touch0 touch1)
    then pinch else pan.
Proof.
  intros Hsize Hv. unfold updateGestureType, pinchTest. rewrite Hsize, Hv.
  destruct (Reqb (previousDistance c) 0); [reflexivity|]. cbn [orb].
  destruct (Rgtb (Rabs (calculateDistance touch0 touch1 - previousDistance c)) 5);
    reflexivity.
Qed.

Lemma gesture_of_test (b : bool) :
  ((if b then pinch else pan) = pinch <-> b = true) /\
  ((if b then pinch else pan) = pan <-> b = false).
Proof. destruct b; repeat split; intros; congruence. Qed.

(** C2, as the code has it: a move sample with two contacts is a Pinch
    exactly when the stored [previousDistance] is 0 or differs from the
    current distance by more than 5, and a Pan otherwise; a Pinch sample
    stores the current distance, a Pan sample leaves [previousDistance] as
    it was. *)
Theorem move_sample_compares_with_stored_distance :
  forall (w : World) (event : Dom.TouchEvent) (now : R),
    enabled (ctl w) = true ->
    JsMap.size (touches (ctl (handleTouchMove event now w))) = 2%nat ->
    exists touch0 touch1,
      JsMap.values (touches (ctl (handleTouchMove event now w))) = [touch0; touch1] /\
      (gestureType (ctl (handleTouchMove event now w)) = pinch <->
       previousDistance (ctl w) = 0 \/
       5 < Rabs (calculateDistance touch0 touch1 - previousDistance (ctl w))) /\
      (gestureType (ctl (handleTouchMove event now w)) = pan <->
       ~ (previousDistance (ctl w) = 0 \/
          5 < Rabs (calculateDistance touch0 touch1 - previousDistance (ctl w)))) /\
      (gestureType (ctl (handleTouchMove event now w)) = pinch ->
       previousDistance (ctl (handleTouchMove event now w))
       = calculateDistance touch0 touch1) /\
      (gestureType (ctl (handleTouchMove event now w)) = pan ->
       previousDistance (ctl (handleTouchMove event now w))
       = previousDistance (ctl w)).
Proof.
  intros w event now Hen Hsize.
  destruct (handleTouchMove_frame event now w Hen) as [Ht Hgt].
  assert (Hsize' : JsMap.size (touches (ctl (classified event now w))) = 2%nat)
    by (rewrite <- Ht; exact Hsize).
  destruct (values_of_size_two _ Hsize') as (touch0 & touch1 & Hv).
  destruct (classified_frame event now w) as (_ & Hd & _).
  exists touch0, touch1. rewrite Ht. split; [exact Hv|].
  assert (Hclass : gestureType (ctl (classified event now w))
                   = if pinchTest (previousDistance (ctl w))
                          (calculateDistance touch0 touch1)
                     then pinch else pan).
  { unfold classified in *. cbn [with_ctl ctl] in *.
    rewrite updateGestureType_only in Hsize', Hv.
    cbn [set_gestureType touches] in Hsize', Hv.
    rewrite (updateGestureType_two _ touch0 touch1 Hsize' Hv). reflexivity. }
  rewrite Hgt, Hclass.
  destruct (gesture_of_test (pinchTest (previousDistance (ctl w))
                               (calculateDistance touch0 touch1))) as [Hpinch Hpan].
  split; [rewrite Hpinch; apply pinchTest_iff|].
  split.
  { rewrite Hpan, <- pinchTest_iff.
    destruct (pinchTest _ _); split; intros; congruence. }
  split.
  - intros Hg. rewrite <- Hclass, <- Hgt in Hg.
    rewrite (handleTouchMove_pinch event now w Hen Hsize Hg).
    unfold handlePinchGesture. rewrite Hv.
    destruct (Rgtb (previousDistance (ctl (classified event now w))) 0); reflexivity.
  - intros Hg. rewrite <- Hclass, <- Hgt in Hg.
    rewrite (handleTouchMove_pan event now w Hen Hsize Hg).
    unfold handlePanGesture. rewrite Hv.
    destruct (Rneqb (p_x (previousMidpoint (ctl (classified event now w)))) 0
              && Rneqb (p_y (previousMidpoint (ctl (classified event now w)))) 0);
      exact Hd.
Qed.

(** Two contacts 100 apart drift to 103 and then to 106: after the Pan
    sample at distance 103 the stored distance is still 100, and the sample
    at distance 106 is a Pinch because it is 6 away from 100. *)
Lemma drift_is_measured_from_stored_distance :
  let w := run [TouchStart (twoFingers 100 100 200 100) 0;
                TouchMove (twoFingers 100 100 203 100) 16] initial in
  previousDistance (ctl w) = 100 /\
  5 < Rabs (106 - previousDistance (ctl w)) /\
  gestureType (ctl (handleTouchMove (twoFingers 100 100 206 100) 32 w)) = pinch.
Proof.
  cbv zeta.
  assert (Hrun : run [TouchStart (twoFingers 100 100 200 100) 0;
                      TouchMove (twoFingers 100 100 203 100) 16] initial
                 = mkWorld
                     (mkController true
                        [(0%Z, mkTouchPoint 0 100 100 16); (1%Z, mkTouchPoint 1 203 100 16)]
                        pan 100 (mkPoint ((100 + 203) / 2) ((100 + 100) / 2))
                        1.0 1.0 1.0 true (mkVelocity 0 0 0) None)
                     [] 1%nat true
                     [panCamera (((100 + 203) / 2 - (100 + 200) / 2) * 1.0)
                                (((100 + 100) / 2 - (100 + 100) / 2) * 1.0)]).
  { unfold twoFingers.
    repeat (camera_event_with ltac:(idtac; first [sqrt_is 100 | sqrt_is 103])).
    reflexivity. }
  rewrite Hrun. set (w := mkWorld _ _ _ _ _).
  set (event := twoFingers 100 100 206 100).
  assert (Hm : JsMap.values (touches (ctl (handleTouchMove event 32 w)))
               = [mkTouchPoint 0 100 100 32; mkTouchPoint 1 206 100 32]).
  { destruct (handleTouchMove_frame event 32 w eq_refl) as [Ht _]. rewrite Ht.
    subst w event. unfold twoFingers, classified. cbn [with_ctl ctl].
    rewrite updateGestureType_only. reflexivity. }
  assert (Hsize : JsMap.size (touches (ctl (handleTouchMove event 32 w))) = 2%nat).
  { rewrite size_values, Hm. reflexivity. }
  destruct (move_sample_compares_with_stored_distance w event 32 eq_refl Hsize)
    as (touch0 & touch1 & Hv & Hpinch & _).
  rewrite Hm in Hv. injection Hv as <- <-.
  assert (Hd : calculateDistance (mkTouchPoint 0 100 100 32) (mkTouchPoint 1 206 100 32)
               = 106).
  { unfold calculateDistance. cbn [x y]. apply sqrt_eval; lra. }
  rewrite Hd in Hpinch.
  assert (Hfar : 5 < Rabs (106 - previousDistance (ctl w))).
  { subst w. cbn [ctl previousDistance]. rewrite Rabs_eval_pos; lra. }
  split; [reflexivity|]. split; [exact Hfar|].
  apply Hpinch. right. exact Hfar.
Defined.

(** ** The first sample of a two-contact gesture *)

Lemma stopMomentum_ctl (w : World) :
  ctl (stopMomentum w)
  = set_velocity (mkVelocity 0 0 0) (set_momentumAnimationId None (ctl w)).
Proof.
  unfold stopMomentum. destruct (momentumAnimationId (ctl w)) eqn:Hid.
  - reflexivity.
  - cbn [with_ctl ctl]. destruct (ctl w). cbn in Hid. subst. reflexivity.
Qed.

Lemma startMomentum_previousDistance (w : World) :
  previousDistance (ctl (startMomentum w)) = previousDistance (ctl w).
Proof.
  unfold startMomentum. destruct (negb (momentumEnabled (ctl w))); [reflexivity|].
  unfold scheduleMomentum, requestAnimationFrame. cbn [with_ctl ctl].
  rewrite stopMomentum_ctl. reflexivity.
Qed.

(** A touch-end never writes [previousDistance]. *)
Lemma handleTouchEnd_previousDistance (event : Dom.TouchEvent) (now : R) (w : World) :
  previousDistance (ctl (handleTouchEnd event now w)) = previousDistance (ctl w).
Proof.
  unfold handleTouchEnd. destruct (negb (enabled (ctl w))); [reflexivity|].
  cbn [with_ctl ctl]. rewrite updateGestureType_only.
  cbn [set_gestureType set_touches previousDistance].
  destruct (momentumEnabled (ctl w)
            && GestureType_eqb (gestureType (ctl w)) rotate
            && Nat.eqb (JsMap.size (touches (ctl w))) 1); [|reflexivity].
  rewrite startMomentum_previousDistance. cbn [with_ctl ctl].
  rewrite calculateVelocity_only. reflexivity.
Qed.

(** C3, as the code has it: a touch-start that leaves two contacts tracked
    is a Pinch exactly when the stored [previousDistance] is 0 or differs
    from the distance of the two contacts by more than 5, and a Pan
    otherwise; it then stores that distance and the midpoint; and a
    touch-end leaves [previousDistance] as it is, so that the next
    two-contact start is compared with it. *)
Theorem touch_start_compares_with_stored_distance :
  forall (w : World) (event : Dom.TouchEvent) (now : R),
    enabled (ctl w) = true ->
    JsMap.size (touches (ctl (handleTouchStart event now w))) = 2%nat ->
    (forall release later,
        previousDistance
          (ctl (handleTouchEnd release later (handleTouchStart event now w)))
        = previousDistance (ctl (handleTouchStart event now w))) /\
    exists touch0 touch1,
      JsMap.values (touches (ctl (handleTouchStart event now w))) = [touch0; touch1] /\
      (gestureType (ctl (handleTouchStart event now w)) = pinch <->
       previousDistance (ctl w) = 0 \/
       5 < Rabs (calculateDistance touch0 touch1 - previousDistance (ctl w))) /\
      (gestureType (ctl (handleTouchStart event now w)) = pan <->
       ~ (previousDistance (ctl w) = 0 \/
          5 < Rabs (calculateDistance touch0 touch1 - previousDistance (ctl w)))) /\
      previousDistance (ctl (handleTouchStart event now w))
      = calculateDistance touch0 touch1 /\
      previousMidpoint (ctl (handleTouchStart event now w))
      = calculateMidpoint touch0 touch1.
Proof.
  intros w event now Hen Hsize.
  split; [intros release later; apply handleTouchEnd_previousDistance|].
  unfold handleTouchStart in *. rewrite Hen in *. cbn [negb with_ctl ctl] in *.
  set (c1 := set_touches
               (trackTouches now (Dom.touches event) (touches (ctl (stopMomentum w))))
               (ctl (stopMomentum w))) in *.
  assert (Ht : touches (initGestureState (updateGestureType c1)) = touches c1).
  { rewrite initGestureState_only, updateGestureType_only. reflexivity. }
  rewrite Ht in *.
  destruct (values_of_size_two _ Hsize) as (touch0 & touch1 & Hv).
  exists touch0, touch1. split; [exact Hv|].
  assert (Hprev : previousDistance c1 = previousDistance (ctl w)).
  { unfold c1. rewrite stopMomentum_ctl. reflexivity. }
  assert (Hclass : gestureType (updateGestureType c1)
                   = if pinchTest (previousDistance (ctl w))
                          (calculateDistance touch0 touch1)
                     then pinch else pan).
  { rewrite (updateGestureType_two c1 touch0 touch1 Hsize Hv), Hprev. reflexivity. }
  assert (Hg : gestureType (initGestureState (updateGestureType c1))
               = gestureType (updateGestureType c1)).
  { rewrite initGestureState_only. reflexivity. }
  assert (Hv' : JsMap.values (touches (updateGestureType c1)) = [touch0; touch1]).
  { rewrite updateGestureType_only. exact Hv. }
  rewrite Hg, Hclass.
  destruct (gesture_of_test (pinchTest (previousDistance (ctl w))
                               (calculateDistance touch0 touch1))) as [Hpinch Hpan].
  split; [rewrite Hpinch; apply pinchTest_iff|].
  split.
  { rewrite Hpan, <- pinchTest_iff.
    destruct (pinchTest _ _); split; intros; congruence. }
  unfold initGestureState. rewrite Hclass, Hv'.
  destruct (pinchTest (previousDistance (ctl w)) (calculateDistance touch0 touch1));
    split; reflexivity.
Qed.

(** Two two-contact gestures in a row.  The first start, on a fresh
    controller (stored distance 0), is a Pinch; after its release the stored
    distance is still 100, and the second start, again 100 apart, is a
    Pan. *)
Lemma first_start_pinch_second_start_pan :
  let both := [Dom.mkTouch 0 100 100; Dom.mkTouch 1 200 100] in
  let start := twoFingers 100 100 200 100 in
  previousDistance (ctl initial) = 0 /\
  gestureType (ctl (handleTouchStart start 0 initial)) = pinch /\
  previousDistance
    (ctl (handleTouchEnd (Dom.mkTouchEvent [] both) 100
            (handleTouchStart start 0 initial))) = 100 /\
  gestureType
    (ctl (handleTouchStart start 1000
            (handleTouchEnd (Dom.mkTouchEvent [] both) 100
               (handleTouchStart start 0 initial)))) = pan.
Proof.
  cbv zeta.
  set (start := twoFingers 100 100 200 100).
  set (both := [Dom.mkTouch 0 100 100; Dom.mkTouch 1 200 100]).
  assert (Hd : forall now,
             calculateDistance (mkTouchPoint 0 100 100 now) (mkTouchPoint 1 200 100 now)
             = 100).
  { intros now. unfold calculateDistance. cbn [x y]. apply sqrt_eval; lra. }
  (* the first start *)
  assert (Hv1 : JsMap.values (touches (ctl (handleTouchStart start 0 initial)))
                = [mkTouchPoint 0 100 100 0; mkTouchPoint 1 200 100 0]).
  { unfold handleTouchStart. cbn [initial initial_controller ctl enabled negb with_ctl].
    rewrite initGestureState_only, updateGestureType_only. reflexivity. }
  assert (Hs1 : JsMap.size (touches (ctl (handleTouchStart start 0 initial))) = 2%nat)
    by (rewrite size_values, Hv1; reflexivity).
  destruct (touch_start_compares_with_stored_distance initial start 0 eq_refl Hs1)
    as (Hkept & touch0 & touch1 & Hv & Hpinch & _ & Hprev & _).
  rewrite Hv1 in Hv. injection Hv as <- <-. rewrite Hd in Hprev.
  split; [reflexivity|].
  split; [apply Hpinch; left; reflexivity|].
  set (w1 := handleTouchEnd (Dom.mkTouchEvent [] both) 100
               (handleTouchStart start 0 initial)).
  assert (Hprev1 : previousDistance (ctl w1) = 100).
  { unfold w1. rewrite Hkept. exact Hprev. }
  split; [exact Hprev1|].
  (* the second start *)
  assert (Hrun : w1 = run [TouchStart start 0; TouchEnd (Dom.mkTouchEvent [] both) 100]
                        initial) by reflexivity.
  assert (Hw1 : enabled (ctl w1) = true /\ touches (ctl w1) = []).
  { rewrite Hrun. subst start both. unfold twoFingers.
    camera_run ltac:(sqrt_is 100). split; reflexivity. }
  destruct Hw1 as [Hen1 Hw1].
  assert (Hv2 : JsMap.values (touches (ctl (handleTouchStart start 1000 w1)))
                = [mkTouchPoint 0 100 100 1000; mkTouchPoint 1 200 100 1000]).
  { unfold handleTouchStart. rewrite Hen1. cbn [negb with_ctl ctl].
    rewrite initGestureState_only, updateGestureType_only.
    cbn [set_previousMidpoint set_previousDistance set_gestureType set_touches touches].
    rewrite stopMomentum_ctl. cbn [set_velocity set_momentumAnimationId touches].
    rewrite Hw1. reflexivity. }
  assert (Hs2 : JsMap.size (touches (ctl (handleTouchStart start 1000 w1))) = 2%nat)
    by (rewrite size_values, Hv2; reflexivity).
  destruct (touch_start_compares_with_stored_distance w1 start 1000 Hen1 Hs2)
    as (_ & touch0 & touch1 & Hv & _ & Hpan & _).
  rewrite Hv2 in Hv. injection Hv as <- <-. rewrite Hd, Hprev1 in Hpan.
  apply Hpan. intros [H | H]; [lra|].
  rewrite Rabs_eval_pos in H; lra.
Defined.

(** ** Momentum sessions *)

Lemma nat_eqb_refl (n : nat) : Nat.eqb n n = true.
Proof. induction n; [reflexivity | exact IHn]. Qed.

Lemma stopMomentum_idle (w : World) :
  (frames w = [] \/ exists h env, pending w h env) ->
  idle (stopMomentum w) /\
  velocity (ctl (stopMomentum w)) = mkVelocity 0 0 0 /\
  calls (stopMomentum w) = calls w /\
  nextFrame (stopMomentum w) = nextFrame w /\
  rotationSensitivity (ctl (stopMomentum w)) = rotationSensitivity (ctl w) /\
  attached (stopMomentum w) = attached w.
Proof.
  intros H. unfold stopMomentum, idle.
  destruct (momentumAnimationId (ctl w)) as [i|] eqn:Hid.
  - cbn [with_ctl ctl cancelAnimationFrame frames velocity set_velocity
         set_momentumAnimationId momentumAnimationId calls nextFrame
         rotationSensitivity attached].
    repeat split.
    destruct H as [H | (h & env & Hh & Hf)].
    + rewrite H. reflexivity.
    + rewrite Hf. assert (i = h) by congruence. subst i.
      cbn [filter fst]. rewrite nat_eqb_refl. reflexivity.
  - cbn [with_ctl ctl frames velocity set_velocity momentumAnimationId calls
         nextFrame rotationSensitivity attached].
    rewrite Hid. repeat split.
    destruct H as [H | (h & env & Hh & Hf)]; [exact H | congruence].
Qed.

Lemma runAnimationFrame_pending (w : World) (h : nat) (env : MomentumEnv) :
  pending w h env ->
  runAnimationFrame h w
  = animate env (mkWorld (ctl w) [] (nextFrame w) (attached w) (calls w)).
Proof.
  intros [Hid Hf]. unfold runAnimationFrame, frame_lookup, cancelAnimationFrame.
  rewrite Hf. cbn [find filter fst snd]. rewrite nat_eqb_refl. reflexivity.
Qed.

Lemma runAnimationFrame_idle (w : World) (h : nat) :
  frames w = [] -> runAnimationFrame h w = w.
Proof.
  intros Hf. unfold runAnimationFrame, frame_lookup. rewrite Hf. reflexivity.
Qed.

(** One frame of a pending session. *)
Lemma runAnimationFrame_step (w : World) (h : nat) (env : MomentumEnv) :
  pending w h env ->
  calls (runAnimationFrame h w)
  = calls w ++ (if stops env then [] else emitted (rotationSensitivity (ctl w)) env) /\
  rotationSensitivity (ctl (runAnimationFrame h w)) = rotationSensitivity (ctl w) /\
  (if stops env
   then idle (runAnimationFrame h w)
   else pending (runAnimationFrame h w) (nextFrame w) (next env)).
Proof.
  intros Hp. rewrite (runAnimationFrame_pending w h env Hp).
  unfold animate. fold (stops env).
  destruct (stops env).
  - set (w0 := mkWorld (ctl w) [] (nextFrame w) (attached w) (calls w)).
    destruct (stopMomentum_idle w0 (or_introl eq_refl))
      as (Hidle & _ & Hc & _ & Hs & _).
    rewrite Hc, Hs. subst w0. cbn [calls ctl]. rewrite app_nil_r.
    repeat split; apply Hidle.
  - unfold emitted.
    cbn [ctl rotationSensitivity].
    destruct (Rgtb (Rabs (velocityX env * MOMENTUM_FRICTION - lastX env)) 0.01
              || Rgtb (Rabs (velocityY env * MOMENTUM_FRICTION - lastY env)) 0.01);
      cbn [requestAnimationFrame issue with_ctl ctl calls frames nextFrame
           attached app rotationSensitivity set_momentumAnimationId];
      unfold pending, next;
      cbn [ctl frames momentumAnimationId set_momentumAnimationId app];
      rewrite ?app_nil_r; repeat split; reflexivity.
Qed.

Lemma runMomentum_idle (n : nat) (w : World) :
  momentumAnimationId (ctl w) = None -> runMomentum n w = w.
Proof. intros H. destruct n; [reflexivity|]. cbn [runMomentum]. rewrite H. reflexivity. Qed.

(** The frames of a pending session follow the machine. *)
Lemma runMomentum_pending (n : nat) :
  forall (w : World) (h : nat) (env : MomentumEnv),
    pending w h env ->
    calls (runMomentum n w)
    = calls w ++ sessionTrace n (rotationSensitivity (ctl w)) env /\
    match sessionEnv n env with
    | Some env' => exists h', pending (runMomentum n w) h' env'
    | None => idle (runMomentum n w)
    end.
Proof.
  induction n as [|n IH]; intros w h env Hp.
  - cbn [runMomentum sessionTrace sessionEnv]. rewrite app_nil_r.
    split; [reflexivity | exists h; exact Hp].
  - cbn [runMomentum sessionTrace sessionEnv].
    destruct Hp as [Hid Hf]. rewrite Hid.
    destruct (runAnimationFrame_step w h env (conj Hid Hf)) as (Hc & Hs & Hnext).
    destruct (stops env).
    + destruct Hnext as [Hn Hfr].
      rewrite (runMomentum_idle n _ Hn). rewrite Hc.
      split; [reflexivity | split; assumption].
    + destruct (IH _ _ _ Hnext) as (Hc' & Hrest).
      rewrite Hc', Hc, Hs, app_assoc. split; [reflexivity | exact Hrest].
Qed.

(** *** The machine: friction *)


Lemma stops_iff (env : MomentumEnv) :
  stops env = true <-> slow (velocityX env) (velocityY env) 1.
Proof.
  unfold stops, slow. rewrite andb_true_iff, !Rltb_iff. cbn [pow].
  rewrite !Rmult_1_r. reflexivity.
Qed.





(** *** The machine: the commands fade *)








(** ** Sessions of a controller in use *)

(** The gesture handlers leave the session alone. *)
Lemma handleRotateGesture_momentum (previousTouches : JsMap.t TouchPoint) (w : World) :
  momentumState (handleRotateGesture previousTouches w) = momentumState w.
Proof.
  unfold handleRotateGesture.
  destruct (JsMap.values (touches (ctl w))) as [|t l]; [reflexivity|].
  destruct (JsMap.get (id t) previousTouches); reflexivity.
Qed.

Lemma handlePinchGesture_momentum (w : World) :
  momentumState (handlePinchGesture w) = momentumState w.
Proof.
  unfold handlePinchGesture.
  destruct (JsMap.values (touches (ctl w))) as [|t0 [|t1 l]]; try reflexivity.
  destruct (Rgtb (previousDistance (ctl w)) 0); reflexivity.
Qed.

Lemma handlePanGesture_momentum (w : World) :
  momentumState (handlePanGesture w) = momentumState w.
Proof.
  unfold handlePanGesture.
  destruct (JsMap.values (touches (ctl w))) as [|t0 [|t1 l]]; try reflexivity.
  destruct (Rneqb (p_x (previousMidpoint (ctl w))) 0
            && Rneqb (p_y (previousMidpoint (ctl w))) 0); reflexivity.
Qed.

Lemma classified_momentum (event : Dom.TouchEvent) (now : R) (w : World) :
  momentumState (classified event now w) = momentumState w.
Proof.
  unfold classified, momentumState. cbn [with_ctl ctl frames].
  rewrite updateGestureType_only. reflexivity.
Qed.

Lemma handleTouchMove_momentum (event : Dom.TouchEvent) (now : R) (w : World) :
  momentumState (handleTouchMove event now w) = momentumState w.
Proof.
  unfold handleTouchMove.
  destruct (negb (enabled (ctl w))); [reflexivity|].
  fold (classified event now w).
  repeat match goal with
         | |- context [if ?b then _ else _] => destruct b
         end;
    rewrite ?handleRotateGesture_momentum, ?handlePinchGesture_momentum,
      ?handlePanGesture_momentum;
    apply classified_momentum.
Qed.

Lemma session_inv_state (w w' : World) :
  momentumState w' = momentumState w -> session_inv w -> session_inv w'.
Proof.
  unfold momentumState, session_inv, idle, pending. intros H.
  injection H as Hid Hf. rewrite Hid, Hf. exact (fun x => x).
Qed.

Lemma session_inv_stoppable (w : World) :
  session_inv w -> frames w = [] \/ exists h env, pending w h env.
Proof.
  intros [[_ Hf] | [h Hp]]; [left; exact Hf | right; exists h, zeroEnv; exact Hp].
Qed.

Lemma stops_zeroEnv : stops zeroEnv = true.
Proof.
  apply stops_iff. unfold slow, zeroEnv, MOMENTUM_MIN_VELOCITY.
  cbn [velocityX velocityY]. rewrite Rmult_0_l, Rabs_R0. lra.
Qed.

Lemma startMomentum_spec (w : World) :
  session_inv w ->
  momentumEnabled (ctl w) = true ->
  pending (startMomentum w) (nextFrame w) zeroEnv /\
  velocity (ctl (startMomentum w)) = mkVelocity 0 0 0 /\
  calls (startMomentum w) = calls w /\
  rotationSensitivity (ctl (startMomentum w)) = rotationSensitivity (ctl w).
Proof.
  intros Hinv Hen. unfold startMomentum. rewrite Hen. cbn [negb].
  destruct (stopMomentum_idle w (session_inv_stoppable w Hinv))
    as ([Hid Hf] & Hv & Hc & Hn & Hs & _).
  unfold scheduleMomentum, requestAnimationFrame, pending.
  cbn [with_ctl ctl frames calls set_momentumAnimationId momentumAnimationId
       velocity rotationSensitivity].
  rewrite Hv, Hf, Hc, Hn, Hs. cbn [v_x v_y app]. repeat split.
Qed.

Lemma session_inv_startMomentum (w : World) :
  session_inv w -> session_inv (startMomentum w).
Proof.
  intros Hinv. destruct (momentumEnabled (ctl w)) eqn:Hen.
  - right. exists (nextFrame w). apply startMomentum_spec; assumption.
  - unfold startMomentum. rewrite Hen. exact Hinv.
Qed.

Lemma session_inv_stopMomentum (w : World) :
  session_inv w -> session_inv (stopMomentum w).
Proof.
  intros Hinv. left. apply stopMomentum_idle. apply session_inv_stoppable. exact Hinv.
Qed.

Lemma session_inv_runAnimationFrame (h : nat) (w : World) :
  session_inv w ->
  session_inv (runAnimationFrame h w) /\
  calls (runAnimationFrame h w) = calls w.
Proof.
  intros [[Hid Hf] | [h0 Hp]].
  - rewrite (runAnimationFrame_idle w h Hf). split; [left; split; assumption | reflexivity].
  - destruct (Nat.eq_dec h h0) as [-> | Hne].
    + destruct (runAnimationFrame_step w h0 zeroEnv Hp) as (Hc & _ & Hnext).
      rewrite stops_zeroEnv in Hc, Hnext. rewrite app_nil_r in Hc.
      split; [left; exact Hnext | exact Hc].
    + assert (Hsame : runAnimationFrame h w = w).
      { unfold runAnimationFrame, frame_lookup. destruct Hp as [_ Hf]. rewrite Hf.
        cbn [find fst]. apply Nat.eqb_neq in Hne.
        rewrite Nat.eqb_sym, Hne. reflexivity. }
      rewrite Hsame. split; [right; exists h0; exact Hp | reflexivity].
Qed.

Lemma session_inv_handleTouchStart (event : Dom.TouchEvent) (now : R) (w : World) :
  session_inv w -> session_inv (handleTouchStart event now w).
Proof.
  intros Hinv. unfold handleTouchStart.
  destruct (negb (enabled (ctl w))); [exact Hinv|].
  apply (session_inv_state (stopMomentum w)); [|apply session_inv_stopMomentum; exact Hinv].
  unfold momentumState. cbn [with_ctl ctl frames].
  rewrite initGestureState_only, updateGestureType_only. reflexivity.
Qed.

Lemma session_inv_handleTouchEnd (event : Dom.TouchEvent) (now : R) (w : World) :
  session_inv w -> session_inv (handleTouchEnd event now w).
Proof.
  intros Hinv. unfold handleTouchEnd.
  destruct (negb (enabled (ctl w))); [exact Hinv|].
  match goal with
  | |- session_inv (with_ctl _ (with_ctl _ (with_ctl _ ?w1))) =>
      apply (session_inv_state w1)
  end.
  - unfold momentumState. cbn [with_ctl ctl frames].
    rewrite updateGestureType_only. reflexivity.
  - destruct (momentumEnabled (ctl w)
              && GestureType_eqb (gestureType (ctl w)) rotate
              && Nat.eqb (JsMap.size (touches (ctl w))) 1); [|exact Hinv].
    apply session_inv_startMomentum.
    apply (session_inv_state w); [|exact Hinv].
    unfold momentumState. cbn [with_ctl ctl frames].
    rewrite calculateVelocity_only. reflexivity.
Qed.

Lemma session_inv_step (w : World) (e : Event) :
  session_inv w -> session_inv (step w e).
Proof.
  intros Hinv. destruct e as [event now | event now | event now | event now
                             | handle | s | s | s | b | | |];
    cbn [step].
  - destruct (attached w); [apply session_inv_handleTouchStart|]; exact Hinv.
  - destruct (attached w); [|exact Hinv].
    apply (session_inv_state w); [apply handleTouchMove_momentum | exact Hinv].
  - destruct (attached w); [apply session_inv_handleTouchEnd|]; exact Hinv.
  - destruct (attached w); [apply session_inv_handleTouchEnd|]; exact Hinv.
  - apply session_inv_runAnimationFrame. exact Hinv.
  - exact (session_inv_state w _ eq_refl Hinv).
  - exact (session_inv_state w _ eq_refl Hinv).
  - exact (session_inv_state w _ eq_refl Hinv).
  - unfold setMomentumEnabled. destruct b; cbn [negb].
    + exact (session_inv_state w _ eq_refl Hinv).
    + apply session_inv_stopMomentum. exact (session_inv_state w _ eq_refl Hinv).
  - exact (session_inv_state w _ eq_refl Hinv).
  - unfold disable. apply session_inv_stopMomentum.
    exact (session_inv_state w _ eq_refl Hinv).
  - unfold destroy.
    apply (session_inv_state (stopMomentum w)); [reflexivity|].
    apply session_inv_stopMomentum. exact Hinv.
Qed.

Lemma session_inv_run (es : list Event) :
  forall w, session_inv w -> session_inv (run es w).
Proof.
  induction es as [|e es IH]; intros w Hinv; [exact Hinv|].
  cbn [run]. apply IH. apply session_inv_step. exact Hinv.
Qed.

Lemma session_inv_reachable (es : list Event) : session_inv (run es initial).
Proof. apply session_inv_run. left. split; reflexivity. Qed.

(** Frames that find nothing pending do nothing. *)
Lemma idle_frames_do_nothing (handles : list nat) :
  forall w, frames w = [] -> run (map AnimationFrame handles) w = w.
Proof.
  induction handles as [|h hs IH]; intros w Hf; [reflexivity|].
  cbn [map run step]. rewrite (runAnimationFrame_idle w h Hf). apply IH. exact Hf.
Qed.

(** ** A new contact during momentum *)

(** C7: when an enabled controller processes a touch-start, the pending
    animation frame is cancelled and the stored velocity cleared within the
    handler, and no frame the browser may still try to run issues a camera
    command afterwards. *)
Theorem touch_start_cancels_momentum :
  forall (es : list Event) (event : Dom.TouchEvent) (now : R),
    enabled (ctl (run es initial)) = true ->
    frames (handleTouchStart event now (run es initial)) = [] /\
    momentumAnimationId (ctl (handleTouchStart event now (run es initial))) = None /\
    velocity (ctl (handleTouchStart event now (run es initial))) = mkVelocity 0 0 0 /\
    forall handles,
      calls (run (map AnimationFrame handles)
               (handleTouchStart event now (run es initial)))
      = calls (handleTouchStart event now (run es initial)).
Proof.
  intros es event now Hen.
  set (w := run es initial) in *.
  assert (Hinv : session_inv w) by apply session_inv_reachable.
  destruct (stopMomentum_idle w (session_inv_stoppable w Hinv))
    as ([Hid Hf] & Hv & _).
  assert (Hframes : frames (handleTouchStart event now w) = []).
  { unfold handleTouchStart. rewrite Hen. cbn [negb with_ctl frames]. exact Hf. }
  split; [exact Hframes|]. split; [|split].
  - unfold handleTouchStart. rewrite Hen. cbn [negb with_ctl ctl].
    rewrite initGestureState_only, updateGestureType_only. exact Hid.
  - unfold handleTouchStart. rewrite Hen. cbn [negb with_ctl ctl].
    rewrite initGestureState_only, updateGestureType_only. exact Hv.
  - intros handles. rewrite (idle_frames_do_nothing handles _ Hframes). reflexivity.
Qed.

(** A drag from (100,100) to (200,100) released after 50ms leaves a session
    pending under the handle 1; the next touch-start cancels it. *)
Lemma touch_start_cancels_pending_session :
  let es := [TouchStart (oneFinger 100 100) 0; TouchMove (oneFinger 200 100) 30;
             TouchEnd (lift 200 100) 50] in
  momentumAnimationId (ctl (run es initial)) = Some 1%nat /\
  frames (run es initial) = [(1%nat, zeroEnv)] /\
  frames (handleTouchStart (oneFinger 150 150) 60 (run es initial)) = [] /\
  momentumAnimationId (ctl (handleTouchStart (oneFinger 150 150) 60 (run es initial)))
  = None /\
  calls (run [AnimationFrame 1]
           (handleTouchStart (oneFinger 150 150) 60 (run es initial)))
  = calls (handleTouchStart (oneFinger 150 150) 60 (run es initial)).
Proof.
  cbv zeta.
  set (es := [TouchStart (oneFinger 100 100) 0; TouchMove (oneFinger 200 100) 30;
              TouchEnd (lift 200 100) 50]).
  assert (Hrun : run es initial
                 = mkWorld
                     (mkController true [] none 0 (mkPoint 0 0) 1.0 1.0 1.0 true
                        (mkVelocity 0 0 0) (Some 1%nat))
                     [(1%nat, zeroEnv)] 2%nat true
                     [rotateCamera ((200 - 100) * 1.0) ((100 - 100) * 1.0)]).
  { subst es. unfold oneFinger, lift. repeat camera_event. reflexivity. }
  assert (Hen : enabled (ctl (run es initial)) = true) by (rewrite Hrun; reflexivity).
  destruct (touch_start_cancels_momentum es (oneFinger 150 150) 60 Hen)
    as (Hf & Hid & _ & Hcalls).
  split; [rewrite Hrun; reflexivity|].
  split; [rewrite Hrun; reflexivity|].
  split; [exact Hf|]. split; [exact Hid|].
  exact (Hcalls [1%nat]).
Defined.

(** ** The velocity at release *)

Lemma size_of_values {V : Type} (m : JsMap.t V) (v : V) :
  JsMap.values m = [v] -> JsMap.size m = 1%nat.
Proof.
  unfold JsMap.values, JsMap.size. intros H.
  rewrite <- (length_map snd m), H. reflexivity.
Qed.

Lemma sessionTrace_zeroEnv (n : nat) (s : R) : sessionTrace n s zeroEnv = [].
Proof. destruct n; [reflexivity|]. cbn [sessionTrace]. rewrite stops_zeroEnv. reflexivity. Qed.

(** C1: when the last contact of a Rotate gesture is released (momentum
    enabled) more than 100ms, or no positive time, after the stored velocity
    sample, [calculateVelocity] stores the release point as a fresh anchor
    instead of a quotient by the time delta, the release leaves the stored
    velocity at zero, and the momentum session it starts holds the velocity
    zero and issues no camera command. *)
Theorem release_resyncs_velocity :
  forall (es : list Event) (event : Dom.TouchEvent) (now : R) (touch : TouchPoint),
    enabled (ctl (run es initial)) = true ->
    momentumEnabled (ctl (run es initial)) = true ->
    gestureType (ctl (run es initial)) = rotate ->
    JsMap.values (touches (ctl (run es initial))) = [touch] ->
    (100 < now - v_timestamp (velocity (ctl (run es initial))) \/
     now - v_timestamp (velocity (ctl (run es initial))) <= 0) ->
    velocity (calculateVelocity now (ctl (run es initial)))
    = mkVelocity (x touch) (y touch) now /\
    velocity (ctl (handleTouchEnd event now (run es initial))) = mkVelocity 0 0 0 /\
    pending (handleTouchEnd event now (run es initial))
      (nextFrame (run es initial)) zeroEnv /\
    calls (handleTouchEnd event now (run es initial)) = calls (run es initial) /\
    forall n,
      calls (runMomentum n (handleTouchEnd event now (run es initial)))
      = calls (run es initial).
Proof.
  intros es event now touch Hen Hmom Hg Hv Hdt.
  set (w := run es initial) in *.
  assert (Hinv : session_inv w) by apply session_inv_reachable.
  assert (Hanchor : velocity (calculateVelocity now (ctl w))
                    = mkVelocity (x touch) (y touch) now).
  { unfold calculateVelocity. rewrite Hv.
    assert (Hb : Rltb 0 (now - v_timestamp (velocity (ctl w)))
                 && Rltb (now - v_timestamp (velocity (ctl w))) 100 = false).
    { apply andb_false_iff. destruct Hdt as [Hdt | Hdt].
      - right. apply Rltb_false. lra.
      - left. apply Rltb_false. exact Hdt. }
    rewrite Hb. reflexivity. }
  split; [exact Hanchor|].
  set (w1 := with_ctl (calculateVelocity now) w).
  assert (Hinv1 : session_inv w1).
  { apply (session_inv_state w); [|exact Hinv].
    unfold w1, momentumState. cbn [with_ctl ctl frames].
    rewrite calculateVelocity_only. reflexivity. }
  assert (Hmom1 : momentumEnabled (ctl w1) = true).
  { unfold w1. cbn [with_ctl ctl]. rewrite calculateVelocity_only. exact Hmom. }
  destruct (startMomentum_spec w1 Hinv1 Hmom1) as ([Hid Hf] & Hvel & Hc & _).
  assert (Hend : handleTouchEnd event now w
                 = with_ctl updateGestureType
                     (with_ctl (set_touches
                                  (trackTouches now (Dom.touches event) JsMap.empty))
                        (with_ctl (fun c => set_touches
                                              (untrackTouches (Dom.changedTouches event)
                                                 (touches c)) c)
                           (startMomentum w1)))).
  { unfold handleTouchEnd. rewrite Hen, Hmom, Hg.
    rewrite (size_of_values _ _ Hv). reflexivity. }
  assert (Hpending : pending (handleTouchEnd event now w) (nextFrame w) zeroEnv).
  { rewrite Hend. unfold pending. cbn [with_ctl ctl frames].
    rewrite updateGestureType_only.
    cbn [set_gestureType set_touches momentumAnimationId].
    split; [exact Hid | exact Hf]. }
  assert (Hcalls : calls (handleTouchEnd event now w) = calls w).
  { rewrite Hend. cbn [with_ctl calls]. exact Hc. }
  split; [|split; [exact Hpending | split; [exact Hcalls|]]].
  - rewrite Hend. cbn [with_ctl ctl]. rewrite updateGestureType_only. exact Hvel.
  - intros n.
    destruct (runMomentum_pending n _ _ _ Hpending) as [Htrace _].
    rewrite Htrace, sessionTrace_zeroEnv, app_nil_r. exact Hcalls.
Qed.

(** A contact pressed at time 1000 and released at (100,100), 150ms later:
    the velocity sample dates from the press (time stamp 0, reset by the
    touch-start), the release point becomes the anchor, and the session
    issues nothing. *)
Lemma release_after_a_pause :
  let es := [TouchStart (oneFinger 100 100) 1000] in
  100 < 1150 - v_timestamp (velocity (ctl (run es initial))) /\
  velocity (calculateVelocity 1150 (ctl (run es initial))) = mkVelocity 100 100 1150 /\
  velocity (ctl (handleTouchEnd (lift 100 100) 1150 (run es initial)))
  = mkVelocity 0 0 0 /\
  forall n,
    calls (runMomentum n (handleTouchEnd (lift 100 100) 1150 (run es initial))) = [].
Proof.
  cbv zeta.
  set (es := [TouchStart (oneFinger 100 100) 1000]).
  assert (Hrun : run es initial
                 = mkWorld
                     (mkController true [(0%Z, mkTouchPoint 0 100 100 1000)] rotate 0
                        (mkPoint 0 0) 1.0 1.0 1.0 true (mkVelocity 0 0 0) None)
                     [] 1%nat true []).
  { subst es. unfold oneFinger. repeat camera_event. reflexivity. }
  assert (Hdt : 100 < 1150 - v_timestamp (velocity (ctl (run es initial))) \/
                1150 - v_timestamp (velocity (ctl (run es initial))) <= 0).
  { left. rewrite Hrun. cbn. lra. }
  destruct (release_resyncs_velocity es (lift 100 100) 1150
              (mkTouchPoint 0 100 100 1000)
              ltac:(rewrite Hrun; reflexivity) ltac:(rewrite Hrun; reflexivity)
              ltac:(rewrite Hrun; reflexivity) ltac:(rewrite Hrun; reflexivity) Hdt)
    as (Hanchor & Hvel & _ & _ & Hquiet).
  split; [rewrite Hrun; cbn; lra|].
  split; [exact Hanchor|]. split; [exact Hvel|].
  intros n. rewrite (Hquiet n), Hrun. reflexivity.
Defined.

(** ** The decay of a session *)





(** The first three commands of that session: 9.2, then -0.736, then
    -0.67712 on the x axis. *)
Example momentum_session_first_commands :
  sessionTrace 3 1.0 (mkMomentumEnv 0 0 10 0)
  = [rotateCamera ((10 * 0.92 - 0) * 1.0) ((0 * 0.92 - 0) * 1.0);
     rotateCamera ((10 * 0.92 * 0.92 - 10 * 0.92) * 1.0)
                  ((0 * 0.92 * 0.92 - 0 * 0.92) * 1.0);
     rotateCamera ((10 * 0.92 * 0.92 * 0.92 - 10 * 0.92 * 0.92) * 1.0)
                  ((0 * 0.92 * 0.92 * 0.92 - 0 * 0.92 * 0.92) * 1.0)].
Proof.
  cbv beta iota zeta delta
    [sessionTrace stops next emitted velocityX velocityY lastX lastY
     MOMENTUM_FRICTION MOMENTUM_MIN_VELOCITY Rgtb app andb orb].
  repeat (first [Rabs_case | Rtest]; cbv beta iota zeta delta [app andb orb]).
  reflexivity.
Qed.

(** In a controller in use no frame ever issues a command: every session
    holds the velocity zero. *)
Lemma momentum_frames_issue_nothing (es : list Event) (handle : nat) :
  calls (step (run es initial) (AnimationFrame handle)) = calls (run es initial).
Proof.
  cbn [step]. apply session_inv_runAnimationFrame. apply session_inv_reachable.
Qed.

(** ** A disabled controller *)

(** While the controller is disabled the touch handlers change nothing and
    issue nothing. *)
Theorem disabled_controller_ignores_touches :
  forall (w : World) (event : Dom.TouchEvent) (now : R),
    enabled (ctl w) = false ->
    handleTouchStart event now w = w /\
    handleTouchMove event now w = w /\
    handleTouchEnd event now w = w /\
    handleTouchCancel event now w = w.
Proof.
  intros w event now Hen.
  unfold handleTouchCancel, handleTouchStart, handleTouchMove, handleTouchEnd.
  rewrite Hen. repeat split.
Qed.

Lemma disabled_controller_scenario :
  calls (handleTouchMove (oneFinger 150 100) 16
           (handleTouchStart (oneFinger 100 100) 0 (disable initial))) = [].
Proof.
  destruct (disabled_controller_ignores_touches (disable initial) (oneFinger 100 100) 0
              eq_refl) as (Hstart & _).
  rewrite Hstart.
  destruct (disabled_controller_ignores_touches (disable initial) (oneFinger 150 100) 16
              eq_refl) as (_ & Hmove & _).
  rewrite Hmove. reflexivity.
Defined.

(** ** Tracked contacts *)

Lemma JsMap_get_set {V : Type} (k k' : Z) (v : V) (m : JsMap.t V) :
  JsMap.get k (JsMap.set k' v m) = if Z.eqb k k' then Some v else JsMap.get k m.
Proof.
  induction m as [|[k0 v0] m IH]; cbn [JsMap.set JsMap.get].
  - reflexivity.
  - destruct (Z.eqb k' k0) eqn:H0; cbn [JsMap.get].
    + apply Z.eqb_eq in H0. subst k0.
      destruct (Z.eqb k k'); reflexivity.
    + destruct (Z.eqb k k0) eqn:H1.
      * apply Z.eqb_eq in H1. subst k0.
        rewrite Z.eqb_sym in H0. rewrite H0. reflexivity.
      * exact IH.
Qed.

Lemma JsMap_set_fresh {V : Type} (k : Z) (v : V) (m : JsMap.t V) :
  ~ In k (map fst m) -> JsMap.set k v m = m ++ [(k, v)].
Proof.
  induction m as [|[k0 v0] m IH]; intros Hk; cbn [JsMap.set app].
  - reflexivity.
  - cbn [map fst In] in Hk.
    destruct (Z.eqb k k0) eqn:H0.
    + apply Z.eqb_eq in H0. subst. exfalso. apply Hk. left. reflexivity.
    + rewrite IH; [reflexivity|]. intros Hin. apply Hk. right. exact Hin.
Qed.

Lemma trackTouches_cons (now : R) (touch : Dom.Touch) (ts : list Dom.Touch)
  (m : JsMap.t TouchPoint) :
  trackTouches now (touch :: ts) m
  = trackTouches now ts (JsMap.set (Dom.identifier touch) (pointOf now touch) m).
Proof. reflexivity. Qed.

(** Tracking contacts of distinct identifiers appends them in order. *)
Lemma trackTouches_fresh (now : R) (ts : list Dom.Touch) :
  forall m : JsMap.t TouchPoint,
    NoDup (map Dom.identifier ts) ->
    (forall touch, In touch ts -> ~ In (Dom.identifier touch) (map fst m)) ->
    trackTouches now ts m = m ++ contactsOf now ts.
Proof.
  induction ts as [|touch ts IH]; intros m Hnd Hfresh.
  - cbn. rewrite app_nil_r. reflexivity.
  - cbn [map] in Hnd. inversion Hnd as [|k l Hk Hnd']; subst.
    rewrite trackTouches_cons.
    rewrite (JsMap_set_fresh _ _ m) by (apply Hfresh; left; reflexivity).
    rewrite IH.
    + unfold contactsOf. cbn [map]. rewrite <- app_assoc. reflexivity.
    + exact Hnd'.
    + intros t Ht. rewrite map_app, in_app_iff. cbn [map fst In].
      intros [Hin | [Heq | []]].
      * exact (Hfresh t (or_intror Ht) Hin).
      * apply Hk. rewrite Heq. apply in_map. exact Ht.
Qed.

Lemma trackTouches_empty (now : R) (ts : list Dom.Touch) :
  NoDup (map Dom.identifier ts) ->
  trackTouches now ts JsMap.empty = contactsOf now ts.
Proof.
  intros Hnd. rewrite trackTouches_fresh; [reflexivity | exact Hnd |].
  intros touch _ [].
Qed.

Lemma trackTouches_get (now : R) (ts : list Dom.Touch) :
  forall (m : JsMap.t TouchPoint) (k : Z),
    NoDup (map Dom.identifier ts) ->
    JsMap.get k (trackTouches now ts m)
    = match JsMap.get k (contactsOf now ts) with
      | Some point => Some point
      | None => JsMap.get k m
      end.
Proof.
  induction ts as [|touch ts IH]; intros m k Hnd; [reflexivity|].
  cbn [map] in Hnd. inversion Hnd as [|k0 l Hk Hnd']; subst.
  rewrite trackTouches_cons.
  rewrite IH by exact Hnd'. cbn [contactsOf map JsMap.get].
  fold (contactsOf now ts).
  destruct (Z.eqb k (Dom.identifier touch)) eqn:Hkt.
  - apply Z.eqb_eq in Hkt. subst k.
    assert (Hnone : JsMap.get (Dom.identifier touch) (contactsOf now ts) = None).
    { clear -Hk. induction ts as [|t ts IH]; [reflexivity|].
      cbn [contactsOf map JsMap.get]. fold (contactsOf now ts).
      cbn [map In] in Hk.
      destruct (Z.eqb (Dom.identifier touch) (Dom.identifier t)) eqn:He.
      - apply Z.eqb_eq in He. exfalso. apply Hk. left. symmetry. exact He.
      - apply IH. intros Hin. apply Hk. right. exact Hin. }
    rewrite Hnone, JsMap_get_set, Z.eqb_refl. reflexivity.
  - rewrite JsMap_get_set, Hkt. reflexivity.
Qed.

Lemma size_contactsOf (now : R) (ts : list Dom.Touch) :
  JsMap.size (contactsOf now ts) = length ts.
Proof. unfold JsMap.size, contactsOf. apply length_map. Qed.

(** ** The queued animation frame *)

(** In a controller in use the browser holds exactly the animation frame
    whose handle the controller holds, and none when it holds none: no frame
    is left behind that [stopMomentum] could not cancel. *)
Theorem queued_frame_is_the_held_one (es : list Event) :
  map fst (frames (run es initial))
  = match momentumAnimationId (ctl (run es initial)) with
    | Some handle => [handle]
    | None => []
    end.
Proof.
  destruct (session_inv_reachable es) as [[Hid Hf] | [h [Hid Hf]]];
    rewrite Hid, Hf; reflexivity.
Qed.

(** ** The contacts after an event *)

(** On an enabled controller a touch-move and a touch-end replace the
    tracked contacts by the contacts the event lists, stamped with the time
    of the event; a touch-start adds the contacts it lists, or replaces
    them, and keeps every other tracked contact. *)
Theorem touch_events_resync_contacts :
  forall (w : World) (event : Dom.TouchEvent) (now : R),
    enabled (ctl w) = true ->
    NoDup (map Dom.identifier (Dom.touches event)) ->
    touches (ctl (handleTouchMove event now w)) = contactsOf now (Dom.touches event) /\
    touches (ctl (handleTouchEnd event now w)) = contactsOf now (Dom.touches event) /\
    (forall k : Z,
       JsMap.get k (touches (ctl (handleTouchStart event now w)))
       = match JsMap.get k (contactsOf now (Dom.touches event)) with
         | Some point => Some point
         | None => JsMap.get k (touches (ctl w))
         end).
Proof.
  intros w event now Hen Hnd. split; [|split].
  - destruct (handleTouchMove_frame event now w Hen) as [Ht _]. rewrite Ht.
    unfold classified. cbn [with_ctl ctl].
    destruct (updateGestureType_frame
                (set_touches (trackTouches now (Dom.touches event) JsMap.empty) (ctl w)))
      as (Hu & _).
    rewrite Hu. cbn [set_touches touches]. apply trackTouches_empty. exact Hnd.
  - unfold handleTouchEnd. rewrite Hen. cbn [negb with_ctl ctl].
    match goal with
    | |- touches (updateGestureType ?c) = _ =>
        destruct (updateGestureType_frame c) as (Hu & _); rewrite Hu
    end.
    cbn [set_touches touches]. apply trackTouches_empty. exact Hnd.
  - intros k. unfold handleTouchStart. rewrite Hen. cbn [negb with_ctl ctl].
    rewrite initGestureState_only. cbn [set_previousMidpoint set_previousDistance touches].
    match goal with
    | |- JsMap.get k (touches (updateGestureType ?c)) = _ =>
        destruct (updateGestureType_frame c) as (Hu & _); rewrite Hu
    end.
    cbn [set_touches touches]. rewrite stopMomentum_ctl.
    cbn [set_velocity set_momentumAnimationId touches].
    apply trackTouches_get. exact Hnd.
Qed.

Lemma lifted_contact_is_forgotten :
  touches (ctl (handleTouchEnd
                  (Dom.mkTouchEvent [Dom.mkTouch 1 200 100] [Dom.mkTouch 0 100 100]) 16
                  (run [TouchStart (oneFinger 100 100) 0] initial)))
  = [(1%Z, mkTouchPoint 1 200 100 16)].
Proof.
  refine (proj1 (proj2 (touch_events_resync_contacts
                          (run [TouchStart (oneFinger 100 100) 0] initial)
                          (Dom.mkTouchEvent [Dom.mkTouch 1 200 100] [Dom.mkTouch 0 100 100])
                          16 _ _))).
  - reflexivity.
  - cbn [Dom.touches map Dom.identifier].
    repeat constructor; cbn [In]; intros H; repeat destruct H as [H | H];
      try discriminate; exact H.
Defined.

(** ** The gesture type and the number of contacts *)

Lemma updateGestureType_agrees (c : Controller) :
  (JsMap.size (touches c) = 0%nat -> gestureType (updateGestureType c) = none) /\
  (JsMap.size (touches c) = 1%nat -> gestureType (updateGestureType c) = rotate) /\
  (JsMap.size (touches c) = 2%nat ->
   gestureType (updateGestureType c) = pinch \/ gestureType (updateGestureType c) = pan) /\
  ((3 <= JsMap.size (touches c))%nat -> updateGestureType c = c).
Proof.
  unfold updateGestureType.
  destruct (JsMap.size (touches c)) as [|[|[|n]]] eqn:Hsize.
  - repeat split; intros; try discriminate; try lia; reflexivity.
  - repeat split; intros; try discriminate; try lia; reflexivity.
  - destruct (values_of_size_two _ Hsize) as (t0 & t1 & Hv). rewrite Hv.
    repeat split; intros; try discriminate; try lia.
    destruct (Reqb (previousDistance c) 0); [left; reflexivity|].
    destruct (Rgtb _ 5); [left | right]; reflexivity.
  - repeat split; intros; try discriminate; reflexivity.
Qed.

Lemma gesture_inv_classify (c : Controller) (w : World) (w' : World) :
  touches (ctl w') = touches (updateGestureType c) ->
  gestureType (ctl w') = gestureType (updateGestureType c) ->
  JsMap.size (touches c) = 0%nat \/ JsMap.size (touches c) = 1%nat \/
  JsMap.size (touches c) = 2%nat \/
  ((3 <= JsMap.size (touches c))%nat) ->
  gesture_inv w'.
Proof.
  intros Ht Hg _. unfold gesture_inv. rewrite Ht, Hg.
  destruct (updateGestureType_frame c) as (Hu & _). rewrite Hu.
  destruct (updateGestureType_agrees c) as (H0 & H1 & H2 & _).
  split; [exact H1 | split; [exact H2 | intros _; exact H0]].
Qed.

Lemma gesture_inv_state (w w' : World) :
  touches (ctl w') = touches (ctl w) ->
  gestureType (ctl w') = gestureType (ctl w) ->
  attached w' = attached w ->
  gesture_inv w -> gesture_inv w'.
Proof.
  unfold gesture_inv. intros Ht Hg Ha. rewrite Ht, Hg, Ha. exact (fun x => x).
Qed.

Lemma stopMomentum_attached (w : World) : attached (stopMomentum w) = attached w.
Proof.
  unfold stopMomentum. destruct (momentumAnimationId (ctl w)); reflexivity.
Qed.

Lemma animate_gesture (env : MomentumEnv) (w : World) :
  touches (ctl (animate env w)) = touches (ctl w) /\
  gestureType (ctl (animate env w)) = gestureType (ctl w) /\
  attached (animate env w) = attached w.
Proof.
  unfold animate.
  destruct (Rltb _ MOMENTUM_MIN_VELOCITY && Rltb _ MOMENTUM_MIN_VELOCITY).
  - rewrite stopMomentum_ctl, stopMomentum_attached. repeat split.
  - destruct (Rgtb _ 0.01 || Rgtb _ 0.01); repeat split.
Qed.

Lemma gesture_inv_step (w : World) (e : Event) :
  gesture_inv w -> gesture_inv (step w e).
Proof.
  intros Hinv.
  destruct e as [event now | event now | event now | event now
                | handle | s | s | s | b | | |];
    cbn [step].
  - destruct (attached w); [|exact Hinv].
    unfold handleTouchStart. destruct (negb (enabled (ctl w))); [exact Hinv|].
    match goal with
    | |- gesture_inv (with_ctl initGestureState (with_ctl updateGestureType ?w2)) =>
        apply (gesture_inv_classify (ctl w2) w)
    end.
    + cbn [with_ctl ctl]. rewrite initGestureState_only. reflexivity.
    + cbn [with_ctl ctl]. rewrite initGestureState_only. reflexivity.
    + lia.
  - destruct (attached w); [|exact Hinv].
    destruct (enabled (ctl w)) eqn:Hen.
    + destruct (handleTouchMove_frame event now w Hen) as [Ht Hg].
      apply (gesture_inv_classify
               (set_touches (trackTouches now (Dom.touches event) JsMap.empty) (ctl w)) w).
      * rewrite Ht. reflexivity.
      * rewrite Hg. reflexivity.
      * lia.
    + unfold handleTouchMove. rewrite Hen. exact Hinv.
  - destruct (attached w); [|exact Hinv].
    unfold handleTouchEnd. destruct (negb (enabled (ctl w))); [exact Hinv|].
    match goal with
    | |- gesture_inv (with_ctl updateGestureType ?w3) =>
        apply (gesture_inv_classify (ctl w3) w)
    end; [reflexivity | reflexivity | lia].
  - destruct (attached w); [|exact Hinv].
    unfold handleTouchCancel, handleTouchEnd.
    destruct (negb (enabled (ctl w))); [exact Hinv|].
    match goal with
    | |- gesture_inv (with_ctl updateGestureType ?w3) =>
        apply (gesture_inv_classify (ctl w3) w)
    end; [reflexivity | reflexivity | lia].
  - unfold runAnimationFrame. destruct (frame_lookup handle w); [|exact Hinv].
    destruct (animate_gesture m (cancelAnimationFrame handle w)) as (Ht & Hg & Ha).
    apply (gesture_inv_state w); assumption.
  - exact (gesture_inv_state w _ eq_refl eq_refl eq_refl Hinv).
  - exact (gesture_inv_state w _ eq_refl eq_refl eq_refl Hinv).
  - exact (gesture_inv_state w _ eq_refl eq_refl eq_refl Hinv).
  - unfold setMomentumEnabled. destruct b; cbn [negb].
    + exact (gesture_inv_state w _ eq_refl eq_refl eq_refl Hinv).
    + apply (gesture_inv_state w); [| | | exact Hinv].
      * rewrite stopMomentum_ctl. reflexivity.
      * rewrite stopMomentum_ctl. reflexivity.
      * rewrite stopMomentum_attached. reflexivity.
  - exact (gesture_inv_state w _ eq_refl eq_refl eq_refl Hinv).
  - unfold disable, gesture_inv. rewrite stopMomentum_ctl, stopMomentum_attached.
    cbn [with_ctl ctl set_velocity set_momentumAnimationId set_gestureType
         set_touches touches gestureType JsMap.size JsMap.empty length].
    repeat split; intros; try discriminate; reflexivity.
  - unfold destroy, gesture_inv.
    cbn [with_ctl ctl set_attached attached set_touches touches JsMap.size
         JsMap.empty length].
    repeat split; intros; discriminate.
Qed.

Lemma gesture_inv_run (es : list Event) :
  forall w, gesture_inv w -> gesture_inv (run es w).
Proof.
  induction es as [|e es IH]; intros w Hinv; [exact Hinv|].
  cbn [run]. apply IH. apply gesture_inv_step. exact Hinv.
Qed.

(** In a controller in use the reported gesture agrees with the number of
    tracked contacts: one contact is a Rotate, two are a Pinch or a Pan, and
    none is no gesture as long as the listeners are attached ([destroy]
    clears the contacts without resetting the gesture). *)
Theorem gesture_agrees_with_contacts (es : list Event) :
  (JsMap.size (touches (ctl (run es initial))) = 1%nat ->
   gestureType (ctl (run es initial)) = rotate) /\
  (JsMap.size (touches (ctl (run es initial))) = 2%nat ->
   gestureType (ctl (run es initial)) = pinch \/
   gestureType (ctl (run es initial)) = pan) /\
  (attached (run es initial) = true ->
   JsMap.size (touches (ctl (run es initial))) = 0%nat ->
   gestureType (ctl (run es initial)) = none).
Proof.
  apply (gesture_inv_run es initial). unfold gesture_inv.
  repeat split; intros; try discriminate; reflexivity.
Qed.

Lemma gesture_agrees_after_a_press :
  gestureType (ctl (run [TouchStart (oneFinger 100 100) 0] initial)) = rotate /\
  gestureType (ctl (run [TouchStart (oneFinger 100 100) 0; Destroy] initial)) = rotate /\
  JsMap.size (touches (ctl (run [TouchStart (oneFinger 100 100) 0; Destroy] initial)))
  = 0%nat.
Proof.
  split; [|split].
  - apply (gesture_agrees_with_contacts [TouchStart (oneFinger 100 100) 0]).
    reflexivity.
  - unfold oneFinger. camera_run fail. reflexivity.
  - reflexivity.
Defined.

(** ** A third contact *)

(** A move sample with three or more contacts only updates the tracked
    contacts: no camera command is issued and the gesture type and the two
    anchors stay what they were. *)
Theorem third_contact_freezes_the_gesture :
  forall (w : World) (event : Dom.TouchEvent) (now : R),
    NoDup (map Dom.identifier (Dom.touches event)) ->
    (3 <= length (Dom.touches event))%nat ->
    calls (handleTouchMove event now w) = calls w /\
    gestureType (ctl (handleTouchMove event now w)) = gestureType (ctl w) /\
    previousDistance (ctl (handleTouchMove event now w)) = previousDistance (ctl w) /\
    previousMidpoint (ctl (handleTouchMove event now w)) = previousMidpoint (ctl w).
Proof.
  intros w event now Hnd Hlen. unfold handleTouchMove.
  destruct (negb (enabled (ctl w))); [repeat split|].
  fold (classified event now w).
  assert (Hc : classified event now w
               = with_ctl (set_touches (contactsOf now (Dom.touches event))) w).
  { unfold classified. rewrite (trackTouches_empty now _ Hnd).
    set (c := set_touches (contactsOf now (Dom.touches event)) (ctl w)).
    assert (Hu : updateGestureType c = c).
    { apply updateGestureType_agrees. subst c. cbn [set_touches touches].
      rewrite size_contactsOf. exact Hlen. }
    unfold with_ctl. cbn [ctl frames nextFrame attached calls]. fold c.
    rewrite Hu. reflexivity. }
  rewrite Hc. cbn [with_ctl ctl set_touches touches gestureType].
  rewrite size_contactsOf.
  destruct (length (Dom.touches event)) as [|[|[|n]]]; try lia.
  cbn [Nat.eqb]. rewrite !andb_false_r. repeat split.
Qed.

Lemma third_contact_scenario :
  calls (handleTouchMove
           (Dom.mkTouchEvent
              [Dom.mkTouch 0 100 100; Dom.mkTouch 1 200 100; Dom.mkTouch 2 300 100] [])
           16 (run [TouchStart (twoFingers 100 100 200 100) 0] initial))
  = calls (run [TouchStart (twoFingers 100 100 200 100) 0] initial).
Proof.
  apply third_contact_freezes_the_gesture.
  - cbn [Dom.touches map Dom.identifier].
    repeat constructor; cbn [In]; intros H; repeat destruct H as [H | H];
      try discriminate; exact H.
  - cbn [Dom.touches length]. lia.
Defined.

(** ** After [destroy] *)

Lemma silent_step (w : World) (e : Event) :
  silent w -> silent (step w e) /\ calls (step w e) = calls w.
Proof.
  intros [Ha Hf].
  destruct e as [event now | event now | event now | event now
                | handle | s | s | s | b | | |];
    cbn [step]; rewrite ?Ha; try (split; [split; assumption | reflexivity]).
  - rewrite (runAnimationFrame_idle w handle Hf).
    split; [split; assumption | reflexivity].
  - unfold setMomentumEnabled. destruct b; cbn [negb].
    + split; [split; assumption | reflexivity].
    + match goal with
      | |- silent (stopMomentum ?w1) /\ _ =>
          destruct (stopMomentum_idle w1 (or_introl Hf)) as ([_ Hf'] & _ & Hc & _ & _ & Ha')
      end.
      rewrite Hc. split; [split; [rewrite Ha'; exact Ha | exact Hf'] | reflexivity].
  - unfold disable.
    match goal with
    | |- silent (stopMomentum ?w1) /\ _ =>
        destruct (stopMomentum_idle w1 (or_introl Hf)) as ([_ Hf'] & _ & Hc & _ & _ & Ha')
    end.
    rewrite Hc. split; [split; [rewrite Ha'; exact Ha | exact Hf'] | reflexivity].
  - unfold destroy.
    destruct (stopMomentum_idle w (or_introl Hf)) as ([_ Hf'] & _ & Hc & _ & _ & Ha').
    cbn [with_ctl set_attached calls]. rewrite Hc.
    split; [split; [reflexivity | exact Hf'] | reflexivity].
Qed.

Lemma silent_run (es : list Event) :
  forall w, silent w -> calls (run es w) = calls w.
Proof.
  induction es as [|e es IH]; intros w Hs; [reflexivity|].
  cbn [run]. destruct (silent_step w e Hs) as [Hs' Hc].
  rewrite (IH _ Hs'). exact Hc.
Qed.

(** After [destroy] a controller never issues a camera command again,
    whatever touch events, animation frames and method calls follow. *)
Theorem destroyed_controller_is_silent (before after : list Event) :
  calls (run after (destroy (run before initial))) = calls (run before initial).
Proof.
  rewrite silent_run.
  - unfold destroy. cbn [with_ctl set_attached calls].
    apply (stopMomentum_idle (run before initial)).
    apply session_inv_stoppable, session_inv_reachable.
  - unfold destroy, silent. cbn [with_ctl set_attached attached frames].
    split; [reflexivity|].
    apply (stopMomentum_idle (run before initial)).
    apply session_inv_stoppable, session_inv_reachable.
Qed.

(** ** A drag as a whole *)

Lemma rotate_move_world (w : World) (event : Dom.TouchEvent) (now : R)
  (touch : Dom.Touch) (previous : TouchPoint) :
  enabled (ctl w) = true ->
  Dom.touches event = [touch] ->
  JsMap.get (Dom.identifier touch) (touches (ctl w)) = Some previous ->
  handleTouchMove event now w
  = issue (rotateCamera
             ((Dom.clientX touch - x previous) * rotationSensitivity (ctl w))
             ((Dom.clientY touch - y previous) * rotationSensitivity (ctl w)))
      (with_ctl (fun c => set_gestureType rotate
                            (set_touches (contactsOf now [touch]) c)) w).
Proof.
  intros Hen Hev Hget.
  assert (Hc : classified event now w
               = with_ctl (fun c => set_gestureType rotate
                                      (set_touches (contactsOf now [touch]) c)) w).
  { unfold classified. rewrite Hev. reflexivity. }
  unfold handleTouchMove. rewrite Hen. cbn [negb]. fold (classified event now w).
  rewrite Hc.
  cbn [with_ctl ctl set_gestureType set_touches gestureType touches GestureType_eqb
       contactsOf map JsMap.size length Nat.eqb andb].
  unfold handleRotateGesture.
  cbn [with_ctl ctl set_gestureType set_touches touches JsMap.values map snd
       pointOf id x y rotationSensitivity].
  rewrite Hget. reflexivity.
Qed.

Lemma last_shift {A : Type} (l : list A) :
  forall a d : A, last (a :: l) d = last l a.
Proof.
  induction l as [|b l IH]; intros a d; [reflexivity|].
  change (last (a :: b :: l) d) with (last (b :: l) d).
  rewrite !IH. reflexivity.
Qed.

Lemma drag_rotates (samples : list (Dom.Touch * R)) :
  forall (w : World) (i : Z) (start : TouchPoint),
    enabled (ctl w) = true ->
    attached w = true ->
    JsMap.get i (touches (ctl w)) = Some start ->
    Forall (fun s => Dom.identifier (fst s) = i) samples ->
    exists cs,
      calls (run (map moveOf samples) w) = calls w ++ cs /\
      length cs = length samples /\
      Forall isRotate cs /\
      rotationTotal cs
      = ((fst (endOf start samples) - x start) * rotationSensitivity (ctl w),
         (snd (endOf start samples) - y start) * rotationSensitivity (ctl w)).
Proof.
  induction samples as [|[touch now] samples IH]; intros w i start Hen Hat Hget Hall.
  - exists []. cbn [map run]. rewrite app_nil_r.
    repeat split; [constructor|].
    unfold endOf. cbn [map last fst snd rotationTotal fold_right]. f_equal; lra.
  - inversion Hall as [|s l Hi Hall']; subst. cbn [fst] in Hget.
    cbn [map run moveOf step fst snd]. rewrite Hat.
    rewrite (rotate_move_world w (Dom.mkTouchEvent [touch] [touch]) now touch start
               Hen eq_refl Hget).
    match goal with |- context [run _ ?w1] => set (w1' := w1) end.
    destruct (IH w1' (Dom.identifier touch) (pointOf now touch)) as (cs & Hc & Hl & Hr & Ht).
    + exact Hen.
    + exact Hat.
    + subst w1'. cbn [issue with_ctl ctl set_gestureType set_touches touches
                      contactsOf map JsMap.get]. rewrite Z.eqb_refl. reflexivity.
    + exact Hall'.
    + exists (rotateCamera
                ((Dom.clientX touch - x start) * rotationSensitivity (ctl w))
                ((Dom.clientY touch - y start) * rotationSensitivity (ctl w)) :: cs).
      split; [|split; [|split]].
      * rewrite Hc. subst w1'. cbn [issue calls with_ctl].
        rewrite <- app_assoc. reflexivity.
      * cbn [length]. rewrite Hl. reflexivity.
      * constructor; [exact I | exact Hr].
      * unfold rotationTotal. cbn [fold_right]. fold (rotationTotal cs). rewrite Ht.
        subst w1'. cbn [issue with_ctl ctl set_gestureType set_touches
                        rotationSensitivity fst snd pointOf x y].
        assert (He : endOf start ((touch, now) :: samples)
                     = endOf (pointOf now touch) samples).
        { unfold endOf. cbn [map fst snd pointOf x y]. apply last_shift. }
        rewrite He. f_equal; lra.
Qed.

(** A drag of one tracked contact rotates the camera, one command a sample,
    and the commands add up to the displacement of the contact from where it
    was tracked to its last sample, scaled by the rotation sensitivity. *)
Theorem drag_rotates_by_its_displacement :
  forall (w : World) (start : TouchPoint) (samples : list (Dom.Touch * R)),
    enabled (ctl w) = true ->
    attached w = true ->
    JsMap.get (id start) (touches (ctl w)) = Some start ->
    Forall (fun s => Dom.identifier (fst s) = id start) samples ->
    exists cs,
      calls (run (map moveOf samples) w) = calls w ++ cs /\
      length cs = length samples /\
      Forall isRotate cs /\
      rotationTotal cs
      = ((fst (endOf start samples) - x start) * rotationSensitivity (ctl w),
         (snd (endOf start samples) - y start) * rotationSensitivity (ctl w)).
Proof.
  intros w start samples Hen Hat Hget Hall.
  exact (drag_rotates samples w (id start) start Hen Hat Hget Hall).
Qed.

Lemma drag_scenario :
  exists cs,
    calls (run (map moveOf [(Dom.mkTouch 0 110 105, 16); (Dom.mkTouch 0 130 90, 32)])
             (run [TouchStart (oneFinger 100 100) 0] initial))
    = calls (run [TouchStart (oneFinger 100 100) 0] initial) ++ cs /\
    length cs = 2%nat /\
    Forall isRotate cs /\
    rotationTotal cs = ((130 - 100) * 1.0, (90 - 100) * 1.0).
Proof.
  apply (drag_rotates_by_its_displacement
           (run [TouchStart (oneFinger 100 100) 0] initial)
           (mkTouchPoint 0 100 100 0)
           [(Dom.mkTouch 0 110 105, 16); (Dom.mkTouch 0 130 90, 32)]).
  - reflexivity.
  - reflexivity.
  - reflexivity.
  - repeat constructor.
Defined.

(** ** Moves of two contacts as a whole *)

(** What a move sample with two contacts does. *)
Lemma pair_move_step (w : World) (a b : Dom.Touch) (now : R) :
  enabled (ctl w) = true ->
  Dom.identifier a <> Dom.identifier b ->
  let w' := handleTouchMove (Dom.mkTouchEvent [a; b] []) now w in
  enabled (ctl w') = true /\
  attached w' = attached w /\
  zoomSensitivity (ctl w') = zoomSensitivity (ctl w) /\
  panSensitivity (ctl w') = panSensitivity (ctl w) /\
  if pinchTest (previousDistance (ctl w)) (spread a b)
  then
    calls w'
    = calls w ++
      (if Rgtb (previousDistance (ctl w)) 0
       then [zoomCamera (- (spread a b - previousDistance (ctl w)) * 0.01
                         * zoomSensitivity (ctl w))]
       else []) /\
    previousDistance (ctl w') = spread a b /\
    previousMidpoint (ctl w') = previousMidpoint (ctl w)
  else
    calls w'
    = calls w ++
      (if Rneqb (p_x (previousMidpoint (ctl w))) 0
          && Rneqb (p_y (previousMidpoint (ctl w))) 0
       then [panCamera
               ((p_x (middle a b) - p_x (previousMidpoint (ctl w)))
                * panSensitivity (ctl w))
               ((p_y (middle a b) - p_y (previousMidpoint (ctl w)))
                * panSensitivity (ctl w))]
       else []) /\
    previousDistance (ctl w') = previousDistance (ctl w) /\
    previousMidpoint (ctl w') = middle a b.
Proof.
  intros Hen Hab w'.
  set (event := Dom.mkTouchEvent [a; b] []) in *.
  set (g := if pinchTest (previousDistance (ctl w)) (spread a b) then pinch else pan).
  assert (Hc : classified event now w
               = with_ctl (fun c => set_gestureType g
                                      (set_touches (contactsOf now [a; b]) c)) w).
  { unfold classified. subst event. cbn [Dom.touches].
    rewrite trackTouches_empty.
    2:{ cbn [map]. constructor; [cbn [In]; intros [H | []]; congruence|].
        constructor; [intros [] | constructor]. }
    unfold with_ctl at 1. cbn [with_ctl ctl frames nextFrame attached calls].
    rewrite updateGestureType_only.
    rewrite (updateGestureType_two _ (pointOf now a) (pointOf now b));
      [reflexivity | reflexivity | reflexivity]. }
  assert (Hmove : w' = if pinchTest (previousDistance (ctl w)) (spread a b)
                       then handlePinchGesture (classified event now w)
                       else handlePanGesture (classified event now w)).
  { subst w'. unfold handleTouchMove. rewrite Hen. cbn [negb].
    fold (classified event now w). rewrite Hc. subst g.
    cbn [with_ctl ctl set_gestureType set_touches gestureType touches contactsOf
         map JsMap.size length Nat.eqb].
    destruct (pinchTest (previousDistance (ctl w)) (spread a b)); reflexivity. }
  rewrite Hmove, Hc. subst g.
  destruct (pinchTest (previousDistance (ctl w)) (spread a b)).
  - unfold handlePinchGesture.
    cbn [with_ctl ctl set_gestureType set_touches touches contactsOf map
         JsMap.values snd previousDistance].
    destruct (Rgtb (previousDistance (ctl w)) 0);
      cbn [with_ctl issue ctl set_previousDistance set_gestureType set_touches
           enabled attached zoomSensitivity panSensitivity calls previousDistance
           previousMidpoint];
      rewrite ?app_nil_r; repeat split; assumption.
  - unfold handlePanGesture.
    cbn [with_ctl ctl set_gestureType set_touches touches contactsOf map
         JsMap.values snd previousMidpoint panSensitivity].
    destruct (Rneqb (p_x (previousMidpoint (ctl w))) 0
              && Rneqb (p_y (previousMidpoint (ctl w))) 0);
      cbn [with_ctl issue ctl set_previousMidpoint set_gestureType set_touches
           enabled attached zoomSensitivity panSensitivity calls previousDistance
           previousMidpoint];
      rewrite ?app_nil_r; repeat split; assumption.
Qed.

Lemma zoomTotal_app (cs1 cs2 : list CameraCall) :
  zoomTotal (cs1 ++ cs2) = zoomTotal cs1 + zoomTotal cs2.
Proof.
  induction cs1 as [|c cs1 IH]; cbn [app].
  - unfold zoomTotal at 2. cbn [fold_right]. lra.
  - change (zoomTotal (c :: cs1 ++ cs2))
      with (match c with zoomCamera delta => delta + zoomTotal (cs1 ++ cs2)
                    | _ => zoomTotal (cs1 ++ cs2) end).
    change (zoomTotal (c :: cs1))
      with (match c with zoomCamera delta => delta + zoomTotal cs1
                    | _ => zoomTotal cs1 end).
    rewrite IH. destruct c; lra.
Qed.

Lemma panTotal_app (cs1 cs2 : list CameraCall) :
  panTotal (cs1 ++ cs2)
  = (fst (panTotal cs1) + fst (panTotal cs2), snd (panTotal cs1) + snd (panTotal cs2)).
Proof.
  induction cs1 as [|c cs1 IH]; cbn [app].
  - unfold panTotal at 2 4. cbn [fold_right fst snd].
    destruct (panTotal cs2) as [u v]. cbn [fst snd]. f_equal; lra.
  - change (panTotal (c :: cs1 ++ cs2))
      with (match c with
            | panCamera deltaX deltaY =>
                (deltaX + fst (panTotal (cs1 ++ cs2)), deltaY + snd (panTotal (cs1 ++ cs2)))
            | _ => panTotal (cs1 ++ cs2) end).
    change (panTotal (c :: cs1))
      with (match c with
            | panCamera deltaX deltaY =>
                (deltaX + fst (panTotal cs1), deltaY + snd (panTotal cs1))
            | _ => panTotal cs1 end).
    rewrite IH. destruct c; cbn [fst snd]; try reflexivity. f_equal; lra.
Qed.

Lemma pinch_zoom_total (samples : list (Dom.Touch * Dom.Touch * R)) :
  forall w : World,
    enabled (ctl w) = true ->
    attached w = true ->
    0 < previousDistance (ctl w) ->
    Forall apart samples ->
    exists cs,
      calls (run (map pairMove samples) w) = calls w ++ cs /\
      zoomTotal cs
      = - (previousDistance (ctl (run (map pairMove samples) w))
           - previousDistance (ctl w)) * 0.01 * zoomSensitivity (ctl w) /\
      Rabs (lastSpread (previousDistance (ctl w)) samples
            - previousDistance (ctl (run (map pairMove samples) w))) <= 5.
Proof.
  induction samples as [|[[a b] now] samples IH]; intros w Hen Hat Hpos Hall.
  - exists []. cbn [map run]. rewrite app_nil_r. split; [reflexivity|].
    unfold lastSpread, zoomTotal. cbn [map last fold_right].
    split; [lra|]. rewrite Rabs_eval_pos; lra.
  - inversion Hall as [|s l [Hab Hd] Hall']; subst. cbn [fst snd] in Hab, Hd.
    cbn [map run pairMove step fst snd]. rewrite Hat.
    destruct (pair_move_step w a b now Hen Hab) as (Hen' & Hat' & Hz & _ & Hstep).
    set (w1 := handleTouchMove (Dom.mkTouchEvent [a; b] []) now w) in *.
    assert (Hlast : forall d, lastSpread d ((a, b, now) :: samples)
                              = lastSpread (spread a b) samples).
    { intros d. unfold lastSpread. cbn [map fst snd]. apply last_shift. }
    rewrite Hat in Hat'.
    destruct (pinchTest (previousDistance (ctl w)) (spread a b)) eqn:Htest.
    + destruct Hstep as (Hc & Hp & _).
      assert (Hgt : Rgtb (previousDistance (ctl w)) 0 = true)
        by (apply Rltb_true; exact Hpos).
      rewrite Hgt in Hc.
      destruct (IH w1 Hen' Hat') as (cs & Hcs & Hzt & Hnear).
      { rewrite Hp. exact Hd. }
      { exact Hall'. }
      exists (zoomCamera (- (spread a b - previousDistance (ctl w)) * 0.01
                          * zoomSensitivity (ctl w)) :: cs).
      split; [|split].
      * rewrite Hcs, Hc, <- app_assoc. reflexivity.
      * change (zoomTotal (zoomCamera ?d :: cs)) with (d + zoomTotal cs).
        rewrite Hzt, Hz, Hp. lra.
      * rewrite Hlast. rewrite Hp in Hnear. exact Hnear.
    + destruct Hstep as (Hc & Hp & _).
      destruct (IH w1 Hen' Hat') as (cs & Hcs & Hzt & Hnear).
      { rewrite Hp. exact Hpos. }
      { exact Hall'. }
      rewrite Hp, Hz in Hzt. rewrite Hp in Hnear.
      match type of Hc with
      | _ = _ ++ ?pans => exists (pans ++ cs)
      end.
      split; [|split].
      * rewrite Hcs, Hc, <- app_assoc. reflexivity.
      * rewrite zoomTotal_app, Hzt.
        destruct (Rneqb _ 0 && Rneqb _ 0); unfold zoomTotal at 1;
          cbn [fold_right]; lra.
      * rewrite Hlast.
        destruct samples as [|s samples'].
        -- cbn [map run]. unfold lastSpread. cbn [map last]. rewrite Hp.
           unfold pinchTest in Htest. apply orb_false_iff in Htest.
           destruct Htest as [_ Htest]. unfold Rgtb in Htest.
           apply Rltb_iff_false in Htest. exact Htest.
        -- replace (lastSpread (spread a b) (s :: samples'))
             with (lastSpread (previousDistance (ctl w)) (s :: samples'))
             by (unfold lastSpread; cbn [map]; rewrite !last_shift; reflexivity).
           exact Hnear.
Qed.

(** Over a run of move samples of two contacts the zoom commands add up to
    the change of the stored distance, and the stored distance ends within 5
    units of the spread of the last sample: what the samples classified Pan
    leave out is made up by the next Pinch. *)
Theorem pinch_zoom_adds_up :
  forall (w : World) (samples : list (Dom.Touch * Dom.Touch * R)),
    enabled (ctl w) = true ->
    attached w = true ->
    0 < previousDistance (ctl w) ->
    Forall apart samples ->
    exists cs,
      calls (run (map pairMove samples) w) = calls w ++ cs /\
      zoomTotal cs
      = - (previousDistance (ctl (run (map pairMove samples) w))
           - previousDistance (ctl w)) * 0.01 * zoomSensitivity (ctl w) /\
      Rabs (zoomTotal cs
            + (lastSpread (previousDistance (ctl w)) samples
               - previousDistance (ctl w)) * 0.01 * zoomSensitivity (ctl w))
      <= 0.05 * Rabs (zoomSensitivity (ctl w)).
Proof.
  intros w samples Hen Hat Hpos Hall.
  destruct (pinch_zoom_total samples w Hen Hat Hpos Hall) as (cs & Hcs & Hzt & Hnear).
  exists cs. split; [exact Hcs | split; [exact Hzt|]].
  rewrite Hzt.
  set (final := previousDistance (ctl (run (map pairMove samples) w))) in *.
  set (lastD := lastSpread (previousDistance (ctl w)) samples) in *.
  replace (- (final - previousDistance (ctl w)) * 0.01 * zoomSensitivity (ctl w)
           + (lastD - previousDistance (ctl w)) * 0.01 * zoomSensitivity (ctl w))
    with ((lastD - final) * 0.01 * zoomSensitivity (ctl w)) by lra.
  rewrite !Rabs_mult. rewrite (Rabs_eval_pos 0.01) by lra.
  pose proof (Rabs_pos (zoomSensitivity (ctl w))). nra.
Qed.

Lemma pinch_zoom_scenario :
  exists cs,
    calls (run (map pairMove
                  [(Dom.mkTouch 0 100 100, Dom.mkTouch 1 203 100, 16);
                   (Dom.mkTouch 0 100 100, Dom.mkTouch 1 206 100, 32)])
             (run [TouchStart (twoFingers 100 100 200 100) 0] initial))
    = calls (run [TouchStart (twoFingers 100 100 200 100) 0] initial) ++ cs /\
    Rabs (zoomTotal cs + (106 - 100) * 0.01 * 1.0) <= 0.05 * Rabs 1.0.
Proof.
  assert (Hrun : run [TouchStart (twoFingers 100 100 200 100) 0] initial
                 = mkWorld
                     (mkController true
                        [(0%Z, mkTouchPoint 0 100 100 0); (1%Z, mkTouchPoint 1 200 100 0)]
                        pinch 100 (mkPoint ((100 + 200) / 2) ((100 + 100) / 2))
                        1.0 1.0 1.0 true (mkVelocity 0 0 0) None)
                     [] 1%nat true []).
  { unfold twoFingers. camera_run ltac:(sqrt_is 100). reflexivity. }
  rewrite Hrun.
  match goal with
  | |- context [run (map pairMove ?ss) ?w0] =>
      destruct (pinch_zoom_adds_up w0 ss) as (cs & Hcs & _ & Hnear)
  end.
  - reflexivity.
  - reflexivity.
  - cbn [ctl previousDistance]. lra.
  - repeat constructor; cbn [fst snd Dom.identifier]; try discriminate;
      unfold spread, calculateDistance, pointOf; cbn [x y Dom.clientX Dom.clientY];
      apply sqrt_lt_R0; lra.
  - exists cs. split; [exact Hcs|].
    unfold lastSpread in Hnear.
    cbn [map last fst snd ctl previousDistance zoomSensitivity] in Hnear.
    unfold spread, calculateDistance, pointOf in Hnear.
    cbn [x y Dom.clientX Dom.clientY] in Hnear.
    rewrite (sqrt_eval _ 106) in Hnear by lra. exact Hnear.
Defined.

Lemma pan_total (samples : list (Dom.Touch * Dom.Touch * R)) :
  forall w : World,
    enabled (ctl w) = true ->
    attached w = true ->
    p_x (previousMidpoint (ctl w)) <> 0 ->
    p_y (previousMidpoint (ctl w)) <> 0 ->
    Forall offAxes samples ->
    exists cs,
      calls (run (map pairMove samples) w) = calls w ++ cs /\
      panTotal cs
      = ((p_x (previousMidpoint (ctl (run (map pairMove samples) w)))
          - p_x (previousMidpoint (ctl w))) * panSensitivity (ctl w),
         (p_y (previousMidpoint (ctl (run (map pairMove samples) w)))
          - p_y (previousMidpoint (ctl w))) * panSensitivity (ctl w)).
Proof.
  induction samples as [|[[a b] now] samples IH]; intros w Hen Hat Hx Hy Hall.
  - exists []. cbn [map run]. rewrite app_nil_r. split; [reflexivity|].
    unfold panTotal. cbn [fold_right]. f_equal; lra.
  - inversion Hall as [|s l (Hab & Hmx & Hmy) Hall']; subst.
    cbn [fst snd] in Hab, Hmx, Hmy.
    cbn [map run pairMove step fst snd]. rewrite Hat.
    destruct (pair_move_step w a b now Hen Hab) as (Hen' & Hat' & _ & Hps & Hstep).
    set (w1 := handleTouchMove (Dom.mkTouchEvent [a; b] []) now w) in *.
    rewrite Hat in Hat'.
    destruct (pinchTest (previousDistance (ctl w)) (spread a b)).
    + destruct Hstep as (Hc & _ & Hm).
      destruct (IH w1 Hen' Hat') as (cs & Hcs & Hpt).
      { rewrite Hm. exact Hx. }
      { rewrite Hm. exact Hy. }
      { exact Hall'. }
      rewrite Hm, Hps in Hpt.
      match type of Hc with
      | _ = _ ++ ?zooms => exists (zooms ++ cs)
      end.
      split.
      * rewrite Hcs, Hc, <- app_assoc. reflexivity.
      * rewrite panTotal_app, Hpt.
        destruct (Rgtb (previousDistance (ctl w)) 0); unfold panTotal at 1 2;
          cbn [fold_right fst snd]; f_equal; lra.
    + destruct Hstep as (Hc & _ & Hm).
      assert (Hnz : Rneqb (p_x (previousMidpoint (ctl w))) 0
                    && Rneqb (p_y (previousMidpoint (ctl w))) 0 = true).
      { apply andb_true_iff. split; apply Rneqb_iff; assumption. }
      rewrite Hnz in Hc.
      destruct (IH w1 Hen' Hat') as (cs & Hcs & Hpt).
      { rewrite Hm. exact Hmx. }
      { rewrite Hm. exact Hmy. }
      { exact Hall'. }
      rewrite Hm, Hps in Hpt.
      match type of Hc with
      | _ = _ ++ [?c] => exists (c :: cs)
      end.
      split.
      * rewrite Hcs, Hc, <- app_assoc. reflexivity.
      * change (panTotal (panCamera ?u ?v :: cs))
          with (u + fst (panTotal cs), v + snd (panTotal cs)).
        rewrite Hpt. cbn [fst snd]. f_equal; lra.
Qed.

(** Over a run of move samples of two contacts the pan commands add up to
    the displacement of the stored midpoint, scaled by the pan sensitivity:
    the drift of the midpoint during samples classified Pinch is delivered
    by the next Pan. *)
Theorem pan_adds_up :
  forall (w : World) (samples : list (Dom.Touch * Dom.Touch * R)),
    enabled (ctl w) = true ->
    attached w = true ->
    p_x (previousMidpoint (ctl w)) <> 0 ->
    p_y (previousMidpoint (ctl w)) <> 0 ->
    Forall offAxes samples ->
    exists cs,
      calls (run (map pairMove samples) w) = calls w ++ cs /\
      panTotal cs
      = ((p_x (previousMidpoint (ctl (run (map pairMove samples) w)))
          - p_x (previousMidpoint (ctl w))) * panSensitivity (ctl w),
         (p_y (previousMidpoint (ctl (run (map pairMove samples) w)))
          - p_y (previousMidpoint (ctl w))) * panSensitivity (ctl w)).
Proof.
  intros w samples Hen Hat Hx Hy Hall.
  exact (pan_total samples w Hen Hat Hx Hy Hall).
Qed.

Lemma pan_after_pinch_scenario :
  exists cs,
    calls (run (map pairMove
                  [(Dom.mkTouch 0 100 100, Dom.mkTouch 1 220 100, 16);
                   (Dom.mkTouch 0 102 100, Dom.mkTouch 1 222 100, 32)])
             (run [TouchStart (twoFingers 100 100 200 100) 0] initial))
    = calls (run [TouchStart (twoFingers 100 100 200 100) 0] initial) ++ cs /\
    panTotal cs = ((162 - 150) * 1.0, (100 - 100) * 1.0).
Proof.
  assert (Hrun : run [TouchStart (twoFingers 100 100 200 100) 0] initial
                 = mkWorld
                     (mkController true
                        [(0%Z, mkTouchPoint 0 100 100 0); (1%Z, mkTouchPoint 1 200 100 0)]
                        pinch 100 (mkPoint ((100 + 200) / 2) ((100 + 100) / 2))
                        1.0 1.0 1.0 true (mkVelocity 0 0 0) None)
                     [] 1%nat true []).
  { unfold twoFingers. camera_run ltac:(sqrt_is 100). reflexivity. }
  rewrite Hrun.
  match goal with
  | |- context [run (map pairMove ?ss) ?w0] =>
      destruct (pan_adds_up w0 ss) as (cs & Hcs & Hpan)
  end.
  - reflexivity.
  - reflexivity.
  - cbn [ctl previousMidpoint p_x]. lra.
  - cbn [ctl previousMidpoint p_y]. lra.
  - repeat constructor; cbn [fst snd Dom.identifier]; try discriminate;
      unfold middle, calculateMidpoint, pointOf;
      cbn [x y p_x p_y Dom.clientX Dom.clientY]; lra.
  - exists cs. split; [exact Hcs|].
    rewrite Hpan. clear Hcs Hpan Hrun.
    cbn [map]. unfold pairMove. cbn [fst snd].
    match goal with
    | |- context [run ?es ?w0] =>
        camera_run_at (run es w0) ltac:(idtac; first [sqrt_is 120 | sqrt_is 100])
    end.
    cbn [ctl previousMidpoint p_x p_y panSensitivity]. f_equal; lra.
Defined.

End CameraTouchControllerProperties.

(** * Properties of TouchManager *)

Section TouchManagerProperties.

Import TouchManager.

(** ** Vocabulary of the properties *)

(** The notifications of the callbacks [l] for one event. *)
Definition notifications {E : Type} (mk : nat -> E -> Notification) (event : E)
  (l : list (Listener E)) : list Notification :=
  map (fun callback => mk (listener_id callback) event) l.

Definition origin : Dom.Rect := Dom.mkRect 0 0.

Definition press (x0 y0 : R) : Dom.TouchEvent :=
  Dom.mkTouchEvent [Dom.mkTouch 0 x0 y0] [].

Definition release (x0 y0 : R) : Dom.TouchEvent :=
  Dom.mkTouchEvent [] [Dom.mkTouch 0 x0 y0].


Definition sound {E : Type} (n : nat) : Listener E := mkListener n (fun _ => Normal).

(** Callbacks that return on every event. *)
Definition returning {E : Type} (l : list (Listener E)) : Prop :=
  forall event : E, Forall (fun callback => listener_run callback event = Normal) l.

(** A manager that reports nothing any more: its listeners are detached and
    it tracks no contact. *)
Definition retired (w : World) : Prop :=
  attached w = false /\ activeTouches (mgr w) = JsMap.empty.

(** The world with more notifications in its log. *)
Definition logged (ns : list Notification) (w : World) : World :=
  mkWorld (mgr w) (timers w) (nextTimer w) (attached w) (log w ++ ns).

(** The timer handles still to come are not in use, and none is 0. *)
Definition timers_fresh (w : World) : Prop :=
  (0 < nextTimer w)%nat /\ Forall (fun t => (fst t < nextTimer w)%nat) (timers w).

(** The touch point [handleTouchStart] stores for a contact. *)
Definition pressed (rect : Dom.Rect) (now : R) (touch : Dom.Touch) : TouchPoint :=
  mkTouchPoint (Dom.identifier touch)
    (Dom.clientX touch - Dom.left rect) (Dom.clientY touch - Dom.top rect)
    (Dom.clientX touch - Dom.left rect) (Dom.clientY touch - Dom.top rect) now.

(** A move event for one contact. *)
Definition slide (rect : Dom.Rect) (sample : Dom.Touch * R) : Event :=
  TouchMove (Dom.mkTouchEvent [fst sample] [fst sample]) rect (snd sample).

(** The contact [touch] is more than the long-press threshold away from
    where it was pressed ([start]). *)
Definition wanders (rect : Dom.Rect) (start touch : Dom.Touch) : bool :=
  Rgtb (sqrt (pow2 (Dom.clientX touch - Dom.left rect
                    - (Dom.clientX start - Dom.left rect))
              + pow2 (Dom.clientY touch - Dom.top rect
                      - (Dom.clientY start - Dom.top rect))))
    LONG_PRESS_MOVE_THRESHOLD_PX.

(** The last sample of a list of moves, or the press. *)
Definition lastTouch (start : Dom.Touch) (moves : list (Dom.Touch * R)) : Dom.Touch :=
  last (map fst moves) start.

(** The manager tracks the contact pressed at [start], now at [current];
    while the contact is [steady] its long-press timer is pending, and once
    it is not the timer is gone. *)
Definition held (w0 w : World) (timer : nat) (rect : Dom.Rect)
  (start current : Dom.Touch) (steady : bool) : Prop :=
  attached w = true /\
  dragCallbacks (mgr w) = dragCallbacks (mgr w0) /\
  longPressCallbacks (mgr w) = longPressCallbacks (mgr w0) /\
  (exists stamp,
     JsMap.get (Dom.identifier start) (activeTouches (mgr w))
     = Some (mkTouchPoint (Dom.identifier start)
               (Dom.clientX current - Dom.left rect)
               (Dom.clientY current - Dom.top rect)
               (Dom.clientX start - Dom.left rect)
               (Dom.clientY start - Dom.top rect) stamp)) /\
  if steady
  then JsMap.get (Dom.identifier start) (longPressTimers (mgr w)) = Some timer /\
       find (fun t => Nat.eqb (fst t) timer) (timers w)
       = Some (timer, Dom.identifier start) /\
       wanders rect start current = false
  else find (fun t => Nat.eqb (fst t) timer) (timers w) = None.

(** The callback is registered in the list. *)
Definition registered {E : Type} (callback : Listener E) (l : list (Listener E)) : bool :=
  existsb (fun c => Nat.eqb (listener_id c) (listener_id callback)) l.

(** A move event for two contacts. *)
Definition pinchMove (rect : Dom.Rect) (sample : Dom.Touch * Dom.Touch * R) : Event :=
  TouchMove (Dom.mkTouchEvent [fst (fst sample); snd (fst sample)] []) rect (snd sample).

(** The distance between two contacts on the canvas. *)
Definition gap (rect : Dom.Rect) (a b : Dom.Touch) : R :=
  sqrt (pow2 (Dom.clientX b - Dom.left rect - (Dom.clientX a - Dom.left rect))
        + pow2 (Dom.clientY b - Dom.top rect - (Dom.clientY a - Dom.top rect))).

(** The manager holds the contact at the position of [touch]. *)
Definition tracked (w : World) (rect : Dom.Rect) (touch : Dom.Touch) : Prop :=
  exists sx sy stamp,
    JsMap.get (Dom.identifier touch) (activeTouches (mgr w))
    = Some (mkTouchPoint (Dom.identifier touch)
              (Dom.clientX touch - Dom.left rect) (Dom.clientY touch - Dom.top rect)
              sx sy stamp).

(** The product of the scales a listener was notified of. *)
Definition scaleProduct (listener : nat) (ns : list Notification) : R :=
  fold_right
    (fun n product =>
       match n with
       | PinchNotified l event =>
           if Nat.eqb l listener then scale event * product else product
       | _ => product
       end)
    1 ns.

(** How many times a listener is registered. *)
Definition registrations {E : Type} (listener : nat) (l : list (Listener E)) : nat :=
  length (filter (fun c => Nat.eqb (listener_id c) listener) l).

(** The pair of contacts of the last sample, or the given pair. *)
Definition lastPair (first second : Dom.Touch)
  (samples : list (Dom.Touch * Dom.Touch * R)) : Dom.Touch * Dom.Touch :=
  last (map fst samples) (first, second).

(** The entries a touch-start adds for its contacts: touch points, timer
    handles by contact, and timers. *)
Definition pressedPoints (rect : Dom.Rect) (now : R) (ts : list Dom.Touch)
  : JsMap.t TouchPoint :=
  map (fun touch => (Dom.identifier touch, pressed rect now touch)) ts.

Fixpoint pressedTimers (timer : nat) (ts : list Dom.Touch) : JsMap.t nat :=
  match ts with
  | [] => []
  | touch :: ts' => (Dom.identifier touch, timer) :: pressedTimers (S timer) ts'
  end.

Fixpoint hostTimers (timer : nat) (ts : list Dom.Touch) : list (nat * Z) :=
  match ts with
  | [] => []
  | touch :: ts' => (timer, Dom.identifier touch) :: hostTimers (S timer) ts'
  end.

(** ** Dispatch to registered callbacks *)

Lemma notify_log (n : Notification) (w : World) :
  log (notify n w) = log w ++ [n] /\ mgr (notify n w) = mgr w /\
  timers (notify n w) = timers w.
Proof. repeat split. Qed.

Lemma forEach_call_returns {E : Type} (mk : nat -> E -> Notification) (event : E)
  (c : Listener E) (l : list (Listener E)) (w : World) :
  listener_run c event = Normal ->
  forEach (call mk event) (c :: l) w
  = forEach (call mk event) l (notify (mk (listener_id c) event) w).
Proof. intros Hc. cbn [forEach]. unfold seq, call. rewrite Hc. reflexivity. Qed.


(** Callbacks that return are all called, in the order of registration. *)
Lemma forEach_all_return {E : Type} (mk : nat -> E -> Notification) (event : E)
  (l : list (Listener E)) :
  forall w,
    Forall (fun callback => listener_run callback event = Normal) l ->
    fst (forEach (call mk event) l w) = Normal /\
    log (snd (forEach (call mk event) l w)) = log w ++ notifications mk event l /\
    mgr (snd (forEach (call mk event) l w)) = mgr w.
Proof.
  induction l as [|c l IH]; intros w Hall.
  - cbn. rewrite app_nil_r. repeat split.
  - inversion Hall as [|c' l' Hc Hl]; subst.
    rewrite (forEach_call_returns mk event c l w Hc).
    destruct (IH (notify (mk (listener_id c) event) w) Hl) as (H1 & H2 & H3).
    rewrite H1, H2, H3. cbn [notifications map notify log mgr].
    rewrite <- app_assoc. repeat split.
Qed.



(** ** Evaluation on concrete inputs *)

Lemma manager_run_cons (e : Event) (es : list Event) (w : World) :
  run (e :: es) w = run es (step w e).
Proof. reflexivity. Qed.

Lemma manager_run_nil (w : World) : run [] w = w.
Proof. reflexivity. Qed.

Ltac manager_unfold :=
  cbv beta iota zeta delta
    [step fold_left initial
     handleTouchStart handleTwoFingerGestures detectGestures updatePositions
     handleTouchMove handleTouchEnd handleTouchCancel
     onTap onLongPress onDrag onPinch destroy getActiveTouchCount
     runTimeout longPressTimeout startLongPressTimer cancelLongPressTimer
     clearTimeout
     triggerTapCallbacks triggerLongPressCallbacks triggerDragCallbacks
     triggerPinchCallbacks call forEach seq skip lift pow2 notify
     with_mgr set_activeTouches set_longPressTimers
     mgr timers nextTimer attached log
     activeTouches longPressTimers tapCallbacks longPressCallbacks
     dragCallbacks pinchCallbacks
     id x y startX startY timestamp
     listener_id listener_run
     TAP_THRESHOLD_MS TAP_MOVE_THRESHOLD_PX LONG_PRESS_DURATION_MS
     LONG_PRESS_MOVE_THRESHOLD_PX
     Rgtb
     JsMap.set JsMap.get JsMap.delete JsMap.size JsMap.values JsMap.empty
     Dom.identifier Dom.clientX Dom.clientY Dom.touches Dom.changedTouches
     Dom.left Dom.top
     app map filter find length fst snd negb andb orb
     Nat.eqb Z.eqb Pos.eqb].

Ltac root_is c :=
  idtac;
  match goal with
  | |- context [sqrt ?a] => rewrite (sqrt_eval a c) by lra
  end.

(** The next event of a [run]; [roots] rewrites the square roots that
    occur. *)
Ltac manager_event_with roots :=
  rewrite manager_run_cons; manager_unfold;
  repeat (first [roots | Rabs_case | Rtest]; manager_unfold).

Ltac manager_run_at t roots :=
  let H := fresh "Hrun" in
  eassert (H : t = _);
  [ repeat (manager_event_with roots); rewrite manager_run_nil; reflexivity
  | rewrite H; clear H ].

Ltac manager_run roots :=
  match goal with
  | |- context [run ?es initial] => manager_run_at (run es initial) roots
  end.

Example tap_scenario :
  log (run [OnTap (sound 1); TouchStart (press 100 100) origin 0;
            TouchEnd (release 100 100) origin 50] initial)
  = [TapNotified 1 (mkTapEvent (100 - 0) (100 - 0))].
Proof.
  unfold press, release, origin, sound.
  manager_run ltac:(root_is 0).
  reflexivity.
Qed.

(** ** A callback that throws *)



(** ** Tap after an excursion *)

(** C4, on the code: a contact pressed at (100,100) moves to (150,100), 50
    pixels away (which cancels its long-press timer), comes back to
    (100,100) and is released there after 50ms.  [handleTouchEnd] looks at
    the release point only, and the tap callback is called. *)
Lemma tap_after_excursion_fires :
  timers (run [OnTap (sound 1);
               TouchStart (press 100 100) origin 0] initial) = [(1%nat, 0%Z)] /\
  timers (run [OnTap (sound 1);
               TouchStart (press 100 100) origin 0;
               TouchMove (press 150 100) origin 10] initial) = [] /\
  log (run [OnTap (sound 1);
            TouchStart (press 100 100) origin 0;
            TouchMove (press 150 100) origin 10;
            TouchMove (press 100 100) origin 20;
            TouchEnd (release 100 100) origin 50] initial)
  = [TapNotified 1 (mkTapEvent (100 - 0) (100 - 0))].
Proof.
  unfold press, release, origin, sound.
  split; [|split].
  - manager_run fail. reflexivity.
  - manager_run ltac:(idtac; first [root_is 0 | root_is 50]). reflexivity.
  - manager_run ltac:(idtac; first [root_is 0 | root_is 50]). reflexivity.
Qed.

(** ** What decides a tap *)

Lemma cancelLongPressTimer_frame (touchId : Z) (w : World) :
  activeTouches (mgr (cancelLongPressTimer touchId w)) = activeTouches (mgr w) /\
  tapCallbacks (mgr (cancelLongPressTimer touchId w)) = tapCallbacks (mgr w) /\
  log (cancelLongPressTimer touchId w) = log w.
Proof.
  unfold cancelLongPressTimer.
  destruct (JsMap.get touchId (longPressTimers (mgr w))) as [timer|];
    [|repeat split].
  destruct (Nat.eqb timer 0); repeat split.
Qed.

(** The end of one tracked contact, with tap callbacks that return: they are
    called exactly when the contact ends less than 300ms after its time
    stamp and less than 10 pixels from its start; the positions in between
    play no part. *)
Theorem tap_depends_on_release_point :
  forall (w : World) (remaining : list Dom.Touch) (touch : Dom.Touch)
         (rect : Dom.Rect) (now : R) (point : TouchPoint),
    JsMap.get (Dom.identifier touch) (activeTouches (mgr w)) = Some point ->
    Forall (fun callback =>
              listener_run callback (mkTapEvent (startX point) (startY point)) = Normal)
      (tapCallbacks (mgr w)) ->
    fst (handleTouchEnd (Dom.mkTouchEvent remaining [touch]) rect now w) = Normal /\
    log (snd (handleTouchEnd (Dom.mkTouchEvent remaining [touch]) rect now w))
    = log w ++
      (if Rltb (now - timestamp point) TAP_THRESHOLD_MS
          && Rltb (sqrt (pow2 (Dom.clientX touch - Dom.left rect - startX point)
                         + pow2 (Dom.clientY touch - Dom.top rect - startY point)))
               TAP_MOVE_THRESHOLD_PX
       then notifications TapNotified (mkTapEvent (startX point) (startY point))
              (tapCallbacks (mgr w))
       else []).
Proof.
  intros w remaining touch rect now point Hget Hall.
  destruct (cancelLongPressTimer_frame (Dom.identifier touch) w) as (Ha & Hcb & Hl).
  destruct (handleTouchEnd (Dom.mkTouchEvent remaining [touch]) rect now w)
    as [completion w'] eqn:Hend.
  unfold handleTouchEnd in Hend. cbn [Dom.changedTouches forEach] in Hend.
  unfold seq in Hend. rewrite Hget in Hend.
  set (w1 := cancelLongPressTimer (Dom.identifier touch) w) in *.
  cbn [fst snd].
  destruct (Rltb (now - timestamp point) TAP_THRESHOLD_MS
            && Rltb (sqrt (pow2 (Dom.clientX touch - Dom.left rect - startX point)
                           + pow2 (Dom.clientY touch - Dom.top rect - startY point)))
                 TAP_MOVE_THRESHOLD_PX).
  - unfold triggerTapCallbacks in Hend. rewrite Hcb in Hend.
    destruct (forEach_all_return TapNotified
                (mkTapEvent (startX point) (startY point)) (tapCallbacks (mgr w)) w1 Hall)
      as (Hn & Hlog & _).
    destruct (forEach (call TapNotified (mkTapEvent (startX point) (startY point)))
                (tapCallbacks (mgr w)) w1) as [c2 w2].
    cbn [fst snd] in Hn, Hlog. subst c2.
    unfold lift, skip in Hend. injection Hend as <- <-.
    cbn [with_mgr log]. rewrite Hlog, Hl. split; reflexivity.
  - unfold lift, skip in Hend. injection Hend as <- <-.
    cbn [with_mgr log]. rewrite Hl, app_nil_r. split; reflexivity.
Qed.

(** The excursion of C4, by the theorem: after the two moves the contact is
    stored with its start at (100,100) and its time stamp 0, and its end at
    (100,100) at time 50 calls the tap callback. *)
Lemma tap_after_excursion_by_release_point :
  log (snd (handleTouchEnd (release 100 100) origin 50
              (run [OnTap (sound 1);
                    TouchStart (press 100 100) origin 0;
                    TouchMove (press 150 100) origin 10;
                    TouchMove (press 100 100) origin 20] initial)))
  = [TapNotified 1 (mkTapEvent (100 - 0) (100 - 0))].
Proof.
  set (w := run _ initial).
  assert (Hw : activeTouches (mgr w)
               = [(0%Z, mkTouchPoint 0 (100 - 0) (100 - 0) (100 - 0) (100 - 0) 0)] /\
               tapCallbacks (mgr w) = [sound 1] /\ log w = []).
  { subst w. unfold press, origin, sound.
    manager_run ltac:(idtac; first [root_is 0 | root_is 50]). repeat split. }
  destruct Hw as (Hact & Hcb & Hlog).
  assert (Hget : JsMap.get (Dom.identifier (Dom.mkTouch 0 100 100)) (activeTouches (mgr w))
                 = Some (mkTouchPoint 0 (100 - 0) (100 - 0) (100 - 0) (100 - 0) 0))
    by (rewrite Hact; reflexivity).
  assert (Hall : Forall (fun callback : Listener TapEvent =>
                           listener_run callback
                             (mkTapEvent (100 - 0) (100 - 0)) = Normal)
                   (tapCallbacks (mgr w))).
  { rewrite Hcb. constructor; [reflexivity | constructor]. }
  destruct (tap_depends_on_release_point w [] (Dom.mkTouch 0 100 100) origin 50 _
              Hget Hall) as [_ Hlog'].
  unfold release. rewrite Hlog', Hlog, Hcb.
  cbn [startX startY timestamp Dom.clientX Dom.clientY Dom.left Dom.top origin app].
  unfold TAP_THRESHOLD_MS, TAP_MOVE_THRESHOLD_PX, pow2.
  rewrite (sqrt_eval _ 0) by lra.
  repeat Rtest. reflexivity.
Defined.

(** ** After [destroy], in the manager *)

Lemma clearTimeouts_frame (l : list nat) :
  forall w,
    mgr (fold_left (fun w timer => clearTimeout timer w) l w) = mgr w /\
    log (fold_left (fun w timer => clearTimeout timer w) l w) = log w.
Proof.
  induction l as [|t l IH]; intros w; [split; reflexivity|].
  cbn [fold_left]. destruct (IH (clearTimeout t w)) as [Hm Hl].
  rewrite Hm, Hl. split; reflexivity.
Qed.

Lemma destroy_retired (w : World) : retired (destroy w) /\ log (destroy w) = log w.
Proof.
  unfold destroy, retired.
  cbn [attached mgr activeTouches set_activeTouches log].
  destruct (clearTimeouts_frame (JsMap.values (longPressTimers (mgr w))) w) as [_ Hl].
  rewrite Hl. repeat split.
Qed.

Lemma retired_step (w : World) (e : Event) :
  retired w -> retired (step w e) /\ log (step w e) = log w.
Proof.
  intros [Ha Ht].
  destruct e as [ev rect now | ev rect now | ev rect now | ev | timer
                | c | c | c | c |]; cbn [step]; rewrite ?Ha;
    try (split; [split; assumption | reflexivity]).
  - unfold runTimeout.
    destruct (find (fun t => Nat.eqb (fst t) timer) (timers w)) as [t|];
      [|split; [split; assumption | reflexivity]].
    unfold longPressTimeout. cbn [clearTimeout mgr]. rewrite Ht.
    cbn [JsMap.get JsMap.empty snd attached mgr log].
    split; [split; assumption | reflexivity].
  - apply destroy_retired.
Qed.

Lemma retired_run (es : list Event) :
  forall w, retired w -> log (run es w) = log w.
Proof.
  induction es as [|e es IH]; intros w Hr; [reflexivity|].
  cbn [run]. destruct (retired_step w e Hr) as [Hr' Hl].
  rewrite (IH _ Hr'). exact Hl.
Qed.

(** After [destroy] no callback is ever called again, whatever touch events,
    timers and registrations follow: timers that were not cleared find no
    contact. *)
Theorem destroyed_manager_is_silent (w : World) (es : list Event) :
  log (run es (destroy w)) = log w.
Proof.
  destruct (destroy_retired w) as [Hr Hl].
  rewrite (retired_run es _ Hr). exact Hl.
Qed.

(** ** Callbacks that return *)

Lemma logged_nil (w : World) : logged [] w = w.
Proof. destruct w. unfold logged. cbn. rewrite app_nil_r. reflexivity. Qed.

Lemma forEach_returning {E : Type} (mk : nat -> E -> Notification) (event : E)
  (l : list (Listener E)) :
  forall w,
    Forall (fun callback => listener_run callback event = Normal) l ->
    forEach (call mk event) l w = (Normal, logged (notifications mk event l) w).
Proof.
  induction l as [|c l IH]; intros w Hall.
  - cbn [forEach notifications map]. rewrite logged_nil. reflexivity.
  - inversion Hall as [|c' l' Hc Hl]; subst.
    rewrite (forEach_call_returns mk event c l w Hc), (IH _ Hl).
    unfold logged, notify. cbn [mgr timers nextTimer attached log notifications map].
    rewrite <- app_assoc. reflexivity.
Qed.

Lemma find_timer_fresh (timer : nat) (touchId : Z) (l : list (nat * Z)) :
  Forall (fun t => (fst t < timer)%nat) l ->
  find (fun t => Nat.eqb (fst t) timer) (l ++ [(timer, touchId)]) = Some (timer, touchId).
Proof.
  induction l as [|t l IH]; intros Hall; cbn [app find fst].
  - rewrite Nat.eqb_refl. reflexivity.
  - inversion Hall as [|t' l' Ht Hl]; subst.
    assert (Hne : Nat.eqb (fst t) timer = false) by (apply Nat.eqb_neq; lia).
    rewrite Hne. apply IH. exact Hl.
Qed.

Lemma find_filter_out (timer : nat) (l : list (nat * Z)) :
  find (fun t => Nat.eqb (fst t) timer)
    (filter (fun t => negb (Nat.eqb (fst t) timer)) l) = None.
Proof.
  induction l as [|t l IH]; [reflexivity|].
  cbn [filter]. destruct (Nat.eqb (fst t) timer) eqn:He; cbn [negb]; [exact IH|].
  cbn [find]. rewrite He. exact IH.
Qed.

Lemma find_filter_other (timer other : nat) (l : list (nat * Z)) :
  find (fun t => Nat.eqb (fst t) timer) l = None ->
  find (fun t => Nat.eqb (fst t) timer)
    (filter (fun t => negb (Nat.eqb (fst t) other)) l) = None.
Proof.
  induction l as [|t l IH]; [reflexivity|].
  cbn [find filter]. destruct (Nat.eqb (fst t) timer) eqn:He; [discriminate|].
  intros Hf. destruct (negb (Nat.eqb (fst t) other)); [cbn [find]; rewrite He|];
    apply IH; exact Hf.
Qed.

(** ** Long press after an excursion *)

Lemma cancelLongPressTimer_keeps_gone (touchId : Z) (timer : nat) (w : World) :
  find (fun t => Nat.eqb (fst t) timer) (timers w) = None ->
  find (fun t => Nat.eqb (fst t) timer) (timers (cancelLongPressTimer touchId w)) = None.
Proof.
  intros Hf. unfold cancelLongPressTimer.
  destruct (JsMap.get touchId (longPressTimers (mgr w))) as [t|]; [|exact Hf].
  destruct (Nat.eqb t 0); [exact Hf|].
  cbn [with_mgr timers clearTimeout]. apply find_filter_other. exact Hf.
Qed.

Lemma cancelLongPressTimer_rest (touchId : Z) (w : World) :
  activeTouches (mgr (cancelLongPressTimer touchId w)) = activeTouches (mgr w) /\
  dragCallbacks (mgr (cancelLongPressTimer touchId w)) = dragCallbacks (mgr w) /\
  longPressCallbacks (mgr (cancelLongPressTimer touchId w)) = longPressCallbacks (mgr w) /\
  pinchCallbacks (mgr (cancelLongPressTimer touchId w)) = pinchCallbacks (mgr w) /\
  attached (cancelLongPressTimer touchId w) = attached w /\
  log (cancelLongPressTimer touchId w) = log w /\
  nextTimer (cancelLongPressTimer touchId w) = nextTimer w.
Proof.
  unfold cancelLongPressTimer.
  destruct (JsMap.get touchId (longPressTimers (mgr w))) as [timer|];
    [|repeat split].
  destruct (Nat.eqb timer 0); repeat split.
Qed.

Lemma wanders_at_start (rect : Dom.Rect) (start : Dom.Touch) :
  wanders rect start start = false.
Proof.
  unfold wanders, Rgtb, pow2, LONG_PRESS_MOVE_THRESHOLD_PX.
  apply Rltb_false.
  rewrite (sqrt_eval _ 0); lra.
Qed.

(** One move of a held contact. *)
Lemma held_move (w0 w : World) (timer : nat) (rect : Dom.Rect)
  (start current touch : Dom.Touch) (steady : bool) (now : R) :
  timer <> 0%nat ->
  returning (dragCallbacks (mgr w0)) ->
  Dom.identifier touch = Dom.identifier start ->
  held w0 w timer rect start current steady ->
  held w0 (step w (slide rect (touch, now))) timer rect start touch
    (steady && negb (wanders rect start touch)).
Proof.
  intros Htimer Hdrag Hid (Hat & Hd & Hl & [stamp Hget] & Hsteady).
  cbn [slide step fst snd]. rewrite Hat.
  unfold handleTouchMove. cbn [Dom.touches].
  (* first pass *)
  assert (Hfirst : exists ns,
             detectGestures (Dom.mkTouchEvent [touch] [touch]) rect w
             = (Normal, logged ns w)).
  { unfold detectGestures. cbn [Dom.touches]. rewrite Hid, Hget.
    match goal with
    | |- context [if ?b then _ else _] => destruct b
    end.
    - unfold triggerDragCallbacks. rewrite Hd.
      eexists. apply forEach_returning. apply Hdrag.
    - exists []. rewrite logged_nil. reflexivity. }
  destruct Hfirst as [ns Hfirst].
  unfold seq. rewrite Hfirst. unfold lift. cbn [snd].
  (* second pass *)
  unfold updatePositions. cbn [Dom.touches fold_left logged mgr].
  rewrite Hid, Hget. cbn [id startX startY timestamp].
  fold (wanders rect start touch).
  destruct (wanders rect start touch) eqn:Hw.
  - (* the contact has wandered: the timer is cancelled *)
    rewrite andb_false_r.
    match goal with
    | |- held _ (with_mgr _ (cancelLongPressTimer ?k ?w1)) _ _ _ _ _ =>
        destruct (cancelLongPressTimer_rest k w1) as (Ha & Hd' & Hl' & _ & Hat' & _);
        pose proof (cancelLongPressTimer_keeps_gone k timer w1) as Hgone;
        set (w2 := cancelLongPressTimer k w1) in *
    end.
    unfold held.
    cbn [with_mgr attached mgr set_activeTouches dragCallbacks longPressCallbacks
         activeTouches timers].
    rewrite Hat', Hd', Hl', JsMap_get_set, Z.eqb_refl.
    cbn [attached mgr].
    split; [exact Hat | split; [exact Hd | split; [exact Hl | split]]].
    + exists stamp. reflexivity.
    + destruct steady.
      * destruct Hsteady as (Ht & Hf & _). subst w2.
        unfold cancelLongPressTimer. cbn [logged mgr]. rewrite Ht.
        apply Nat.eqb_neq in Htimer. rewrite Htimer.
        cbn [with_mgr timers clearTimeout logged]. apply find_filter_out.
      * apply Hgone. exact Hsteady.
  - (* within the threshold: only the position changes *)
    rewrite andb_true_r. unfold held.
    cbn [with_mgr attached mgr set_activeTouches dragCallbacks longPressCallbacks
         activeTouches timers longPressTimers].
    rewrite JsMap_get_set, Z.eqb_refl.
    split; [exact Hat | split; [exact Hd | split; [exact Hl | split]]].
    + exists stamp. reflexivity.
    + destruct steady.
      * destruct Hsteady as (Ht & Hf & _). repeat split; assumption.
      * exact Hsteady.
Qed.

Lemma held_moves (w0 : World) (timer : nat) (rect : Dom.Rect) (start : Dom.Touch)
  (moves : list (Dom.Touch * R)) :
  timer <> 0%nat ->
  returning (dragCallbacks (mgr w0)) ->
  Forall (fun m => Dom.identifier (fst m) = Dom.identifier start) moves ->
  forall (w : World) (current : Dom.Touch) (steady : bool),
    held w0 w timer rect start current steady ->
    held w0 (run (map (slide rect) moves) w) timer rect start
      (last (map fst moves) current)
      (steady && forallb (fun m => negb (wanders rect start (fst m))) moves).
Proof.
  intros Htimer Hdrag Hall.
  induction moves as [|[touch now] moves IH]; intros w current steady Hheld.
  - cbn [map run last forallb]. rewrite andb_true_r. exact Hheld.
  - inversion Hall as [|m l Hid Hall']; subst. cbn [fst] in Hid.
    cbn [map run forallb fst]. rewrite last_shift, andb_assoc.
    apply (IH Hall'). apply (held_move w0 w timer rect start current); assumption.
Qed.

Lemma held_press (w : World) (rect : Dom.Rect) (now : R) (start : Dom.Touch) :
  attached w = true ->
  timers_fresh w ->
  held w (step w (TouchStart (Dom.mkTouchEvent [start] [start]) rect now))
    (nextTimer w) rect start start true.
Proof.
  intros Hat [Hpos Hfresh]. cbn [step]. rewrite Hat.
  unfold handleTouchStart, held.
  cbn [Dom.touches fold_left startLongPressTimer with_mgr id mgr timers nextTimer
       attached set_activeTouches set_longPressTimers activeTouches longPressTimers
       dragCallbacks longPressCallbacks].
  rewrite !JsMap_get_set, Z.eqb_refl.
  split; [exact Hat | split; [reflexivity | split; [reflexivity | split]]].
  - exists now. reflexivity.
  - split; [reflexivity | split].
    + apply find_timer_fresh. exact Hfresh.
    + apply wanders_at_start.
Qed.

Lemma held_timeout (w0 w : World) (timer : nat) (rect : Dom.Rect)
  (start current : Dom.Touch) (steady : bool) :
  returning (longPressCallbacks (mgr w0)) ->
  held w0 w timer rect start current steady ->
  log (step w (Timeout timer))
  = log w ++
    (if steady
     then notifications LongPressNotified
            (mkLongPressEvent (Dom.clientX current - Dom.left rect)
               (Dom.clientY current - Dom.top rect))
            (longPressCallbacks (mgr w0))
     else []).
Proof.
  intros Hret (Hat & Hd & Hl & [stamp Hget] & Hsteady).
  cbn [step]. unfold runTimeout. destruct steady.
  - destruct Hsteady as (Ht & Hf & Hw). rewrite Hf. cbn [snd].
    unfold longPressTimeout. cbn [clearTimeout mgr]. rewrite Hget.
    cbn [x y startX startY].
    assert (Hle : Rleb (sqrt (pow2 (Dom.clientX current - Dom.left rect
                                    - (Dom.clientX start - Dom.left rect))
                              + pow2 (Dom.clientY current - Dom.top rect
                                      - (Dom.clientY start - Dom.top rect))))
                    LONG_PRESS_MOVE_THRESHOLD_PX = true).
    { unfold wanders, Rgtb in Hw. apply Rltb_iff_false in Hw.
      apply Rleb_true. exact Hw. }
    rewrite Hle. unfold seq, triggerLongPressCallbacks. cbn [clearTimeout mgr].
    rewrite Hl.
    rewrite forEach_returning by apply Hret.
    unfold lift. cbn [snd with_mgr log logged]. reflexivity.
  - rewrite Hsteady, app_nil_r. reflexivity.
Qed.

(** A contact that is pressed and moved: when its long-press timer runs, the
    long-press callbacks are called, with the position of the last sample,
    exactly when no sample was more than 10 pixels from where the contact
    was pressed; a contact that went further and came back is not long
    pressed. *)
Theorem long_press_needs_a_steady_contact :
  forall (w : World) (rect : Dom.Rect) (now : R) (start : Dom.Touch)
         (moves : list (Dom.Touch * R)),
    attached w = true ->
    timers_fresh w ->
    returning (dragCallbacks (mgr w)) ->
    returning (longPressCallbacks (mgr w)) ->
    Forall (fun m => Dom.identifier (fst m) = Dom.identifier start) moves ->
    log (run (TouchStart (Dom.mkTouchEvent [start] [start]) rect now
              :: map (slide rect) moves ++ [Timeout (nextTimer w)]) w)
    = log (run (TouchStart (Dom.mkTouchEvent [start] [start]) rect now
                :: map (slide rect) moves) w) ++
      (if forallb (fun m => negb (wanders rect start (fst m))) moves
       then notifications LongPressNotified
              (mkLongPressEvent
                 (Dom.clientX (lastTouch start moves) - Dom.left rect)
                 (Dom.clientY (lastTouch start moves) - Dom.top rect))
              (longPressCallbacks (mgr w))
       else []).
Proof.
  intros w rect now start moves Hat Hfresh Hdrag Hlong Hall.
  assert (Htimer : nextTimer w <> 0%nat) by (destruct Hfresh; lia).
  pose proof (held_press w rect now start Hat Hfresh) as Hpress.
  pose proof (held_moves w (nextTimer w) rect start moves Htimer Hdrag Hall _ _ _ Hpress)
    as Hheld.
  cbn [andb] in Hheld.
  change (run (TouchStart ?e rect now :: ?es) w)
    with (run es (step w (TouchStart e rect now))).
  assert (Happ : forall es1 es2 w1, run (es1 ++ es2) w1 = run es2 (run es1 w1)).
  { induction es1 as [|e es1 IH]; intros es2 w1; [reflexivity|]. cbn [app run]. apply IH. }
  rewrite Happ. cbn [run].
  apply (held_timeout w _ _ rect start _ _ Hlong Hheld).
Qed.

Lemma long_press_after_excursion :
  log (run (TouchStart (Dom.mkTouchEvent [Dom.mkTouch 0 100 100] [Dom.mkTouch 0 100 100])
              origin 0
            :: map (slide origin)
                 [(Dom.mkTouch 0 150 100, 10); (Dom.mkTouch 0 100 100, 20)]
               ++ [Timeout 1])
         (run [OnLongPress (sound 1)] initial))
  = log (run (TouchStart (Dom.mkTouchEvent [Dom.mkTouch 0 100 100] [Dom.mkTouch 0 100 100])
                origin 0
              :: map (slide origin)
                   [(Dom.mkTouch 0 150 100, 10); (Dom.mkTouch 0 100 100, 20)])
           (run [OnLongPress (sound 1)] initial)) ++ [].
Proof.
  pose proof (long_press_needs_a_steady_contact (run [OnLongPress (sound 1)] initial)
                origin 0 (Dom.mkTouch 0 100 100)
                [(Dom.mkTouch 0 150 100, 10); (Dom.mkTouch 0 100 100, 20)]) as H.
  cbn [forallb fst] in H.
  unfold wanders, origin, LONG_PRESS_MOVE_THRESHOLD_PX, Rgtb in H.
  cbn [Dom.clientX Dom.clientY Dom.left Dom.top] in H.
  rewrite (sqrt_eval _ 50) in H by (unfold pow2; lra).
  rewrite (Rltb_true 10 50) in H by lra.
  apply H.
  - reflexivity.
  - split; [cbn; lia | constructor].
  - intros event. constructor.
  - intros event. repeat constructor.
  - repeat constructor.
Defined.

(** ** A touch-start with contacts already down *)

Lemma touchStart_step (rect : Dom.Rect) (now : R) (touch : Dom.Touch) (w : World) :
  startLongPressTimer (pressed rect now touch)
    (with_mgr (fun g => set_activeTouches
                          (JsMap.set (Dom.identifier touch) (pressed rect now touch)
                             (activeTouches g)) g) w)
  = mkWorld
      (mkManager
         (JsMap.set (Dom.identifier touch) (pressed rect now touch)
            (activeTouches (mgr w)))
         (JsMap.set (Dom.identifier touch) (nextTimer w) (longPressTimers (mgr w)))
         (tapCallbacks (mgr w)) (longPressCallbacks (mgr w))
         (dragCallbacks (mgr w)) (pinchCallbacks (mgr w)))
      (timers w ++ [(nextTimer w, Dom.identifier touch)])
      (S (nextTimer w)) (attached w) (log w).
Proof. reflexivity. Qed.

Lemma handleTouchStart_cons (touch : Dom.Touch) (ts changed : list Dom.Touch)
  (rect : Dom.Rect) (now : R) (w : World) :
  handleTouchStart (Dom.mkTouchEvent (touch :: ts) changed) rect now w
  = handleTouchStart (Dom.mkTouchEvent ts changed) rect now
      (startLongPressTimer (pressed rect now touch)
         (with_mgr (fun g => set_activeTouches
                               (JsMap.set (Dom.identifier touch) (pressed rect now touch)
                                  (activeTouches g)) g) w)).
Proof. reflexivity. Qed.

Lemma handleTouchStart_spec (rect : Dom.Rect) (now : R) (changed : list Dom.Touch)
  (ts : list Dom.Touch) :
  forall w : World,
    NoDup (map Dom.identifier ts) ->
    let w' := handleTouchStart (Dom.mkTouchEvent ts changed) rect now w in
    timers w'
    = timers w ++ combine (List.seq (nextTimer w) (length ts)) (map Dom.identifier ts) /\
    nextTimer w' = (nextTimer w + length ts)%nat /\
    log w' = log w /\
    attached w' = attached w /\
    (forall touch, In touch ts ->
       JsMap.get (Dom.identifier touch) (activeTouches (mgr w'))
       = Some (pressed rect now touch)) /\
    (forall k, ~ In k (map Dom.identifier ts) ->
       JsMap.get k (activeTouches (mgr w')) = JsMap.get k (activeTouches (mgr w))).
Proof.
  induction ts as [|touch ts IH]; intros w Hnd w'.
  - subst w'. cbn. rewrite app_nil_r, Nat.add_0_r. repeat split. intros t [].
  - cbn [map] in Hnd. inversion Hnd as [|k l Hk Hnd']; subst.
    subst w'. rewrite handleTouchStart_cons, touchStart_step.
    match goal with
    | |- context [handleTouchStart _ rect now ?w1] =>
        destruct (IH w1 Hnd') as (Ht & Hn & Hl & Ha & Hin & Hout);
        set (w2 := handleTouchStart (Dom.mkTouchEvent ts changed) rect now w1) in *
    end.
    cbn [timers nextTimer log attached mgr activeTouches] in Ht, Hn, Hl, Ha, Hout.
    split; [|split; [|split; [|split; [|split]]]].
    + rewrite Ht. cbn [length List.seq map combine]. rewrite <- app_assoc. reflexivity.
    + rewrite Hn. cbn [length]. lia.
    + exact Hl.
    + exact Ha.
    + intros t [<- | Ht'].
      * rewrite (Hout _ Hk), JsMap_get_set, Z.eqb_refl. reflexivity.
      * apply Hin. exact Ht'.
    + intros k Hnot. cbn [map In] in Hnot.
      rewrite Hout by (intros Hin'; apply Hnot; right; exact Hin').
      rewrite JsMap_get_set.
      destruct (Z.eqb k (Dom.identifier touch)) eqn:He; [|reflexivity].
      apply Z.eqb_eq in He. exfalso. apply Hnot. left. symmetry. exact He.
Qed.

(** A touch-start starts every contact it lists anew, those already down
    included: each gets the event's position as its start, the event's time
    as its time stamp and a long-press timer of its own, while every timer
    that was pending stays pending and no callback is called. *)
Theorem touch_start_restarts_listed_contacts :
  forall (w : World) (e : Dom.TouchEvent) (rect : Dom.Rect) (now : R),
    NoDup (map Dom.identifier (Dom.touches e)) ->
    timers (handleTouchStart e rect now w)
    = timers w ++ combine (List.seq (nextTimer w) (length (Dom.touches e)))
                   (map Dom.identifier (Dom.touches e)) /\
    log (handleTouchStart e rect now w) = log w /\
    (forall touch, In touch (Dom.touches e) ->
       JsMap.get (Dom.identifier touch) (activeTouches (mgr (handleTouchStart e rect now w)))
       = Some (pressed rect now touch)) /\
    (forall k, ~ In k (map Dom.identifier (Dom.touches e)) ->
       JsMap.get k (activeTouches (mgr (handleTouchStart e rect now w)))
       = JsMap.get k (activeTouches (mgr w))).
Proof.
  intros w [ts changed] rect now Hnd. cbn [Dom.touches] in *.
  destruct (handleTouchStart_spec rect now changed ts w Hnd) as (Ht & _ & Hl & _ & Hin & Hout).
  repeat split; assumption.
Qed.

Lemma find_fresh_app (timer : nat) (old new : list (nat * Z)) :
  Forall (fun t => (fst t < timer)%nat) old ->
  find (fun t => Nat.eqb (fst t) timer) (old ++ new)
  = find (fun t => Nat.eqb (fst t) timer) new.
Proof.
  induction old as [|t old IH]; intros Hall; [reflexivity|].
  inversion Hall as [|t' l' Ht Hl]; subst. cbn [app find].
  assert (Hne : Nat.eqb (fst t) timer = false) by (apply Nat.eqb_neq; lia).
  rewrite Hne. apply IH. exact Hl.
Qed.

Lemma find_filter_neq (timer other : nat) (l : list (nat * Z)) :
  timer <> other ->
  find (fun t => Nat.eqb (fst t) timer)
    (filter (fun t => negb (Nat.eqb (fst t) other)) l)
  = find (fun t => Nat.eqb (fst t) timer) l.
Proof.
  intros Hne. induction l as [|t l IH]; [reflexivity|].
  cbn [filter find]. destruct (Nat.eqb (fst t) other) eqn:Ho; cbn [negb].
  - apply Nat.eqb_eq in Ho.
    assert (Hno : Nat.eqb (fst t) timer = false) by (apply Nat.eqb_neq; lia).
    rewrite Hno. exact IH.
  - cbn [find]. destruct (Nat.eqb (fst t) timer); [reflexivity | exact IH].
Qed.

Lemma steady_at_press (u v : R) :
  Rleb (sqrt (pow2 (u - u) + pow2 (v - v))) LONG_PRESS_MOVE_THRESHOLD_PX = true.
Proof.
  apply Rleb_true. unfold pow2, LONG_PRESS_MOVE_THRESHOLD_PX.
  rewrite (sqrt_eval _ 0); lra.
Qed.

(** The timer of a contact that is still where it was started. *)
Lemma timeout_at_press (w : World) (timer : nat) (touchId : Z) (point : TouchPoint) :
  find (fun t => Nat.eqb (fst t) timer) (timers w) = Some (timer, touchId) ->
  JsMap.get touchId (activeTouches (mgr w)) = Some point ->
  x point = startX point ->
  y point = startY point ->
  returning (longPressCallbacks (mgr w)) ->
  step w (Timeout timer)
  = with_mgr (fun g => set_longPressTimers (JsMap.delete touchId (longPressTimers g)) g)
      (logged (notifications LongPressNotified (mkLongPressEvent (x point) (y point))
                 (longPressCallbacks (mgr w)))
         (clearTimeout timer w)).
Proof.
  intros Hf Hget Hx Hy Hret. cbn [step]. unfold runTimeout. rewrite Hf. cbn [snd].
  unfold longPressTimeout. cbn [clearTimeout mgr]. rewrite Hget.
  rewrite <- Hx, <- Hy, steady_at_press.
  unfold seq, triggerLongPressCallbacks. cbn [mgr].
  rewrite forEach_returning by apply Hret.
  reflexivity.
Qed.

(** A contact that a later touch-start lists again is long pressed twice:
    the timer of its first start is not cancelled and finds the contact where
    the second start put it, and so does the timer of the second start. *)
Theorem relisted_contact_is_long_pressed_twice :
  forall (w : World) (rect : Dom.Rect) (now1 now2 : R)
         (first again other : Dom.Touch),
    attached w = true ->
    timers_fresh w ->
    returning (longPressCallbacks (mgr w)) ->
    Dom.identifier again = Dom.identifier first ->
    Dom.identifier other <> Dom.identifier first ->
    log (run [TouchStart (Dom.mkTouchEvent [first] [first]) rect now1;
              TouchStart (Dom.mkTouchEvent [again; other] [other]) rect now2;
              Timeout (nextTimer w);
              Timeout (S (nextTimer w))] w)
    = log w ++
      notifications LongPressNotified
        (mkLongPressEvent (Dom.clientX again - Dom.left rect)
           (Dom.clientY again - Dom.top rect))
        (longPressCallbacks (mgr w)) ++
      notifications LongPressNotified
        (mkLongPressEvent (Dom.clientX again - Dom.left rect)
           (Dom.clientY again - Dom.top rect))
        (longPressCallbacks (mgr w)).
Proof.
  intros w rect now1 now2 first again other Hat [Hpos Hfresh] Hret Hsame Hother.
  rewrite manager_run_cons. cbn [step]. rewrite Hat.
  rewrite handleTouchStart_cons, touchStart_step.
  change (handleTouchStart (Dom.mkTouchEvent [] ?c) rect now1 ?w1) with w1.
  rewrite manager_run_cons. cbn [step attached]. rewrite Hat.
  rewrite !handleTouchStart_cons, !touchStart_step.
  cbn [mgr timers nextTimer attached log activeTouches longPressTimers
       tapCallbacks longPressCallbacks dragCallbacks pinchCallbacks].
  change (handleTouchStart (Dom.mkTouchEvent [] ?c) rect now2 ?w1) with w1.
  rewrite !manager_run_cons, manager_run_nil.
  rewrite <- !app_assoc. cbn [app].
  match goal with
  | |- log (step (step ?w2 _) _) = _ =>
      rewrite (timeout_at_press w2 (nextTimer w) (Dom.identifier first)
                 (pressed rect now2 again))
  end.
  2:{ cbn [timers]. rewrite (find_fresh_app _ _ _ Hfresh). cbn [find fst].
      rewrite Nat.eqb_refl. reflexivity. }
  2:{ cbn [mgr activeTouches]. rewrite !JsMap_get_set.
      assert (Hne : Z.eqb (Dom.identifier first) (Dom.identifier other) = false).
      { apply Z.eqb_neq. congruence. }
      rewrite Hne, Hsame, Z.eqb_refl. reflexivity. }
  2:{ reflexivity. }
  2:{ reflexivity. }
  2:{ exact Hret. }
  match goal with
  | |- log (step ?w3 _) = _ =>
      rewrite (timeout_at_press w3 (S (nextTimer w)) (Dom.identifier first)
                 (pressed rect now2 again))
  end.
  - cbn [with_mgr logged log clearTimeout mgr longPressCallbacks pressed x y].
    rewrite <- app_assoc. reflexivity.
  - cbn [with_mgr logged timers clearTimeout].
    rewrite find_filter_neq by lia.
    rewrite (find_fresh_app (S (nextTimer w))).
    + cbn [find fst]. 
      assert (Hne : Nat.eqb (nextTimer w) (S (nextTimer w)) = false)
        by (apply Nat.eqb_neq; lia).
      rewrite Hne, Nat.eqb_refl, Hsame. reflexivity.
    + eapply Forall_impl; [|exact Hfresh]. cbn. intros t Ht. lia.
  - cbn [with_mgr logged mgr clearTimeout activeTouches set_longPressTimers].
    rewrite !JsMap_get_set.
    assert (Hne : Z.eqb (Dom.identifier first) (Dom.identifier other) = false).
    { apply Z.eqb_neq. congruence. }
    rewrite Hne, Hsame, Z.eqb_refl. reflexivity.
  - reflexivity.
  - reflexivity.
  - exact Hret.
Qed.

Lemma second_finger_restarts_the_first :
  timers (handleTouchStart
            (Dom.mkTouchEvent [Dom.mkTouch 0 100 100; Dom.mkTouch 1 200 200]
               [Dom.mkTouch 1 200 200])
            origin 400 (run [TouchStart (press 100 100) origin 0] initial))
  = [(1%nat, 0%Z); (2%nat, 0%Z); (3%nat, 1%Z)].
Proof.
  refine (proj1 (touch_start_restarts_listed_contacts
                   (run [TouchStart (press 100 100) origin 0] initial)
                   (Dom.mkTouchEvent [Dom.mkTouch 0 100 100; Dom.mkTouch 1 200 200]
                      [Dom.mkTouch 1 200 200])
                   origin 400 _)).
  cbn [Dom.touches map Dom.identifier].
  repeat constructor; cbn [In]; intros H; repeat destruct H as [H | H];
    try discriminate; exact H.
Defined.

Lemma two_long_presses_for_one_contact :
  log (run [TouchStart (Dom.mkTouchEvent [Dom.mkTouch 0 100 100] [Dom.mkTouch 0 100 100])
              origin 0;
            TouchStart (Dom.mkTouchEvent [Dom.mkTouch 0 100 100; Dom.mkTouch 1 200 200]
                          [Dom.mkTouch 1 200 200]) origin 400;
            Timeout 1; Timeout 2]
         (run [OnLongPress (sound 7)] initial))
  = [LongPressNotified 7 (mkLongPressEvent (100 - 0) (100 - 0));
     LongPressNotified 7 (mkLongPressEvent (100 - 0) (100 - 0))].
Proof.
  apply (relisted_contact_is_long_pressed_twice (run [OnLongPress (sound 7)] initial)
           origin 0 400 (Dom.mkTouch 0 100 100) (Dom.mkTouch 0 100 100)
           (Dom.mkTouch 1 200 200)).
  - reflexivity.
  - split; [cbn; lia | constructor].
  - intros event. repeat constructor.
  - reflexivity.
  - cbn. discriminate.
Defined.

(** ** Unsubscribing *)

Lemma removeFirst_added {E : Type} (callback : Listener E) (l : list (Listener E)) :
  removeFirst callback (l ++ [callback])
  = if registered callback l then removeFirst callback l ++ [callback] else l.
Proof.
  induction l as [|c l IH]; cbn [app removeFirst registered existsb].
  - rewrite Nat.eqb_refl. reflexivity.
  - destruct (Nat.eqb (listener_id c) (listener_id callback)); cbn [orb].
    + reflexivity.
    + rewrite IH. fold (registered callback l).
      destruct (registered callback l); reflexivity.
Qed.

(** Subscribing a callback and calling the function the subscription
    returned, for each of the four events: when the callback was not
    registered before, the callbacks are what they were; when it was, it is
    the earlier registration that is removed, so that the callback is now
    called after those registered in between. *)
Theorem unsubscribe_removes_the_earliest_registration :
  forall w : World,
    (forall callback,
       tapCallbacks (mgr (unsubscribeTap callback (onTap callback w)))
       = if registered callback (tapCallbacks (mgr w))
         then removeFirst callback (tapCallbacks (mgr w)) ++ [callback]
         else tapCallbacks (mgr w)) /\
    (forall callback,
       longPressCallbacks (mgr (unsubscribeLongPress callback (onLongPress callback w)))
       = if registered callback (longPressCallbacks (mgr w))
         then removeFirst callback (longPressCallbacks (mgr w)) ++ [callback]
         else longPressCallbacks (mgr w)) /\
    (forall callback,
       dragCallbacks (mgr (unsubscribeDrag callback (onDrag callback w)))
       = if registered callback (dragCallbacks (mgr w))
         then removeFirst callback (dragCallbacks (mgr w)) ++ [callback]
         else dragCallbacks (mgr w)) /\
    (forall callback,
       pinchCallbacks (mgr (unsubscribePinch callback (onPinch callback w)))
       = if registered callback (pinchCallbacks (mgr w))
         then removeFirst callback (pinchCallbacks (mgr w)) ++ [callback]
         else pinchCallbacks (mgr w)).
Proof.
  intros w. split; [|split; [|split]]; intros callback; apply removeFirst_added.
Qed.

Lemma unsubscribe_reorders :
  map listener_id
    (tapCallbacks
       (mgr (unsubscribeTap (sound 1)
               (TouchManager.run [OnTap (sound 1); OnTap (sound 2); OnTap (sound 1)] initial))))
  = [2%nat; 1%nat].
Proof.
  pose proof (proj1 (unsubscribe_removes_the_earliest_registration
                       (TouchManager.run [OnTap (sound 1); OnTap (sound 2)] initial))
                (sound 1)) as H.
  change (TouchManager.run [OnTap (sound 1); OnTap (sound 2); OnTap (sound 1)] initial)
    with (onTap (sound 1) (TouchManager.run [OnTap (sound 1); OnTap (sound 2)] initial)).
  rewrite H. reflexivity.
Defined.

(** ** The scales of a pinch *)

Lemma scaleProduct_app (listener : nat) (ns1 ns2 : list Notification) :
  scaleProduct listener (ns1 ++ ns2)
  = scaleProduct listener ns1 * scaleProduct listener ns2.
Proof.
  induction ns1 as [|n ns1 IH].
  - cbn [app]. unfold scaleProduct at 2. cbn [fold_right]. lra.
  - cbn [app]. unfold scaleProduct in *. cbn [fold_right]. rewrite IH.
    destruct n as [l e | l e | l e | l e]; try reflexivity.
    destruct (Nat.eqb l listener); lra.
Qed.

Lemma scaleProduct_pinch (listener : nat) (event : PinchEvent)
  (l : list (Listener PinchEvent)) :
  scaleProduct listener (notifications PinchNotified event l)
  = scale event ^ registrations listener l.
Proof.
  induction l as [|c l IH]; [reflexivity|].
  unfold notifications, registrations in *. cbn [map filter].
  unfold scaleProduct in *. cbn [fold_right]. rewrite IH.
  destruct (Nat.eqb (listener_id c) listener); cbn [length pow]; reflexivity.
Qed.

Lemma scaleProduct_drag (listener : nat) (event : DragEvent)
  (l : list (Listener DragEvent)) :
  scaleProduct listener (notifications DragNotified event l) = 1.
Proof.
  induction l as [|c l IH]; [reflexivity|].
  unfold notifications in *. cbn [map]. unfold scaleProduct in *.
  cbn [fold_right]. exact IH.
Qed.

Lemma maybe_cancel_rest (b : bool) (touchId : Z) (w : World) :
  activeTouches (mgr (if b then cancelLongPressTimer touchId w else w))
  = activeTouches (mgr w) /\
  dragCallbacks (mgr (if b then cancelLongPressTimer touchId w else w))
  = dragCallbacks (mgr w) /\
  pinchCallbacks (mgr (if b then cancelLongPressTimer touchId w else w))
  = pinchCallbacks (mgr w) /\
  attached (if b then cancelLongPressTimer touchId w else w) = attached w /\
  log (if b then cancelLongPressTimer touchId w else w) = log w.
Proof.
  destruct b; [|repeat split].
  destruct (cancelLongPressTimer_rest touchId w) as (H1 & H2 & _ & H4 & H5 & H6 & _).
  repeat split; assumption.
Qed.

(** One move of two tracked contacts. *)
Lemma pinch_step (w : World) (rect : Dom.Rect) (a b a' b' : Dom.Touch) (now : R) :
  attached w = true ->
  returning (pinchCallbacks (mgr w)) ->
  returning (dragCallbacks (mgr w)) ->
  tracked w rect a -> tracked w rect b ->
  Dom.identifier a <> Dom.identifier b ->
  0 < gap rect a b ->
  Dom.identifier a' = Dom.identifier a ->
  Dom.identifier b' = Dom.identifier b ->
  let w' := step w (pinchMove rect (a', b', now)) in
  attached w' = true /\
  pinchCallbacks (mgr w') = pinchCallbacks (mgr w) /\
  dragCallbacks (mgr w') = dragCallbacks (mgr w) /\
  tracked w' rect a' /\ tracked w' rect b' /\
  exists centerX centerY drags,
    log w'
    = log w ++
      notifications PinchNotified
        (mkPinchEvent (gap rect a' b' / gap rect a b) (gap rect a' b' / gap rect a b - 1)
           centerX centerY)
        (pinchCallbacks (mgr w)) ++ drags /\
    forall listener, scaleProduct listener drags = 1.
Proof.
  intros Hat Hpinch Hdrag (sxa & sya & ta & Hga) (sxb & syb & tb & Hgb) Hab Hpos Ha Hb w'.
  subst w'. cbn [pinchMove step fst snd]. rewrite Hat.
  unfold handleTouchMove. cbn [Dom.touches].
  assert (Hfirst : exists centerX centerY drags,
             detectGestures (Dom.mkTouchEvent [a'; b'] []) rect w
             = (Normal,
                logged
                  (notifications PinchNotified
                     (mkPinchEvent (gap rect a' b' / gap rect a b)
                        (gap rect a' b' / gap rect a b - 1) centerX centerY)
                     (pinchCallbacks (mgr w)) ++ drags) w) /\
             forall listener, scaleProduct listener drags = 1).
  { unfold detectGestures. cbn [Dom.touches]. unfold handleTwoFingerGestures.
    rewrite Ha, Hb, Hga, Hgb. cbn [x y].
    fold (gap rect a b). fold (gap rect a' b').
    assert (Hgt : Rgtb (gap rect a b) 0 = true) by (apply Rltb_true; exact Hpos).
    rewrite Hgt. unfold seq at 1. unfold triggerPinchCallbacks.
    rewrite forEach_returning by apply Hpinch.
    exists ((Dom.clientX a' - Dom.left rect + (Dom.clientX b' - Dom.left rect)) / 2),
           ((Dom.clientY a' - Dom.top rect + (Dom.clientY b' - Dom.top rect)) / 2).
    match goal with
    | |- context [if ?c then triggerDragCallbacks ?ev else skip] =>
        destruct c;
        [ exists (notifications DragNotified ev (dragCallbacks (mgr w)))
        | exists [] ]
    end.
    - split; [|intros listener; apply scaleProduct_drag].
      unfold triggerDragCallbacks. cbn [logged mgr].
      rewrite forEach_returning by apply Hdrag.
      unfold logged. cbn [mgr timers nextTimer attached log].
      rewrite <- app_assoc. reflexivity.
    - split; [|reflexivity]. unfold skip. rewrite app_nil_r. reflexivity. }
  destruct Hfirst as (centerX & centerY & drags & Hfirst & Hones).
  unfold seq. rewrite Hfirst. unfold lift. cbn [snd].
  set (w1 := logged _ w).
  assert (Hw1 : activeTouches (mgr w1) = activeTouches (mgr w)) by reflexivity.
  unfold updatePositions. cbn [Dom.touches fold_left].
  rewrite Hw1, Ha, Hga. cbn [id startX startY timestamp].
  match goal with
  | |- context [with_mgr ?f (if ?c then cancelLongPressTimer ?k w1 else w1)] =>
      destruct (maybe_cancel_rest c k w1) as (Hact & Hdc & Hpc & Hatt & Hlog);
      set (w2 := if c then cancelLongPressTimer k w1 else w1) in *
  end.
  cbn [with_mgr mgr activeTouches set_activeTouches].
  rewrite Hact, Hw1, JsMap_get_set, Hb.
  assert (Hne : Z.eqb (Dom.identifier b) (Dom.identifier a) = false).
  { apply Z.eqb_neq. congruence. }
  rewrite Hne, Hgb. cbn [id startX startY timestamp].
  match goal with
  | |- context [with_mgr ?f (if ?c then cancelLongPressTimer ?k ?w3 else ?w3)] =>
      destruct (maybe_cancel_rest c k w3) as (Hact' & Hdc' & Hpc' & Hatt' & Hlog');
      set (w4 := if c then cancelLongPressTimer k w3 else w3) in *
  end.
  cbn [with_mgr set_activeTouches mgr activeTouches dragCallbacks pinchCallbacks
       attached log] in Hact', Hdc', Hpc', Hatt', Hlog'.
  unfold tracked.
  cbn [with_mgr attached mgr set_activeTouches activeTouches pinchCallbacks
       dragCallbacks log].
  rewrite Hatt', Hatt, Hpc', Hpc, Hdc', Hdc, Hlog', Hlog, Hact', Ha, Hb.
  rewrite !JsMap_get_set, Z.eqb_refl.
  assert (Hne' : Z.eqb (Dom.identifier a) (Dom.identifier b) = false).
  { apply Z.eqb_neq. congruence. }
  rewrite Hne', Z.eqb_refl.
  split; [exact Hat | split; [reflexivity | split; [reflexivity | split; [|split]]]].
  - exists sxa, sya, ta. reflexivity.
  - exists sxb, syb, tb. reflexivity.
  - exists centerX, centerY, drags. split; [reflexivity | exact Hones].
Qed.

Lemma pinch_run (rect : Dom.Rect) (samples : list (Dom.Touch * Dom.Touch * R)) :
  forall (w : World) (a b : Dom.Touch),
    attached w = true ->
    returning (pinchCallbacks (mgr w)) ->
    returning (dragCallbacks (mgr w)) ->
    tracked w rect a -> tracked w rect b ->
    Dom.identifier a <> Dom.identifier b ->
    0 < gap rect a b ->
    Forall (fun s => Dom.identifier (fst (fst s)) = Dom.identifier a /\
                     Dom.identifier (snd (fst s)) = Dom.identifier b /\
                     0 < gap rect (fst (fst s)) (snd (fst s))) samples ->
    exists ns,
      log (run (map (pinchMove rect) samples) w) = log w ++ ns /\
      forall listener,
        scaleProduct listener ns
        = (gap rect (fst (lastPair a b samples)) (snd (lastPair a b samples))
           / gap rect a b) ^ registrations listener (pinchCallbacks (mgr w)).
Proof.
  induction samples as [|[[a' b'] now] samples IH];
    intros w a b Hat Hpinch Hdrag Hta Htb Hab Hpos Hall.
  - exists []. cbn [map run]. rewrite app_nil_r. split; [reflexivity|].
    intros listener. unfold lastPair. cbn [map last fst snd scaleProduct fold_right].
    unfold Rdiv. rewrite Rinv_r by lra. rewrite pow1. reflexivity.
  - inversion Hall as [|s l (Ha & Hb & Hpos') Hall']; subst.
    cbn [fst snd] in Ha, Hb, Hpos'.
    cbn [map run].
    destruct (pinch_step w rect a b a' b' now Hat Hpinch Hdrag Hta Htb Hab Hpos Ha Hb)
      as (Hat' & Hpc & Hdc & Hta' & Htb' & cx & cy & drags & Hlog & Hones).
    set (w1 := step w (pinchMove rect (a', b', now))) in *.
    destruct (IH w1 a' b') as (ns & Hns & Hprod).
    + exact Hat'.
    + rewrite Hpc. exact Hpinch.
    + rewrite Hdc. exact Hdrag.
    + exact Hta'.
    + exact Htb'.
    + congruence.
    + exact Hpos'.
    + eapply Forall_impl; [|exact Hall']. cbn beta. intros s (H1 & H2 & H3).
      repeat split; congruence.
    + eexists. split.
      * rewrite Hns, Hlog, <- !app_assoc. reflexivity.
      * intros listener. rewrite !scaleProduct_app, scaleProduct_pinch, Hones, Hprod, Hpc.
        cbn [scale]. rewrite Rmult_1_l, <- Rpow_mult_distr. f_equal.
        assert (Hlast : lastPair a b ((a', b', now) :: samples) = lastPair a' b' samples).
        { unfold lastPair. cbn [map fst]. apply last_shift. }
        rewrite Hlast. field. split; lra.
Qed.

(** Over a run of move samples of two tracked contacts, the scales a pinch
    listener is notified of multiply to the ratio of the last distance
    between the contacts to the first (once for each time the listener is
    registered): a listener that multiplies the scales it receives follows
    the fingers. *)
Theorem pinch_scales_multiply_to_the_ratio :
  forall (w : World) (rect : Dom.Rect) (first second : Dom.Touch)
         (samples : list (Dom.Touch * Dom.Touch * R)),
    attached w = true ->
    returning (pinchCallbacks (mgr w)) ->
    returning (dragCallbacks (mgr w)) ->
    tracked w rect first -> tracked w rect second ->
    Dom.identifier first <> Dom.identifier second ->
    0 < gap rect first second ->
    Forall (fun s => Dom.identifier (fst (fst s)) = Dom.identifier first /\
                     Dom.identifier (snd (fst s)) = Dom.identifier second /\
                     0 < gap rect (fst (fst s)) (snd (fst s))) samples ->
    exists ns,
      log (run (map (pinchMove rect) samples) w) = log w ++ ns /\
      forall listener,
        scaleProduct listener ns
        = (gap rect (fst (lastPair first second samples))
             (snd (lastPair first second samples))
           / gap rect first second) ^ registrations listener (pinchCallbacks (mgr w)).
Proof.
  intros w rect first second samples. apply pinch_run.
Qed.

Lemma pinch_scales_scenario :
  exists ns,
    log (run (map (pinchMove origin)
                [(Dom.mkTouch 0 100 100, Dom.mkTouch 1 220 100, 10);
                 (Dom.mkTouch 0 100 100, Dom.mkTouch 1 300 100, 20)])
           (run [OnPinch (sound 3);
                 TouchStart (Dom.mkTouchEvent
                               [Dom.mkTouch 0 100 100; Dom.mkTouch 1 200 100] [])
                   origin 0] initial))
    = log (run [OnPinch (sound 3);
                TouchStart (Dom.mkTouchEvent
                              [Dom.mkTouch 0 100 100; Dom.mkTouch 1 200 100] [])
                  origin 0] initial) ++ ns /\
    scaleProduct 3 ns = (200 / 100) ^ 1.
Proof.
  destruct (pinch_scales_multiply_to_the_ratio
              (run [OnPinch (sound 3);
                    TouchStart (Dom.mkTouchEvent
                                  [Dom.mkTouch 0 100 100; Dom.mkTouch 1 200 100] [])
                      origin 0] initial)
              origin (Dom.mkTouch 0 100 100) (Dom.mkTouch 1 200 100)
              [(Dom.mkTouch 0 100 100, Dom.mkTouch 1 220 100, 10);
               (Dom.mkTouch 0 100 100, Dom.mkTouch 1 300 100, 20)])
    as (ns & Hlog & Hprod).
  - reflexivity.
  - intros event. repeat constructor.
  - intros event. constructor.
  - exists (100 - 0), (100 - 0), 0. reflexivity.
  - exists (200 - 0), (100 - 0), 0. reflexivity.
  - cbn. discriminate.
  - unfold gap, pow2, origin. cbn [Dom.clientX Dom.clientY Dom.left Dom.top].
    apply sqrt_lt_R0. lra.
  - repeat constructor; cbn [fst snd Dom.identifier];
      unfold gap, pow2, origin; cbn [Dom.clientX Dom.clientY Dom.left Dom.top];
      apply sqrt_lt_R0; lra.
  - exists ns. split; [exact Hlog|].
    rewrite (Hprod 3%nat). unfold lastPair. cbn [map last fst snd].
    unfold gap, pow2, origin. cbn [Dom.clientX Dom.clientY Dom.left Dom.top].
    rewrite (sqrt_eval _ 200) by lra. rewrite (sqrt_eval _ 100) by lra.
    reflexivity.
Defined.

(** ** Cancelled contacts *)

Lemma JsMap_get_none {V : Type} (k : Z) (m : JsMap.t V) :
  JsMap.get k m = None <-> ~ In k (map fst m).
Proof.
  induction m as [|[k0 v0] m IH]; cbn [JsMap.get map fst In].
  - split; [intros _ [] | reflexivity].
  - destruct (Z.eqb k k0) eqn:He.
    + apply Z.eqb_eq in He. subst. split; [discriminate|].
      intros H. exfalso. apply H. left. reflexivity.
    + apply Z.eqb_neq in He. rewrite IH. split.
      * intros H [Heq | Hin]; [congruence | exact (H Hin)].
      * intros H Hin. apply H. right. exact Hin.
Qed.

Lemma JsMap_get_middle {V : Type} (k : Z) (v : V) (m rest : JsMap.t V) :
  ~ In k (map fst m) -> JsMap.get k (m ++ (k, v) :: rest) = Some v.
Proof.
  induction m as [|[k0 v0] m IH]; intros Hk; cbn [app JsMap.get].
  - rewrite Z.eqb_refl. reflexivity.
  - cbn [map fst In] in Hk.
    destruct (Z.eqb k k0) eqn:H0.
    + apply Z.eqb_eq in H0. subst. exfalso. apply Hk. left. reflexivity.
    + apply IH. intros Hin. apply Hk. right. exact Hin.
Qed.

Lemma JsMap_delete_middle {V : Type} (k : Z) (v : V) (m rest : JsMap.t V) :
  ~ In k (map fst m) -> JsMap.delete k (m ++ (k, v) :: rest) = m ++ rest.
Proof.
  induction m as [|[k0 v0] m IH]; intros Hk; cbn [app JsMap.delete].
  - rewrite Z.eqb_refl. reflexivity.
  - cbn [map fst In] in Hk.
    destruct (Z.eqb k k0) eqn:H0.
    + apply Z.eqb_eq in H0. subst. exfalso. apply Hk. left. reflexivity.
    + rewrite IH; [reflexivity|]. intros Hin. apply Hk. right. exact Hin.
Qed.

Lemma filter_timer_middle (timer : nat) (touchId : Z) (old new : list (nat * Z)) :
  Forall (fun t => (fst t < timer)%nat) old ->
  Forall (fun t => (timer < fst t)%nat) new ->
  filter (fun t => negb (Nat.eqb (fst t) timer)) (old ++ (timer, touchId) :: new)
  = old ++ new.
Proof.
  intros Hold Hnew. rewrite filter_app. cbn [filter fst]. rewrite Nat.eqb_refl.
  cbn [negb]. f_equal.
  - apply forallb_filter_id. apply forallb_forall. intros t Ht.
    rewrite Forall_forall in Hold. specialize (Hold t Ht).
    apply negb_true_iff, Nat.eqb_neq. lia.
  - apply forallb_filter_id. apply forallb_forall. intros t Ht.
    rewrite Forall_forall in Hnew. specialize (Hnew t Ht).
    apply negb_true_iff, Nat.eqb_neq. lia.
Qed.

Lemma hostTimers_later (ts : list Dom.Touch) :
  forall timer bound, (bound < timer)%nat ->
    Forall (fun t => (bound < fst t)%nat) (hostTimers timer ts).
Proof.
  induction ts as [|t ts IH]; intros timer bound Hlt; [constructor|].
  cbn [hostTimers]. constructor; [exact Hlt | apply IH; lia].
Qed.

Lemma handleTouchStart_fresh (rect : Dom.Rect) (now : R) (changed : list Dom.Touch)
  (ts : list Dom.Touch) :
  forall (A : JsMap.t TouchPoint) (M : JsMap.t nat) tcb lcb dcb pcb
         (T : list (nat * Z)) (n : nat) (a : bool) (L : list Notification),
    NoDup (map Dom.identifier ts) ->
    (forall touch, In touch ts ->
       ~ In (Dom.identifier touch) (map fst A) /\ ~ In (Dom.identifier touch) (map fst M)) ->
    handleTouchStart (Dom.mkTouchEvent ts changed) rect now
      (mkWorld (mkManager A M tcb lcb dcb pcb) T n a L)
    = mkWorld
        (mkManager (A ++ pressedPoints rect now ts) (M ++ pressedTimers n ts)
           tcb lcb dcb pcb)
        (T ++ hostTimers n ts) (n + length ts) a L.
Proof.
  induction ts as [|touch ts IH]; intros A M tcb lcb dcb pcb T n a L Hnd Hfresh.
  - cbn. rewrite !app_nil_r, Nat.add_0_r. reflexivity.
  - cbn [map] in Hnd. inversion Hnd as [|k l Hk Hnd']; subst.
    rewrite handleTouchStart_cons, touchStart_step.
    cbn [mgr activeTouches longPressTimers tapCallbacks longPressCallbacks
         dragCallbacks pinchCallbacks timers nextTimer attached log].
    destruct (Hfresh touch (or_introl eq_refl)) as [HA HM].
    rewrite (JsMap_set_fresh _ _ A HA), (JsMap_set_fresh _ _ M HM).
    rewrite IH.
    + cbn [pressedPoints map pressedTimers hostTimers length].
      rewrite <- !app_assoc. cbn [app]. f_equal. lia.
    + exact Hnd'.
    + intros t Ht. destruct (Hfresh t (or_intror Ht)) as [HA' HM'].
      rewrite !map_app, !in_app_iff. cbn [map fst In].
      split; intros [Hin | [Heq | []]]; try contradiction;
        apply Hk; rewrite Heq; apply in_map; exact Ht.
Qed.

Lemma handleTouchCancel_cons (touch : Dom.Touch) (ts rest : list Dom.Touch) (w : World) :
  handleTouchCancel (Dom.mkTouchEvent rest (touch :: ts)) w
  = handleTouchCancel (Dom.mkTouchEvent rest ts)
      (with_mgr (fun g => set_activeTouches
                            (JsMap.delete (Dom.identifier touch) (activeTouches g)) g)
         (cancelLongPressTimer (Dom.identifier touch) w)).
Proof. reflexivity. Qed.

Lemma handleTouchCancel_fresh (rect : Dom.Rect) (now : R) (rest : list Dom.Touch)
  (ts : list Dom.Touch) :
  forall (A : JsMap.t TouchPoint) (M : JsMap.t nat) tcb lcb dcb pcb
         (T : list (nat * Z)) (n next : nat) (a : bool) (L : list Notification),
    (0 < n)%nat ->
    Forall (fun t => (fst t < n)%nat) T ->
    (forall touch, In touch ts ->
       ~ In (Dom.identifier touch) (map fst A) /\ ~ In (Dom.identifier touch) (map fst M)) ->
    handleTouchCancel (Dom.mkTouchEvent rest ts)
      (mkWorld
         (mkManager (A ++ pressedPoints rect now ts) (M ++ pressedTimers n ts)
            tcb lcb dcb pcb)
         (T ++ hostTimers n ts) next a L)
    = mkWorld (mkManager A M tcb lcb dcb pcb) T next a L.
Proof.
  induction ts as [|touch ts IH];
    intros A M tcb lcb dcb pcb T n next a L Hpos HT Hfresh.
  - cbn. rewrite !app_nil_r. reflexivity.
  - rewrite handleTouchCancel_cons.
    destruct (Hfresh touch (or_introl eq_refl)) as [HA HM].
    unfold cancelLongPressTimer.
    cbn [mgr longPressTimers pressedTimers pressedPoints map hostTimers].
    rewrite (JsMap_get_middle _ _ M _ HM).
    assert (Hn : Nat.eqb n 0 = false) by (apply Nat.eqb_neq; lia).
    rewrite Hn. unfold with_mgr, clearTimeout.
    cbn [mgr timers nextTimer attached log activeTouches longPressTimers
         tapCallbacks longPressCallbacks dragCallbacks pinchCallbacks
         set_activeTouches set_longPressTimers].
    rewrite (JsMap_delete_middle _ _ M _ HM), (JsMap_delete_middle _ _ A _ HA).
    rewrite (filter_timer_middle n _ T _ HT (hostTimers_later ts (S n) n (Nat.lt_succ_diag_r n))).
    fold (pressedPoints rect now ts).
    apply (IH A M tcb lcb dcb pcb T (S n)).
    + lia.
    + eapply Forall_impl; [|exact HT]. cbn beta. intros t Ht. lia.
    + intros t Ht. apply Hfresh. right. exact Ht.
Qed.

(** Contacts that start and are then cancelled leave the manager as it was
    before they started: no touch point, no timer handle and no pending timer
    of theirs remains, and no callback has been called. *)
Theorem cancel_undoes_start :
  forall (w : World) (rect : Dom.Rect) (now : R) (ts changed rest : list Dom.Touch),
    timers_fresh w ->
    NoDup (map Dom.identifier ts) ->
    (forall touch, In touch ts ->
       JsMap.get (Dom.identifier touch) (activeTouches (mgr w)) = None /\
       JsMap.get (Dom.identifier touch) (longPressTimers (mgr w)) = None) ->
    handleTouchCancel (Dom.mkTouchEvent rest ts)
      (handleTouchStart (Dom.mkTouchEvent ts changed) rect now w)
    = mkWorld (mgr w) (timers w) (nextTimer w + length ts) (attached w) (log w).
Proof.
  intros [[A M tcb lcb dcb pcb] T n a L] rect now ts changed rest [Hpos HT] Hnd Hnew.
  cbn [mgr timers nextTimer attached log activeTouches longPressTimers] in *.
  assert (Hfresh : forall touch, In touch ts ->
             ~ In (Dom.identifier touch) (map fst A) /\
             ~ In (Dom.identifier touch) (map fst M)).
  { intros t Ht. destruct (Hnew t Ht) as [H1 H2].
    split; apply JsMap_get_none; assumption. }
  rewrite (handleTouchStart_fresh rect now changed ts A M tcb lcb dcb pcb T n a L Hnd Hfresh).
  apply (handleTouchCancel_fresh rect now rest ts A M tcb lcb dcb pcb T n); assumption.
Qed.

Lemma cancel_undoes_start_scenario :
  handleTouchCancel
    (Dom.mkTouchEvent [] [Dom.mkTouch 0 100 100; Dom.mkTouch 1 200 200])
    (handleTouchStart
       (Dom.mkTouchEvent [Dom.mkTouch 0 100 100; Dom.mkTouch 1 200 200] [])
       origin 0 initial)
  = mkWorld (mgr initial) (timers initial) 3 true [].
Proof.
  apply (cancel_undoes_start initial origin 0
           [Dom.mkTouch 0 100 100; Dom.mkTouch 1 200 200] [] []).
  - split; [cbn; lia | constructor].
  - cbn [map Dom.identifier].
    repeat constructor; cbn [In]; intros H; repeat destruct H as [H | H];
      try discriminate; exact H.
  - intros touch _. split; reflexivity.
Defined.

End TouchManagerProperties.

(** * Properties of TouchBlockController *)

Section TouchBlockControllerProperties.

Import TouchBlockController.

(** ** Vocabulary of the properties *)

(** A world without blocks, on a device that does not vibrate. *)
Definition emptyWorld : World := initial false (fun _ _ => AIR).

Definition viewport : Dom.Rect := Dom.mkRect 0 0.

Definition fingers (ts : list Dom.Touch) : Dom.TouchEvent :=
  Dom.mkTouchEvent ts [].

Definition lifted (ts : list Dom.Touch) : Dom.TouchEvent :=
  Dom.mkTouchEvent [] ts.

(** The move sample [touch] is more than [threshold] from the start. *)
Definition strays (threshold : R) (rect : Dom.Rect) (startX0 startY0 : R)
  (touch : Dom.Touch) : bool :=
  let deltaX := Dom.clientX touch - Dom.left rect - startX0 in
  let deltaY := Dom.clientY touch - Dom.top rect - startY0 in
  Rgtb (sqrt (deltaX * deltaX + deltaY * deltaY)) threshold.

(** What [handleTap] does at a position. *)
Definition tapEffect (w : World) (x0 y0 : R) : Effect :=
  if negb (Z.eqb (getBlockAtPosition w x0 y0) AIR)
  then onRemoveBlock x0 y0
  else onPlaceBlock x0 y0 (currentBlock (ctl w)).

(** The controller follows one contact that started at [(sx, sy)] at time
    [ts] and has strayed or not ([m]); its settings are those of [w0]. *)
Definition tracking (w0 w : World) (sx sy ts : R) (m : bool) : Prop :=
  enabled (ctl w) = true /\ attached w = true /\
  (exists cx cy, currentTouch (ctl w) = Some (mkTouchPoint cx cy sx sy ts m)) /\
  tapMovementThreshold (ctl w) = tapMovementThreshold (ctl w0) /\
  tapDurationThreshold (ctl w) = tapDurationThreshold (ctl w0) /\
  currentBlock (ctl w) = currentBlock (ctl w0) /\
  getBlockAtPosition w = getBlockAtPosition w0.

(** At most one long-press timer is pending; the controller holds its handle
    and follows the contact it was started for, which has not strayed. *)
Definition armed_inv (w : World) : Prop :=
  match timers w with
  | [] => True
  | [(timer, (x0, y0))] =>
      longPressTimer (ctl w) = Some timer /\
      exists touch,
        currentTouch (ctl w) = Some touch /\
        startX touch = x0 /\ startY touch = y0 /\ moved touch = false
  | _ => False
  end.

(** Quick-delete mode is on only while a contact is followed. *)
Definition quick_inv (w : World) : Prop :=
  attached w = true -> quickDeleteMode (ctl w) = true ->
  currentTouch (ctl w) <> None.

(** What a long press does: the registered callbacks, then the haptic
    request where the device has one. *)
Definition longPressEffects (w : World) (x0 y0 : R) : list Effect :=
  map (fun l => longPressCallback l x0 y0) (longPressCallbacks (ctl w))
  ++ (if canVibrate w then [vibrate 50] else []).

Definition isEnable (e : Event) : bool :=
  match e with Enable => true | _ => false end.

(** The pending timers are at most the one the controller holds. *)
Definition held_only (w : World) : Prop :=
  match timers w with
  | [] => True
  | [(timer, _)] => longPressTimer (ctl w) = Some timer
  | _ => False
  end.

(** The controller follows one contact pressed at [(sx, sy)]; while it is
    [steady] its long-press timer is the one pending timer, and once it has
    strayed none is. *)
Definition pressing (w0 w : World) (timer : nat) (sx sy : R) (steady : bool) : Prop :=
  enabled (ctl w) = true /\ attached w = true /\
  canVibrate w = canVibrate w0 /\
  longPressCallbacks (ctl w) = longPressCallbacks (ctl w0) /\
  tapMovementThreshold (ctl w) = tapMovementThreshold (ctl w0) /\
  (exists cx cy ts,
     currentTouch (ctl w) = Some (mkTouchPoint cx cy sx sy ts (negb steady))) /\
  timers w = (if steady then [(timer, (sx, sy))] else []) /\
  (steady = true -> longPressTimer (ctl w) = Some timer).

Lemma block_run_cons (e : Event) (es : list Event) (w : World) :
  run (e :: es) w = run es (step w e).
Proof. reflexivity. Qed.

Lemma block_run_nil (w : World) : run [] w = w.
Proof. reflexivity. Qed.

Ltac block_unfold :=
  cbv beta iota zeta delta
    [step fold_left initial initial_controller
     handleTouchStart handleTouchMove handleTouchEnd handleTouchCancel handleTap
     showTapFeedback startLongPressTimer cancelLongPress clearTimeout
     longPressTimeout runTimeout
     setCurrentBlock onLongPress setTapMovementThreshold
     setTapDurationThreshold enable disable destroy
     with_ctl emit emit_all
     set_enabled set_currentTouch set_touchCount set_currentBlock
     set_quickDeleteMode set_longPressTimer set_tapMovementThreshold
     set_tapDurationThreshold set_longPressCallbacks
     ctl timers nextTimer attached canVibrate getBlockAtPosition effects
     enabled currentTouch touchCount currentBlock quickDeleteMode
     longPressTimer tapMovementThreshold tapDurationThreshold
     longPressDuration longPressCallbacks
     x y startX startY timestamp moved
     AIR GRASS Rgtb
     Dom.identifier Dom.clientX Dom.clientY Dom.touches Dom.changedTouches
     Dom.left Dom.top
     app map filter find length fst snd negb andb orb
     Nat.eqb Z.eqb Pos.eqb].

Ltac block_root_is c :=
  idtac;
  match goal with
  | |- context [sqrt ?a] => rewrite (sqrt_eval a c) by lra
  end.

Ltac block_event_with roots :=
  rewrite block_run_cons; block_unfold;
  repeat (first [roots | Rabs_case | Rtest]; block_unfold).

Ltac block_run_at t roots :=
  let H := fresh "Hrun" in
  eassert (H : t = _);
  [ repeat (block_event_with roots); rewrite block_run_nil; reflexivity
  | rewrite H; clear H ].

Ltac block_run roots :=
  match goal with
  | |- context [run ?es ?w] => block_run_at (run es w) roots
  end.

(** ** Contacts that met another contact *)

(** C5, on the code: a first contact is pressed at (100,100), a second one
    joins at (200,200), and both are released in one touch-end event 50ms
    after the first press.  [currentTouch] still holds the first contact,
    no contact remains, and the tap is handled: a block is placed. *)
Lemma joint_release_taps :
  let first := Dom.mkTouch 0 100 100 in
  let second := Dom.mkTouch 1 200 200 in
  touchCount (ctl (run [TouchStart (fingers [first]) viewport 0;
                        TouchStart (fingers [first; second]) viewport 10]
                     emptyWorld)) = 2%nat /\
  effects (run [TouchStart (fingers [first]) viewport 0;
                TouchStart (fingers [first; second]) viewport 10;
                TouchEnd (lifted [first; second]) viewport 50] emptyWorld)
  = [tapFeedback 100 100; onPlaceBlock (100 - 0) (100 - 0) GRASS].
Proof.
  cbv zeta. unfold fingers, lifted, viewport, emptyWorld.
  split.
  - block_run fail. reflexivity.
  - block_run fail. reflexivity.
Qed.

(** When the two contacts are released one after the other, no tap is
    handled. *)
Lemma separate_releases_do_not_tap :
  let first := Dom.mkTouch 0 100 100 in
  let second := Dom.mkTouch 1 200 200 in
  effects (run [TouchStart (fingers [first]) viewport 0;
                TouchStart (fingers [first; second]) viewport 10;
                TouchEnd (Dom.mkTouchEvent [first] [second]) viewport 40;
                TouchEnd (lifted [first]) viewport 50] emptyWorld)
  = [tapFeedback 100 100].
Proof.
  cbv zeta. unfold fingers, lifted, viewport, emptyWorld.
  block_run fail. reflexivity.
Qed.

(** ** Tap after an excursion, in this controller *)

(** The excursion of C4 here: the move to (150,100) sets [moved], and the
    release back at (100,100) handles no tap. *)
Lemma excursion_disqualifies_tap :
  effects (run [TouchStart (fingers [Dom.mkTouch 0 100 100]) viewport 0;
                TouchMove (fingers [Dom.mkTouch 0 150 100]) viewport;
                TouchMove (fingers [Dom.mkTouch 0 100 100]) viewport;
                TouchEnd (lifted [Dom.mkTouch 0 100 100]) viewport 50] emptyWorld)
  = [tapFeedback 100 100].
Proof.
  unfold fingers, lifted, viewport, emptyWorld.
  block_run ltac:(idtac; first [block_root_is 0 | block_root_is 50]). reflexivity.
Qed.

(** ** What decides a tap, in this controller *)

Lemma cancelLongPress_frame (w : World) :
  ctl (cancelLongPress w) = set_longPressTimer None (ctl w) /\
  attached (cancelLongPress w) = attached w /\
  getBlockAtPosition (cancelLongPress w) = getBlockAtPosition w /\
  effects (cancelLongPress w) = effects w.
Proof.
  unfold cancelLongPress. destruct (longPressTimer (ctl w)) eqn:Ht.
  - repeat split.
  - repeat split. destruct (ctl w). cbn in Ht. subst. reflexivity.
Qed.

Lemma start_tracking (w : World) (first : Dom.Touch) (rect : Dom.Rect) (now : R) :
  enabled (ctl w) = true -> attached w = true ->
  tracking w (step w (TouchStart (fingers [first]) rect now))
    (Dom.clientX first - Dom.left rect) (Dom.clientY first - Dom.top rect) now false.
Proof.
  intros Hen Hat. cbn [step]. rewrite Hat. unfold handleTouchStart. rewrite Hen.
  cbn [negb fingers Dom.touches]. unfold startLongPressTimer.
  set (w3 := showTapFeedback _ _ _).
  destruct (cancelLongPress_frame w3) as (Hc & Ha & Hg & _).
  unfold tracking. cbn [with_ctl ctl attached getBlockAtPosition].
  rewrite Hc, Ha, Hg. subst w3.
  cbn. rewrite Hen, Hat. repeat split. eexists _, _. reflexivity.
Qed.

Lemma move_tracking (w0 w : World) (sx sy ts : R) (m : bool) (touch : Dom.Touch)
  (rect : Dom.Rect) :
  tracking w0 w sx sy ts m ->
  tracking w0 (step w (TouchMove (fingers [touch]) rect)) sx sy ts
    (m || strays (tapMovementThreshold (ctl w0)) rect sx sy touch).
Proof.
  intros (Hen & Hat & (cx & cy & Hcur) & Hmt & Hdt & Hcb & Hg).
  cbn [step]. rewrite Hat. unfold handleTouchMove. rewrite Hen, Hcur.
  cbn [negb fingers Dom.touches with_ctl ctl set_touchCount tapMovementThreshold
       startX startY timestamp moved].
  rewrite Hmt. fold (strays (tapMovementThreshold (ctl w0)) rect sx sy touch).
  destruct (strays (tapMovementThreshold (ctl w0)) rect sx sy touch).
  - match goal with
    | |- context [cancelLongPress ?W] =>
        destruct (cancelLongPress_frame W) as (Hc & Ha & Hg1 & _)
    end.
    unfold tracking. cbn [with_ctl ctl attached getBlockAtPosition].
    rewrite Hc, Ha, Hg1. cbn. rewrite orb_true_r.
    repeat split; try assumption. eexists _, _. reflexivity.
  - unfold tracking. cbn. rewrite orb_false_r.
    repeat split; try assumption. eexists _, _. reflexivity.
Qed.

Lemma moves_tracking (w0 : World) (sx sy ts : R) (rect : Dom.Rect)
  (moves : list Dom.Touch) :
  forall (w : World) (m : bool),
    tracking w0 w sx sy ts m ->
    tracking w0 (run (map (fun touch => TouchMove (fingers [touch]) rect) moves) w)
      sx sy ts
      (m || existsb (strays (tapMovementThreshold (ctl w0)) rect sx sy) moves).
Proof.
  induction moves as [|touch moves IH]; intros w m Ht.
  - cbn [map run existsb]. rewrite orb_false_r. exact Ht.
  - cbn [map run existsb]. rewrite orb_assoc. apply IH. apply move_tracking. exact Ht.
Qed.

Lemma end_tracking (w0 w : World) (sx sy ts : R) (m : bool) (last : Dom.Touch)
  (rect : Dom.Rect) (now : R) :
  tracking w0 w sx sy ts m ->
  effects (step w (TouchEnd (lifted [last]) rect now))
  = effects w ++
    (if negb m && Rltb (now - ts) (tapDurationThreshold (ctl w0))
     then [tapEffect w0 (Dom.clientX last - Dom.left rect) (Dom.clientY last - Dom.top rect)]
     else []).
Proof.
  intros (Hen & Hat & (cx & cy & Hcur) & Hmt & Hdt & Hcb & Hg).
  cbn [step]. rewrite Hat. unfold handleTouchEnd. rewrite Hen.
  destruct (cancelLongPress_frame w) as (Hc & Ha & Hg1 & He).
  cbn [negb lifted Dom.touches Dom.changedTouches length with_ctl ctl].
  rewrite Hc.
  cbn [set_touchCount set_longPressTimer touchCount currentTouch
       tapDurationThreshold].
  rewrite Hcur, Hdt. cbn [moved timestamp].
  destruct (negb m && Rltb (now - ts) (tapDurationThreshold (ctl w0))).
  - unfold handleTap, tapEffect.
    cbn [getBlockAtPosition with_ctl ctl currentBlock set_touchCount
         set_longPressTimer].
    rewrite Hg1, Hg, Hc. cbn [set_longPressTimer currentBlock]. rewrite Hcb.
    destruct (negb (Z.eqb (getBlockAtPosition w0 (Dom.clientX last - Dom.left rect)
                             (Dom.clientY last - Dom.top rect)) AIR));
      cbn [emit with_ctl effects]; rewrite He; reflexivity.
  - cbn [with_ctl effects]. rewrite He, app_nil_r. reflexivity.
Qed.

(** One contact is pressed, moves any number of times and is released, on an
    enabled controller.  The tap is handled on the release (one call of
    [onRemoveBlock] or [onPlaceBlock]) exactly when no move sample was more
    than the movement threshold from the start and the release comes less
    than the duration threshold after the press; otherwise the release has
    no effect.  A sample beyond the threshold disqualifies the contact
    whatever it does afterwards. *)
Theorem block_tap_needs_steady_contact :
  forall (w : World) (first : Dom.Touch) (moves : list Dom.Touch) (last : Dom.Touch)
         (rect : Dom.Rect) (pressed released : R),
    enabled (ctl w) = true ->
    attached w = true ->
    effects (run (TouchStart (fingers [first]) rect pressed
                  :: map (fun touch => TouchMove (fingers [touch]) rect) moves
                  ++ [TouchEnd (lifted [last]) rect released]) w)
    = effects (run (TouchStart (fingers [first]) rect pressed
                    :: map (fun touch => TouchMove (fingers [touch]) rect) moves) w)
      ++ (if negb (existsb (strays (tapMovementThreshold (ctl w)) rect
                              (Dom.clientX first - Dom.left rect)
                              (Dom.clientY first - Dom.top rect)) moves)
             && Rltb (released - pressed) (tapDurationThreshold (ctl w))
          then [tapEffect w (Dom.clientX last - Dom.left rect)
                  (Dom.clientY last - Dom.top rect)]
          else []).
Proof.
  intros w first moves last rect pressed released Hen Hat.
  pose proof (start_tracking w first rect pressed Hen Hat) as Hstart.
  pose proof (moves_tracking w _ _ _ rect moves _ _ Hstart) as Hmoves.
  cbn [orb] in Hmoves.
  assert (Hsplit : forall es e w0,
             run (es ++ [e]) w0 = step (run es w0) e).
  { induction es as [|e0 es IH]; intros e w0; [reflexivity|]. cbn [app run]. apply IH. }
  cbn [run]. rewrite Hsplit.
  apply (end_tracking w _ _ _ _ _ last rect released Hmoves).
Qed.

(** The excursion of C4, by the theorem: the sample at (150,100) strays and
    the release handles no tap. *)
Lemma block_tap_excursion :
  effects (run (TouchStart (fingers [Dom.mkTouch 0 100 100]) viewport 0
                :: map (fun touch => TouchMove (fingers [touch]) viewport)
                     [Dom.mkTouch 0 150 100; Dom.mkTouch 0 100 100]
                ++ [TouchEnd (lifted [Dom.mkTouch 0 100 100]) viewport 50]) emptyWorld)
  = effects (run (TouchStart (fingers [Dom.mkTouch 0 100 100]) viewport 0
                  :: map (fun touch => TouchMove (fingers [touch]) viewport)
                       [Dom.mkTouch 0 150 100; Dom.mkTouch 0 100 100]) emptyWorld).
Proof.
  rewrite (block_tap_needs_steady_contact emptyWorld (Dom.mkTouch 0 100 100)
             [Dom.mkTouch 0 150 100; Dom.mkTouch 0 100 100] (Dom.mkTouch 0 100 100)
             viewport 0 50 eq_refl eq_refl).
  assert (Hstray : strays (tapMovementThreshold (ctl emptyWorld)) viewport
                     (Dom.clientX (Dom.mkTouch 0 100 100) - Dom.left viewport)
                     (Dom.clientY (Dom.mkTouch 0 100 100) - Dom.top viewport)
                     (Dom.mkTouch 0 150 100) = true).
  { unfold strays, Rgtb. cbn. rewrite (sqrt_eval _ 50) by lra.
    apply Rltb_true. lra. }
  cbn [existsb]. rewrite Hstray. cbn [orb negb andb]. apply app_nil_r.
Defined.

(** ** The pending long-press timer *)

Lemma armed_inv_held_only (w : World) : armed_inv w -> held_only w.
Proof.
  unfold armed_inv, held_only.
  destruct (timers w) as [|[t [x0 y0]] [|t' l]]; [exact (fun x => x) | | exact (fun x => x)].
  intros [H _]. exact H.
Qed.

Lemma held_only_state (w w' : World) :
  timers w' = timers w ->
  longPressTimer (ctl w') = longPressTimer (ctl w) ->
  held_only w -> held_only w'.
Proof. unfold held_only. intros Ht Hl. rewrite Ht, Hl. exact (fun x => x). Qed.

Lemma cancelLongPress_clears (w : World) :
  held_only w -> timers (cancelLongPress w) = [].
Proof.
  unfold held_only, cancelLongPress.
  destruct (timers w) as [|[t [x0 y0]] [|t' l]] eqn:Ht.
  - intros _. destruct (longPressTimer (ctl w)); cbn [with_ctl clearTimeout timers];
      rewrite ?Ht; reflexivity.
  - intros Hheld. rewrite Hheld. cbn [with_ctl clearTimeout timers]. rewrite Ht.
    cbn [filter fst]. rewrite Nat.eqb_refl. reflexivity.
  - intros [].
Qed.

Lemma armed_inv_empty (w : World) : timers w = [] -> armed_inv w.
Proof. intros H. unfold armed_inv. rewrite H. exact I. Qed.

Lemma emit_all_frame (es : list Effect) :
  forall w,
    ctl (emit_all es w) = ctl w /\ timers (emit_all es w) = timers w /\
    attached (emit_all es w) = attached w /\
    canVibrate (emit_all es w) = canVibrate w /\
    effects (emit_all es w) = effects w ++ es.
Proof.
  induction es as [|e es IH]; intros w.
  - cbn. rewrite app_nil_r. repeat split.
  - unfold emit_all. cbn [fold_left]. fold (emit_all es (emit e w)).
    destruct (IH (emit e w)) as (H1 & H2 & H3 & H4 & H5).
    rewrite H1, H2, H3, H4, H5. cbn [emit ctl timers attached canVibrate effects].
    rewrite <- app_assoc. repeat split.
Qed.

(** The timer callback. *)
Lemma longPressTimeout_spec (x0 y0 : R) (w : World) :
  timers (longPressTimeout x0 y0 w) = timers w /\
  attached (longPressTimeout x0 y0 w) = attached w /\
  currentTouch (ctl (longPressTimeout x0 y0 w)) = currentTouch (ctl w) /\
  longPressTimer (ctl (longPressTimeout x0 y0 w)) = longPressTimer (ctl w) /\
  enabled (ctl (longPressTimeout x0 y0 w)) = enabled (ctl w) /\
  match currentTouch (ctl w) with
  | Some touch =>
      if moved touch
      then longPressTimeout x0 y0 w = w
      else quickDeleteMode (ctl (longPressTimeout x0 y0 w)) = true /\
           effects (longPressTimeout x0 y0 w) = effects w ++ longPressEffects w x0 y0
  | None => longPressTimeout x0 y0 w = w
  end.
Proof.
  unfold longPressTimeout.
  destruct (currentTouch (ctl w)) as [touch|] eqn:Hcur; [|rewrite Hcur; repeat split].
  destruct (moved touch); [rewrite Hcur; repeat split|].
  match goal with
  | |- context [emit_all ?es ?w1] =>
      destruct (emit_all_frame es w1) as (H1 & H2 & H3 & H4 & H5);
      set (w2 := emit_all es w1) in *
  end.
  cbn [with_ctl ctl timers attached canVibrate effects set_quickDeleteMode
       longPressCallbacks] in H1, H2, H3, H4, H5.
  unfold longPressEffects. rewrite H4.
  destruct (canVibrate w); cbn [emit ctl timers attached effects];
    rewrite H1, H2, H3, H5; cbn [currentTouch longPressTimer enabled quickDeleteMode];
    rewrite ?app_nil_r, <- ?app_assoc; repeat split; exact Hcur.
Qed.

Lemma armed_inv_step (w : World) (e : Event) :
  armed_inv w -> armed_inv (step w e).
Proof.
  intros Hinv. pose proof (armed_inv_held_only w Hinv) as Hheld.
  destruct e as [event rect now | event rect | event rect now | event rect now
                | timer | b | c | r | r | | |]; cbn [step].
  - (* touch start *)
    destruct (attached w); [|exact Hinv].
    unfold handleTouchStart. destruct (negb (enabled (ctl w))); [exact Hinv|].
    destruct (Dom.touches event) as [|touch [|touch' l]].
    + apply armed_inv_empty. apply cancelLongPress_clears.
      exact (held_only_state w _ eq_refl eq_refl Hheld).
    + unfold startLongPressTimer.
      match goal with
      | |- context [cancelLongPress ?w3] =>
          assert (Hclear : timers (cancelLongPress w3) = [])
            by (apply cancelLongPress_clears;
                exact (held_only_state w _ eq_refl eq_refl Hheld));
          destruct (cancelLongPress_frame w3) as (Hc & _);
          set (w4 := cancelLongPress w3) in *
      end.
      unfold armed_inv. cbn [with_ctl timers ctl]. rewrite Hclear, Hc.
      cbn [app set_longPressTimer longPressTimer currentTouch showTapFeedback emit
           with_ctl ctl set_currentTouch].
      split; [reflexivity|]. eexists. repeat split.
    + apply armed_inv_empty. apply cancelLongPress_clears.
      exact (held_only_state w _ eq_refl eq_refl Hheld).
  - (* touch move *)
    destruct (attached w); [|exact Hinv].
    unfold handleTouchMove. destruct (negb (enabled (ctl w))); [exact Hinv|].
    destruct (currentTouch (ctl w)) as [current|] eqn:Hcur; [|exact Hinv].
    assert (Hcount : armed_inv
                       (with_ctl (set_touchCount (length (Dom.touches event))) w)).
    { unfold armed_inv in *. cbn [with_ctl timers ctl set_touchCount longPressTimer
                                   currentTouch]. exact Hinv. }
    destruct (Dom.touches event) as [|touch [|touch' l]]; [exact Hcount | | exact Hcount].
    match goal with
    | |- context [if ?b then _ else _] => destruct b
    end.
    + apply armed_inv_empty.
      cbn [with_ctl timers]. apply cancelLongPress_clears.
      exact (held_only_state w _ eq_refl eq_refl Hheld).
    + unfold armed_inv in *.
      cbn [with_ctl timers ctl set_touchCount set_currentTouch longPressTimer
           currentTouch].
      destruct (timers w) as [|[t [x0 y0]] [|t' l]]; [exact I | | exact Hinv].
      destruct Hinv as (Hh & tp & Htp & Hx & Hy & Hm).
      rewrite Hcur in Htp. injection Htp as <-.
      split; [exact Hh|]. eexists. split; [reflexivity|].
      cbn [startX startY moved]. repeat split; assumption.
  - (* touch end *)
    destruct (attached w); [|exact Hinv].
    unfold handleTouchEnd. destruct (negb (enabled (ctl w))); [exact Hinv|].
    pose proof (cancelLongPress_clears w Hheld) as Hclear.
    apply armed_inv_empty.
    repeat match goal with
           | |- context [match ?d with _ => _ end] => destruct d
           end;
      unfold handleTap;
      repeat match goal with
             | |- context [if ?b then _ else _] => destruct b
             end;
      exact Hclear.
  - (* touch cancel *)
    destruct (attached w); [|exact Hinv].
    unfold handleTouchCancel, handleTouchEnd.
    destruct (negb (enabled (ctl w))); [exact Hinv|].
    pose proof (cancelLongPress_clears w Hheld) as Hclear.
    apply armed_inv_empty.
    repeat match goal with
           | |- context [match ?d with _ => _ end] => destruct d
           end;
      unfold handleTap;
      repeat match goal with
             | |- context [if ?b then _ else _] => destruct b
             end;
      exact Hclear.
  - (* timeout *)
    unfold runTimeout.
    destruct (find (fun t => Nat.eqb (fst t) timer) (timers w)) as [t|] eqn:Hf;
      [|exact Hinv].
    apply armed_inv_empty.
    destruct (longPressTimeout_spec (fst (snd t)) (snd (snd t)) (clearTimeout timer w))
      as (Ht & _).
    rewrite Ht. cbn [clearTimeout timers].
    unfold armed_inv in Hinv.
    destruct (timers w) as [|[t0 [x0 y0]] [|t' l]]; [reflexivity | | destruct Hinv].
    cbn [find fst] in Hf. cbn [filter fst].
    destruct (Nat.eqb t0 timer); [reflexivity | discriminate].
  - exact Hinv.
  - exact Hinv.
  - exact Hinv.
  - exact Hinv.
  - exact Hinv.
  - (* disable *)
    apply armed_inv_empty. unfold disable. cbn [with_ctl timers].
    apply cancelLongPress_clears.
    exact (held_only_state w _ eq_refl eq_refl Hheld).
  - (* destroy *)
    apply armed_inv_empty. unfold destroy. cbn [with_ctl timers].
    apply cancelLongPress_clears. exact Hheld.
Qed.

Lemma armed_inv_run (es : list Event) :
  forall w, armed_inv w -> armed_inv (run es w).
Proof.
  induction es as [|e es IH]; intros w Hinv; [exact Hinv|].
  cbn [run]. apply IH. apply armed_inv_step. exact Hinv.
Qed.

(** In a controller in use at most one long-press timer is pending, and one
    that is pending does fire when the browser runs it: the contact it was
    started for is still followed and has not strayed, so quick-delete mode
    is switched on and the long-press callbacks are called with the position
    of the press, followed by the haptic request where the device has one. *)
Theorem pending_long_press_fires :
  forall (vibrates : bool) (blockAt : R -> R -> BlockType) (es : list Event)
         (timer : nat) (x0 y0 : R),
    In (timer, (x0, y0)) (timers (run es (initial vibrates blockAt))) ->
    timers (run es (initial vibrates blockAt)) = [(timer, (x0, y0))] /\
    timers (step (run es (initial vibrates blockAt)) (Timeout timer)) = [] /\
    quickDeleteMode (ctl (step (run es (initial vibrates blockAt)) (Timeout timer)))
    = true /\
    effects (step (run es (initial vibrates blockAt)) (Timeout timer))
    = effects (run es (initial vibrates blockAt))
      ++ longPressEffects (run es (initial vibrates blockAt)) x0 y0.
Proof.
  intros vibrates blockAt es timer x0 y0 Hin.
  pose proof (armed_inv_run es (initial vibrates blockAt) I) as Hinv.
  set (w := run es (initial vibrates blockAt)) in *.
  unfold armed_inv in Hinv.
  destruct (timers w) as [|[t [x1 y1]] [|t' l]] eqn:Ht; [destruct Hin | | destruct Hinv].
  destruct Hin as [Heq | []]. injection Heq as -> -> ->.
  destruct Hinv as (Hheld & touch & Hcur & Hx & Hy & Hm).
  split; [reflexivity|].
  cbn [step]. unfold runTimeout. rewrite Ht. cbn [find fst snd]. rewrite Nat.eqb_refl.
  destruct (longPressTimeout_spec x0 y0 (clearTimeout timer w))
    as (Htimers & _ & _ & _ & _ & Hfire).
  cbn [fst snd]. rewrite Htimers.
  change (currentTouch (ctl (clearTimeout timer w))) with (currentTouch (ctl w)) in Hfire.
  rewrite Hcur, Hm in Hfire. destruct Hfire as [Hq He].
  split; [|split; [exact Hq | exact He]].
  cbn [clearTimeout timers]. rewrite Ht. cbn [filter fst]. rewrite Nat.eqb_refl.
  reflexivity.
Qed.

Lemma pending_long_press_scenario :
  effects (step (run [OnLongPress 4; TouchStart (fingers [Dom.mkTouch 0 100 100]) viewport 0]
                   (initial true (fun _ _ => AIR)))
             (Timeout 1))
  = [tapFeedback 100 100; longPressCallback 4 (100 - 0) (100 - 0); vibrate 50].
Proof.
  refine (proj2 (proj2 (proj2
            (pending_long_press_fires true (fun _ _ => AIR)
               [OnLongPress 4; TouchStart (fingers [Dom.mkTouch 0 100 100]) viewport 0]
               1%nat (100 - 0) (100 - 0) _)))).
  left. reflexivity.
Defined.

(** ** Quick-delete mode *)

Lemma quick_inv_step (w : World) (e : Event) :
  quick_inv w -> quick_inv (step w e).
Proof.
  intros Hinv.
  destruct e as [event rect now | event rect | event rect now | event rect now
                | timer | b | c | r | r | | |]; cbn [step].
  - destruct (attached w) eqn:Hat; [|exact Hinv].
    unfold handleTouchStart. destruct (negb (enabled (ctl w))); [exact Hinv|].
    destruct (Dom.touches event) as [|touch [|touch' l]].
    + destruct (cancelLongPress_frame
                  (with_ctl (set_touchCount (length (@nil Dom.Touch))) w))
        as (Hc & Ha & _).
      unfold quick_inv. rewrite Hc, Ha. exact Hinv.
    + unfold startLongPressTimer.
      match goal with
      | |- context [cancelLongPress ?w3] =>
          destruct (cancelLongPress_frame w3) as (Hc & Ha & _);
          set (w4 := cancelLongPress w3) in *
      end.
      unfold quick_inv. cbn [with_ctl ctl attached]. rewrite Hc.
      intros _ _. discriminate.
    + match goal with
      | |- quick_inv (cancelLongPress ?w1) =>
          destruct (cancelLongPress_frame w1) as (Hc & Ha & _)
      end.
      unfold quick_inv. rewrite Hc, Ha. exact Hinv.
  - destruct (attached w) eqn:Hat; [|exact Hinv].
    unfold handleTouchMove. destruct (negb (enabled (ctl w))); [exact Hinv|].
    destruct (currentTouch (ctl w)) as [current|] eqn:Hcur; [|exact Hinv].
    destruct (Dom.touches event) as [|touch [|touch' l]].
    + unfold quick_inv. cbn [with_ctl ctl attached set_touchCount currentTouch].
      rewrite Hcur. intros _ _. discriminate.
    + match goal with
      | |- context [if ?b then _ else _] => destruct b
      end; unfold quick_inv; cbn [with_ctl ctl set_currentTouch currentTouch];
        intros _ _; discriminate.
    + unfold quick_inv. cbn [with_ctl ctl attached set_touchCount currentTouch].
      rewrite Hcur. intros _ _. discriminate.
  - destruct (attached w) eqn:Hat; [|exact Hinv].
    unfold handleTouchEnd. destruct (negb (enabled (ctl w))); [exact Hinv|].
    destruct (cancelLongPress_frame w) as (Hc & Ha & _).
    cbn [with_ctl ctl]. rewrite Hc.
    cbn [set_touchCount set_longPressTimer touchCount currentTouch].
    destruct (length (Dom.touches event)) as [|n];
      [|unfold quick_inv; cbn [with_ctl ctl set_quickDeleteMode quickDeleteMode];
        intros _ H; discriminate H].
    destruct (currentTouch (ctl w)) as [current|] eqn:Hcur;
      [|unfold quick_inv; cbn [with_ctl ctl set_quickDeleteMode quickDeleteMode];
        intros _ H; discriminate H].
    destruct (Dom.changedTouches event) as [|touch l].
    + unfold quick_inv. cbn [with_ctl ctl attached]. rewrite Hc.
      cbn [set_touchCount set_longPressTimer currentTouch]. rewrite Hcur.
      intros _ _. discriminate.
    + unfold quick_inv. cbn [with_ctl ctl set_quickDeleteMode quickDeleteMode].
      intros _ H. discriminate H.
  - destruct (attached w) eqn:Hat; [|exact Hinv].
    unfold handleTouchCancel, handleTouchEnd.
    destruct (negb (enabled (ctl w))); [exact Hinv|].
    destruct (cancelLongPress_frame w) as (Hc & Ha & _).
    cbn [with_ctl ctl]. rewrite Hc.
    cbn [set_touchCount set_longPressTimer touchCount currentTouch].
    destruct (length (Dom.touches event)) as [|n];
      [|unfold quick_inv; cbn [with_ctl ctl set_quickDeleteMode quickDeleteMode];
        intros _ H; discriminate H].
    destruct (currentTouch (ctl w)) as [current|] eqn:Hcur;
      [|unfold quick_inv; cbn [with_ctl ctl set_quickDeleteMode quickDeleteMode];
        intros _ H; discriminate H].
    destruct (Dom.changedTouches event) as [|touch l].
    + unfold quick_inv. cbn [with_ctl ctl attached]. rewrite Hc.
      cbn [set_touchCount set_longPressTimer currentTouch]. rewrite Hcur.
      intros _ _. discriminate.
    + unfold quick_inv. cbn [with_ctl ctl set_quickDeleteMode quickDeleteMode].
      intros _ H. discriminate H.
  - unfold runTimeout.
    destruct (find (fun t => Nat.eqb (fst t) timer) (timers w)) as [t|]; [|exact Hinv].
    destruct (longPressTimeout_spec (fst (snd t)) (snd (snd t)) (clearTimeout timer w))
      as (_ & Ha & Hcur & _ & _ & Hfire).
    cbn [clearTimeout ctl attached] in Ha, Hcur, Hfire.
    destruct (currentTouch (ctl w)) as [touch|] eqn:Hc.
    + unfold quick_inv. rewrite Hcur. intros _ _. discriminate.
    + rewrite Hfire. exact Hinv.
  - exact Hinv.
  - exact Hinv.
  - exact Hinv.
  - exact Hinv.
  - exact Hinv.
  - unfold disable, quick_inv. cbn [with_ctl ctl set_quickDeleteMode quickDeleteMode].
    intros _ H. discriminate H.
  - unfold destroy, quick_inv. cbn [with_ctl attached]. intros H. discriminate H.
Qed.

Lemma quick_inv_run (es : list Event) :
  forall w, quick_inv w -> quick_inv (run es w).
Proof.
  induction es as [|e es IH]; intros w Hinv; [exact Hinv|].
  cbn [run]. apply IH. apply quick_inv_step. exact Hinv.
Qed.

(** In a controller in use whose listeners are attached, quick-delete mode
    is on only while a contact is followed: it is switched on by a long
    press and off by the touch-end and by [disable]. *)
Theorem quick_delete_needs_a_contact :
  forall (vibrates : bool) (blockAt : R -> R -> BlockType) (es : list Event),
    attached (run es (initial vibrates blockAt)) = true ->
    quickDeleteMode (ctl (run es (initial vibrates blockAt))) = true ->
    currentTouch (ctl (run es (initial vibrates blockAt))) <> None.
Proof.
  intros vibrates blockAt es.
  apply (quick_inv_run es (initial vibrates blockAt)).
  intros _ H. discriminate H.
Qed.

Lemma quick_delete_after_long_press :
  currentTouch
    (ctl (run [TouchStart (fingers [Dom.mkTouch 0 100 100]) viewport 0; Timeout 1]
            emptyWorld)) <> None.
Proof.
  apply (quick_delete_needs_a_contact false (fun _ _ => AIR)
           [TouchStart (fingers [Dom.mkTouch 0 100 100]) viewport 0; Timeout 1]).
  - reflexivity.
  - reflexivity.
Defined.

(** ** After [destroy] and [disable] *)

Lemma detached_step (w : World) (e : Event) :
  attached w = false -> currentTouch (ctl w) = None ->
  attached (step w e) = false /\ currentTouch (ctl (step w e)) = None /\
  effects (step w e) = effects w.
Proof.
  intros Hat Hcur.
  destruct e as [event rect now | event rect | event rect now | event rect now
                | timer | b | c | r | r | | |]; cbn [step]; rewrite ?Hat;
    try (repeat split; assumption).
  - unfold runTimeout.
    destruct (find (fun t => Nat.eqb (fst t) timer) (timers w)) as [t|];
      [|repeat split; assumption].
    destruct (longPressTimeout_spec (fst (snd t)) (snd (snd t)) (clearTimeout timer w))
      as (_ & _ & _ & _ & _ & Hfire).
    change (currentTouch (ctl (clearTimeout timer w))) with (currentTouch (ctl w)) in Hfire.
    rewrite Hcur in Hfire. rewrite Hfire. repeat split; assumption.
  - unfold disable.
    match goal with
    | |- context [cancelLongPress ?w1] =>
        destruct (cancelLongPress_frame w1) as (Hc & Ha & _ & He)
    end.
    cbn [with_ctl attached ctl effects]. rewrite Hc, Ha, He. repeat split. exact Hat.
  - unfold destroy. destruct (cancelLongPress_frame w) as (Hc & Ha & _ & He).
    cbn [with_ctl attached ctl effects]. rewrite He. repeat split.
Qed.

Lemma disabled_step (w : World) (e : Event) :
  enabled (ctl w) = false -> currentTouch (ctl w) = None -> isEnable e = false ->
  enabled (ctl (step w e)) = false /\ currentTouch (ctl (step w e)) = None /\
  effects (step w e) = effects w.
Proof.
  intros Hen Hcur Hne.
  destruct e as [event rect now | event rect | event rect now | event rect now
                | timer | b | c | r | r | | |]; cbn [step]; try discriminate Hne.
  - destruct (attached w); [|repeat split; assumption].
    unfold handleTouchStart. rewrite Hen. repeat split; assumption.
  - destruct (attached w); [|repeat split; assumption].
    unfold handleTouchMove. rewrite Hen. repeat split; assumption.
  - destruct (attached w); [|repeat split; assumption].
    unfold handleTouchEnd. rewrite Hen. repeat split; assumption.
  - destruct (attached w); [|repeat split; assumption].
    unfold handleTouchCancel, handleTouchEnd. rewrite Hen. repeat split; assumption.
  - unfold runTimeout.
    destruct (find (fun t => Nat.eqb (fst t) timer) (timers w)) as [t|];
      [|repeat split; assumption].
    destruct (longPressTimeout_spec (fst (snd t)) (snd (snd t)) (clearTimeout timer w))
      as (_ & _ & _ & _ & _ & Hfire).
    change (currentTouch (ctl (clearTimeout timer w))) with (currentTouch (ctl w)) in Hfire.
    rewrite Hcur in Hfire. rewrite Hfire. repeat split; assumption.
  - repeat split; assumption.
  - repeat split; assumption.
  - repeat split; assumption.
  - repeat split; assumption.
  - unfold disable.
    match goal with
    | |- context [cancelLongPress ?w1] =>
        destruct (cancelLongPress_frame w1) as (Hc & Ha & _ & He)
    end.
    cbn [with_ctl attached ctl effects]. rewrite Hc, He. repeat split.
  - unfold destroy. destruct (cancelLongPress_frame w) as (Hc & Ha & _ & He).
    cbn [with_ctl attached ctl effects]. rewrite Hc, He.
    cbn [set_currentTouch set_longPressTimer enabled currentTouch].
    repeat split. exact Hen.
Qed.

Lemma detached_run (es : list Event) :
  forall w, attached w = false -> currentTouch (ctl w) = None ->
            effects (run es w) = effects w.
Proof.
  induction es as [|e es IH]; intros w Hat Hcur; [reflexivity|].
  cbn [run]. destruct (detached_step w e Hat Hcur) as (Ha & Hc & He).
  rewrite (IH _ Ha Hc). exact He.
Qed.

Lemma disabled_run (es : list Event) :
  forall w, enabled (ctl w) = false -> currentTouch (ctl w) = None ->
            forallb (fun e => negb (isEnable e)) es = true ->
            effects (run es w) = effects w.
Proof.
  induction es as [|e es IH]; intros w Hen Hcur Hall; [reflexivity|].
  cbn [forallb] in Hall. apply andb_true_iff in Hall. destruct Hall as [He Hall].
  apply negb_true_iff in He.
  cbn [run]. destruct (disabled_step w e Hen Hcur He) as (Hen' & Hc & Heff).
  rewrite (IH _ Hen' Hc Hall). exact Heff.
Qed.

(** After [destroy] the controller has no effect any more, whatever touch
    events, timers and method calls follow; and after [disable] it has none
    until [enable] is called. *)
Theorem destroyed_or_disabled_block_controller_is_silent :
  forall (w : World) (es : list Event),
    effects (run es (destroy w)) = effects w /\
    (forallb (fun e => negb (isEnable e)) es = true ->
     effects (run es (disable w)) = effects w).
Proof.
  intros w es. split.
  - rewrite detached_run.
    + unfold destroy. destruct (cancelLongPress_frame w) as (_ & _ & _ & He).
      cbn [with_ctl effects]. exact He.
    + reflexivity.
    + reflexivity.
  - intros Hall. rewrite disabled_run.
    + unfold disable.
      match goal with
      | |- context [cancelLongPress ?w1] =>
          destruct (cancelLongPress_frame w1) as (_ & _ & _ & He)
      end.
      cbn [with_ctl effects]. rewrite He. reflexivity.
    + unfold disable.
      match goal with
      | |- context [cancelLongPress ?w1] =>
          destruct (cancelLongPress_frame w1) as (Hc & _)
      end.
      cbn [with_ctl ctl]. rewrite Hc. reflexivity.
    + unfold disable.
      match goal with
      | |- context [cancelLongPress ?w1] =>
          destruct (cancelLongPress_frame w1) as (Hc & _)
      end.
      cbn [with_ctl ctl]. rewrite Hc. reflexivity.
    + exact Hall.
Qed.

Lemma disabled_block_controller_scenario :
  effects (run [TouchStart (fingers [Dom.mkTouch 0 100 100]) viewport 0;
                TouchEnd (lifted [Dom.mkTouch 0 100 100]) viewport 50]
             (disable emptyWorld))
  = effects emptyWorld.
Proof.
  apply (destroyed_or_disabled_block_controller_is_silent emptyWorld
           [TouchStart (fingers [Dom.mkTouch 0 100 100]) viewport 0;
            TouchEnd (lifted [Dom.mkTouch 0 100 100]) viewport 50]).
  reflexivity.
Defined.

(** ** Long press after an excursion, in this controller *)

Lemma cancelLongPress_host (w : World) :
  nextTimer (cancelLongPress w) = nextTimer w /\
  canVibrate (cancelLongPress w) = canVibrate w.
Proof.
  unfold cancelLongPress. destruct (longPressTimer (ctl w)); split; reflexivity.
Qed.

Lemma pressing_held_only (w0 w : World) (timer : nat) (sx sy : R) (steady : bool) :
  pressing w0 w timer sx sy steady -> held_only w.
Proof.
  intros (_ & _ & _ & _ & _ & _ & Ht & Hl). unfold held_only. rewrite Ht.
  destruct steady; [apply Hl; reflexivity | exact I].
Qed.

Lemma press_pressing (w : World) (first : Dom.Touch) (rect : Dom.Rect) (now : R) :
  held_only w ->
  enabled (ctl w) = true -> attached w = true ->
  pressing w (step w (TouchStart (fingers [first]) rect now)) (nextTimer w)
    (Dom.clientX first - Dom.left rect) (Dom.clientY first - Dom.top rect) true.
Proof.
  intros Hheld Hen Hat. cbn [step]. rewrite Hat. unfold handleTouchStart. rewrite Hen.
  cbn [negb fingers Dom.touches]. unfold startLongPressTimer.
  match goal with
  | |- context [cancelLongPress ?w3] =>
      assert (Hclear : timers (cancelLongPress w3) = [])
        by (apply cancelLongPress_clears;
            exact (held_only_state w _ eq_refl eq_refl Hheld));
      destruct (cancelLongPress_frame w3) as (Hc & Ha & _);
      destruct (cancelLongPress_host w3) as (Hn & Hv);
      set (w4 := cancelLongPress w3) in *
  end.
  unfold pressing. cbn [with_ctl ctl attached canVibrate timers].
  rewrite Hc, Ha, Hclear, Hn, Hv.
  cbn [showTapFeedback emit with_ctl ctl set_longPressTimer set_currentTouch
       set_touchCount enabled longPressCallbacks tapMovementThreshold currentTouch
       longPressTimer nextTimer canVibrate attached app negb].
  split; [exact Hen | split; [exact Hat | split; [reflexivity | split; [reflexivity |
    split; [reflexivity | split; [|split; [reflexivity | reflexivity]]]]]]].
  eexists _, _, _. reflexivity.
Qed.

Lemma move_pressing (w0 w : World) (timer : nat) (sx sy : R) (steady : bool)
  (touch : Dom.Touch) (rect : Dom.Rect) :
  pressing w0 w timer sx sy steady ->
  pressing w0 (step w (TouchMove (fingers [touch]) rect)) timer sx sy
    (steady && negb (strays (tapMovementThreshold (ctl w0)) rect sx sy touch)).
Proof.
  intros Hp. pose proof (pressing_held_only _ _ _ _ _ _ Hp) as Hheld.
  destruct Hp as (Hen & Hat & Hv & Hl & Hmt & (cx & cy & ts & Hcur) & Ht & Hheldt).
  cbn [step]. rewrite Hat. unfold handleTouchMove. rewrite Hen, Hcur.
  cbn [negb fingers Dom.touches with_ctl ctl set_touchCount tapMovementThreshold
       startX startY timestamp moved].
  rewrite Hmt. fold (strays (tapMovementThreshold (ctl w0)) rect sx sy touch).
  destruct (strays (tapMovementThreshold (ctl w0)) rect sx sy touch).
  - rewrite andb_false_r.
    match goal with
    | |- context [cancelLongPress ?w1] =>
        assert (Hclear : timers (cancelLongPress w1) = [])
          by (apply cancelLongPress_clears;
              exact (held_only_state w _ eq_refl eq_refl Hheld));
        destruct (cancelLongPress_frame w1) as (Hc & Ha & _);
        destruct (cancelLongPress_host w1) as (_ & Hv1)
    end.
    unfold pressing. cbn [with_ctl ctl attached canVibrate timers].
    rewrite Hc, Ha, Hclear, Hv1.
    cbn [with_ctl ctl attached canVibrate set_longPressTimer set_currentTouch
         set_touchCount enabled longPressCallbacks tapMovementThreshold currentTouch
         negb].
    split; [exact Hen | split; [exact Hat | split; [exact Hv | split; [exact Hl |
      split; [exact Hmt | split; [|split; [reflexivity | intros H; discriminate H]]]]]]].
    eexists _, _, _. reflexivity.
  - rewrite andb_true_r. unfold pressing.
    cbn [with_ctl ctl attached canVibrate timers set_currentTouch set_touchCount
         enabled longPressCallbacks tapMovementThreshold currentTouch longPressTimer].
    split; [exact Hen | split; [exact Hat | split; [exact Hv | split; [exact Hl |
      split; [exact Hmt | split; [|split; [exact Ht | exact Hheldt]]]]]]].
    eexists _, _, _. reflexivity.
Qed.

Lemma moves_pressing (w0 : World) (timer : nat) (sx sy : R) (rect : Dom.Rect)
  (moves : list Dom.Touch) :
  forall (w : World) (steady : bool),
    pressing w0 w timer sx sy steady ->
    pressing w0 (run (map (fun touch => TouchMove (fingers [touch]) rect) moves) w)
      timer sx sy
      (steady && negb (existsb (strays (tapMovementThreshold (ctl w0)) rect sx sy) moves)).
Proof.
  induction moves as [|touch moves IH]; intros w steady Hp.
  - cbn [map run existsb negb]. rewrite andb_true_r. exact Hp.
  - cbn [map run existsb]. rewrite negb_orb, andb_assoc. apply IH.
    apply move_pressing. exact Hp.
Qed.

Lemma timeout_pressing (w0 w : World) (timer : nat) (sx sy : R) (steady : bool) :
  pressing w0 w timer sx sy steady ->
  effects (step w (Timeout timer))
  = effects w ++ (if steady then longPressEffects w0 sx sy else []).
Proof.
  intros (Hen & Hat & Hv & Hl & Hmt & (cx & cy & ts & Hcur) & Ht & Hheldt).
  cbn [step]. unfold runTimeout. rewrite Ht. destruct steady.
  - cbn [find fst snd]. rewrite Nat.eqb_refl. cbn [fst snd].
    destruct (longPressTimeout_spec sx sy (clearTimeout timer w))
      as (_ & _ & _ & _ & _ & Hfire).
    change (currentTouch (ctl (clearTimeout timer w))) with (currentTouch (ctl w)) in Hfire.
    rewrite Hcur in Hfire. cbn [moved negb] in Hfire. destruct Hfire as [_ He].
    rewrite He. unfold longPressEffects. cbn [clearTimeout effects ctl canVibrate].
    rewrite Hl, Hv. reflexivity.
  - cbn [find]. rewrite app_nil_r. reflexivity.
Qed.

(** One contact is pressed and moves any number of times on an enabled
    controller in use.  When the timer of the press runs, the long press
    happens (quick-delete callbacks at the position of the press, then the
    haptic request) exactly when no move sample was more than the movement
    threshold from the press; a contact that strayed and came back is not
    long pressed. *)
Theorem block_long_press_needs_steady_contact :
  forall (vibrates : bool) (blockAt : R -> R -> BlockType) (es : list Event)
         (first : Dom.Touch) (moves : list Dom.Touch) (rect : Dom.Rect) (now : R),
    enabled (ctl (run es (initial vibrates blockAt))) = true ->
    attached (run es (initial vibrates blockAt)) = true ->
    effects (run (TouchStart (fingers [first]) rect now
                  :: map (fun touch => TouchMove (fingers [touch]) rect) moves
                  ++ [Timeout (nextTimer (run es (initial vibrates blockAt)))])
               (run es (initial vibrates blockAt)))
    = effects (run (TouchStart (fingers [first]) rect now
                    :: map (fun touch => TouchMove (fingers [touch]) rect) moves)
                 (run es (initial vibrates blockAt)))
      ++ (if negb (existsb (strays (tapMovementThreshold
                                      (ctl (run es (initial vibrates blockAt))))
                              rect (Dom.clientX first - Dom.left rect)
                              (Dom.clientY first - Dom.top rect)) moves)
          then longPressEffects (run es (initial vibrates blockAt))
                 (Dom.clientX first - Dom.left rect) (Dom.clientY first - Dom.top rect)
          else []).
Proof.
  intros vibrates blockAt es first moves rect now Hen Hat.
  set (w := run es (initial vibrates blockAt)) in *.
  assert (Hheld : held_only w).
  { apply armed_inv_held_only. apply (armed_inv_run es (initial vibrates blockAt) I). }
  pose proof (press_pressing w first rect now Hheld Hen Hat) as Hpress.
  pose proof (moves_pressing w _ _ _ rect moves _ _ Hpress) as Hmoves.
  cbn [andb] in Hmoves.
  assert (Hsplit : forall es0 e w0, run (es0 ++ [e]) w0 = step (run es0 w0) e).
  { induction es0 as [|e0 es0 IH]; intros e w0; [reflexivity|]. cbn [app run]. apply IH. }
  cbn [run]. rewrite Hsplit.
  apply (timeout_pressing w _ _ _ _ _ Hmoves).
Qed.

Lemma block_long_press_excursion :
  effects (run (TouchStart (fingers [Dom.mkTouch 0 100 100]) viewport 0
                :: map (fun touch => TouchMove (fingers [touch]) viewport)
                     [Dom.mkTouch 0 150 100; Dom.mkTouch 0 100 100]
                ++ [Timeout 1]) (run [OnLongPress 4] emptyWorld))
  = effects (run (TouchStart (fingers [Dom.mkTouch 0 100 100]) viewport 0
                  :: map (fun touch => TouchMove (fingers [touch]) viewport)
                       [Dom.mkTouch 0 150 100; Dom.mkTouch 0 100 100])
               (run [OnLongPress 4] emptyWorld)).
Proof.
  pose proof (block_long_press_needs_steady_contact false (fun _ _ => AIR)
                [OnLongPress 4] (Dom.mkTouch 0 100 100)
                [Dom.mkTouch 0 150 100; Dom.mkTouch 0 100 100] viewport 0
                eq_refl eq_refl) as H.
  assert (Hstray : strays (tapMovementThreshold
                             (ctl (run [OnLongPress 4] (initial false (fun _ _ => AIR)))))
                     viewport
                     (Dom.clientX (Dom.mkTouch 0 100 100) - Dom.left viewport)
                     (Dom.clientY (Dom.mkTouch 0 100 100) - Dom.top viewport)
                     (Dom.mkTouch 0 150 100) = true).
  { unfold strays, Rgtb. cbn. rewrite (sqrt_eval _ 50) by lra.
    apply Rltb_true. lra. }
  cbn [existsb] in H. rewrite Hstray in H. cbn [orb negb] in H.
  rewrite app_nil_r in H. exact H.
Defined.

End TouchBlockControllerProperties.

(** * Properties of GameConfig and ConfigManager *)

Section GameConfigProperties.

Import GameConfig.

(** ** Vocabulary of the properties *)





(** The listener is registered in the list. *)
Definition listening (listener : ChangeListener) (l : list ChangeListener) : bool :=
  existsb (fun c => Nat.eqb (listener_id c) (listener_id listener)) l.

(** ** Validation *)







(** ** Serialization *)



(** ** The manager *)














(** ** Persistence *)



(** ** Change listeners *)

Lemma config_removeFirst_added (listener : ChangeListener) (l : list ChangeListener) :
  removeFirst listener (l ++ [listener])
  = if listening listener l then removeFirst listener l ++ [listener] else l.
Proof.
  induction l as [|c l IH]; cbn [app removeFirst listening existsb].
  - rewrite Nat.eqb_refl. reflexivity.
  - destruct (Nat.eqb (listener_id c) (listener_id listener)); cbn [orb].
    + reflexivity.
    + rewrite IH. fold (listening listener l).
      destruct (listening listener l); reflexivity.
Qed.

(** A listener that is added and removed again, and was not registered
    before, leaves the manager as it was, and is told of no later update;
    one that was registered before loses its earlier registration. *)
Theorem removed_listener_is_not_notified :
  forall (w : World) (listener : ChangeListener) (updates : GameConfigData),
    changeListeners (mgr (removeChangeListener listener (addChangeListener listener w)))
    = (if listening listener (changeListeners (mgr w))
       then removeFirst listener (changeListeners (mgr w)) ++ [listener]
       else changeListeners (mgr w)) /\
    (listening listener (changeListeners (mgr w)) = false ->
     removeChangeListener listener (addChangeListener listener w) = w /\
     notified (updateConfig updates
                 (removeChangeListener listener (addChangeListener listener w)))
     = notified (updateConfig updates w)).
Proof.
  intros w listener updates.
  assert (Hl : changeListeners
                 (mgr (removeChangeListener listener (addChangeListener listener w)))
               = if listening listener (changeListeners (mgr w))
                 then removeFirst listener (changeListeners (mgr w)) ++ [listener]
                 else changeListeners (mgr w)).
  { unfold removeChangeListener, addChangeListener. cbn [mgr changeListeners].
    apply config_removeFirst_added. }
  split; [exact Hl|]. intros Hnot.
  assert (Hsame : removeChangeListener listener (addChangeListener listener w) = w).
  { rewrite Hnot in Hl. destruct w as [[c l] s n].
    unfold removeChangeListener, addChangeListener in *.
    cbn [mgr changeListeners config localStorage notified] in *.
    rewrite Hl. reflexivity. }
  rewrite Hsame. split; reflexivity.
Qed.

Lemma removed_listener_scenario :
  notified (updateConfig emptyData
              (removeChangeListener (mkChangeListener 5 (fun _ => Thrown))
                 (addChangeListener (mkChangeListener 5 (fun _ => Thrown))
                    (new_ConfigManager (mkStorage None false false)))))
  = notified (updateConfig emptyData (new_ConfigManager (mkStorage None false false))).
Proof.
  apply (removed_listener_is_not_notified
           (new_ConfigManager (mkStorage None false false))
           (mkChangeListener 5 (fun _ => Thrown)) emptyData).
  reflexivity.
Defined.

End GameConfigProperties.
